(** * UBMM backlog service: the domain service and its ports

    A shallow embedding of the backlog domain service
    (internal/domain/service/backlog_service.go), of the entity model
    (internal/domain/model/item.go), of the event log replay
    (internal/adapters/db/postgres.go) and of the two derived metrics
    (calculateIcebergRatio, determineHealthStatus).

    The relational store is an in-memory table that enforces what the
    migration (000001_initial_schema.up.sql) declares: primary key, the
    parent foreign key, both CHECK constraints and the two enum columns.
    The cache is the Redis adapter (internal/adapters/cache/redis.go) over
    a reliable key/value store: what is set under a key is kept as JSON
    text, and what is read is that text unmarshalled into an untyped
    value.  The event store and the message bus may fail; the caller of
    an operation says whether they do, and the service logs and carries on
    as the code does. *)

From Stdlib Require Import ZArith NArith String Ascii List Floats.
From stdpp Require Import gmap strings list fin_maps sorting pretty.

Local Open Scope Z_scope.
Local Open Scope string_scope.

(** ** Entity model (item.go) *)

Module model.

(** [uuid.UUID]: 128 bits; [uuid.Nil] is the all-zero value. *)
Definition UUID := N.
Definition uuid_Nil : UUID := 0%N.

(** [type ItemType string] *)
Definition ItemType := string.
Definition ItemTypeEpic : ItemType := "EPIC".
Definition ItemTypeFeature : ItemType := "FEATURE".
Definition ItemTypeStory : ItemType := "STORY".

(** [type ItemStatus string] *)
Definition ItemStatus := string.
Definition ItemStatusNew : ItemStatus := "NEW".
Definition ItemStatusReady : ItemStatus := "READY".
Definition ItemStatusInProgress : ItemStatus := "IN_PROGRESS".
Definition ItemStatusDone : ItemStatus := "DONE".
Definition ItemStatusBlocked : ItemStatus := "BLOCKED".

(** [time.Time] as a number of ticks. *)
Definition Time := Z.

Record BacklogItem := mkItem {
  ID : UUID;
  Type_ : ItemType;
  ParentID : option UUID;
  Title : string;
  Description : string;
  StoryPoints : Z;
  Status : ItemStatus;
  Priority : Z;
  Assignee : string;
  Tags : list string;
  CreatedAt : Time;
  UpdatedAt : Time;
  ExternalIDs : gmap string string
}.

(** The messages of the [errors.New] and [fmt.Errorf] calls an operation of
    the service can return. *)
Inductive Error :=
| ErrTitleEmpty            (* "title cannot be empty" *)
| ErrInvalidItemType       (* "invalid item type" *)
| ErrInvalidItemStatus     (* "invalid item status" *)
| ErrNegativeStoryPoints   (* "story points cannot be negative" *)
| ErrEpicParent            (* "epic cannot have a parent" *)
| ErrInvalidRelationship   (* "invalid parent-child relationship" *)
| ErrHasChildren           (* "cannot delete item with children" *)
| ErrNotFound              (* "backlog item not found" *)
| ErrCreateFailed          (* "failed to create backlog item: ..." *)
| ErrUpdateFailed          (* "failed to update backlog item: ..." *)
| ErrStoreEvent            (* "failed to store event: ..." *)
| ErrPublish               (* "failed to produce message: ..." *)
| ErrUnknownEventType      (* "unknown event type: ..." *)
| ErrNoEvents              (* "no events found for item ..." *)
| ErrNoCreatedEvent        (* "created event not found for item ..." *)
| PanicNilDereference      (* runtime panic: nil pointer dereference *)
| PanicNilMap.             (* panic: assignment to entry in nil map *)

Inductive Result (A : Type) :=
| Ok (a : A)
| Err (e : Error).
Arguments Ok {A} a.
Arguments Err {A} e.

Definition isValidItemType (itemType : ItemType) : bool :=
  String.eqb itemType ItemTypeEpic
  || String.eqb itemType ItemTypeFeature
  || String.eqb itemType ItemTypeStory.

Definition isValidItemStatus (status : ItemStatus) : bool :=
  String.eqb status ItemStatusNew
  || String.eqb status ItemStatusReady
  || String.eqb status ItemStatusInProgress
  || String.eqb status ItemStatusDone
  || String.eqb status ItemStatusBlocked.

(** [NewBacklogItem]; [now] is [time.Now().UTC()] and [id] is [uuid.New()]. *)
Definition NewBacklogItem (now : Time) (id : UUID)
    (itemType : ItemType) (title description : string) : Result BacklogItem :=
  if String.eqb title "" then Err ErrTitleEmpty
  else if negb (isValidItemType itemType) then Err ErrInvalidItemType
  else Ok {| ID := id;
             Type_ := itemType;
             ParentID := None;
             Title := title;
             Description := description;
             StoryPoints := 0;
             Status := ItemStatusNew;
             Priority := 0;
             Assignee := "";
             Tags := [];
             CreatedAt := now;
             UpdatedAt := now;
             ExternalIDs := ∅ |}.

Definition set_Title (v : string) (i : BacklogItem) : BacklogItem :=
  mkItem (ID i) (Type_ i) (ParentID i) v (Description i) (StoryPoints i)
         (Status i) (Priority i) (Assignee i) (Tags i) (CreatedAt i)
         (UpdatedAt i) (ExternalIDs i).
Definition set_Description (v : string) (i : BacklogItem) : BacklogItem :=
  mkItem (ID i) (Type_ i) (ParentID i) (Title i) v (StoryPoints i)
         (Status i) (Priority i) (Assignee i) (Tags i) (CreatedAt i)
         (UpdatedAt i) (ExternalIDs i).
Definition set_StoryPoints (v : Z) (i : BacklogItem) : BacklogItem :=
  mkItem (ID i) (Type_ i) (ParentID i) (Title i) (Description i) v
         (Status i) (Priority i) (Assignee i) (Tags i) (CreatedAt i)
         (UpdatedAt i) (ExternalIDs i).
Definition set_Status (v : ItemStatus) (i : BacklogItem) : BacklogItem :=
  mkItem (ID i) (Type_ i) (ParentID i) (Title i) (Description i)
         (StoryPoints i) v (Priority i) (Assignee i) (Tags i) (CreatedAt i)
         (UpdatedAt i) (ExternalIDs i).
Definition set_Priority (v : Z) (i : BacklogItem) : BacklogItem :=
  mkItem (ID i) (Type_ i) (ParentID i) (Title i) (Description i)
         (StoryPoints i) (Status i) v (Assignee i) (Tags i) (CreatedAt i)
         (UpdatedAt i) (ExternalIDs i).
Definition set_ParentID (v : option UUID) (i : BacklogItem) : BacklogItem :=
  mkItem (ID i) (Type_ i) v (Title i) (Description i)
         (StoryPoints i) (Status i) (Priority i) (Assignee i) (Tags i)
         (CreatedAt i) (UpdatedAt i) (ExternalIDs i).
Definition set_Assignee (v : string) (i : BacklogItem) : BacklogItem :=
  mkItem (ID i) (Type_ i) (ParentID i) (Title i) (Description i)
         (StoryPoints i) (Status i) (Priority i) v (Tags i)
         (CreatedAt i) (UpdatedAt i) (ExternalIDs i).
Definition set_Tags (v : list string) (i : BacklogItem) : BacklogItem :=
  mkItem (ID i) (Type_ i) (ParentID i) (Title i) (Description i)
         (StoryPoints i) (Status i) (Priority i) (Assignee i) v
         (CreatedAt i) (UpdatedAt i) (ExternalIDs i).
Definition set_UpdatedAt (v : Time) (i : BacklogItem) : BacklogItem :=
  mkItem (ID i) (Type_ i) (ParentID i) (Title i) (Description i)
         (StoryPoints i) (Status i) (Priority i) (Assignee i) (Tags i)
         (CreatedAt i) v (ExternalIDs i).
Definition set_ExternalIDs (v : gmap string string) (i : BacklogItem)
    : BacklogItem :=
  mkItem (ID i) (Type_ i) (ParentID i) (Title i) (Description i)
         (StoryPoints i) (Status i) (Priority i) (Assignee i) (Tags i)
         (CreatedAt i) (UpdatedAt i) v.

(** The methods with a pointer receiver return the updated item. *)

Definition UpdateTitle (now : Time) (title : string) (i : BacklogItem)
    : Result BacklogItem :=
  if String.eqb title "" then Err ErrTitleEmpty
  else Ok (set_UpdatedAt now (set_Title title i)).

Definition UpdateDescription (now : Time) (description : string)
    (i : BacklogItem) : BacklogItem :=
  set_UpdatedAt now (set_Description description i).

Definition UpdateStatus (now : Time) (status : ItemStatus) (i : BacklogItem)
    : Result BacklogItem :=
  if negb (isValidItemStatus status) then Err ErrInvalidItemStatus
  else Ok (set_UpdatedAt now (set_Status status i)).

Definition UpdateStoryPoints (now : Time) (points : Z) (i : BacklogItem)
    : Result BacklogItem :=
  if (points <? 0)%Z then Err ErrNegativeStoryPoints
  else Ok (set_UpdatedAt now (set_StoryPoints points i)).

Definition UpdatePriority (now : Time) (priority : Z) (i : BacklogItem)
    : BacklogItem :=
  set_UpdatedAt now (set_Priority priority i).

Definition UpdateParent (now : Time) (parentID : option UUID)
    (i : BacklogItem) : Result BacklogItem :=
  if bool_decide (parentID ≠ None) && String.eqb (Type_ i) ItemTypeEpic
  then Err ErrEpicParent
  else Ok (set_UpdatedAt now (set_ParentID parentID i)).

(** [AddTag]: a tag already present leaves the item as it is, time stamp
    included. *)
Definition AddTag (now : Time) (tag : string) (i : BacklogItem)
    : BacklogItem :=
  if existsb (String.eqb tag) (Tags i) then i
  else set_UpdatedAt now (set_Tags (Tags i ++ [tag]) i).

Definition SetExternalID (now : Time) (system externalID : string)
    (i : BacklogItem) : BacklogItem :=
  set_UpdatedAt now (set_ExternalIDs (<[system := externalID]> (ExternalIDs i)) i).

(** [RemoveTag]: the slice without the first occurrence of the tag, if
    there is one. *)
Fixpoint remove_first (tag : string) (tags : list string)
    : option (list string) :=
  match tags with
  | [] => None
  | existingTag :: tags' =>
      if String.eqb existingTag tag then Some tags'
      else match remove_first tag tags' with
           | Some rest => Some (existingTag :: rest)
           | None => None
           end
  end.

Definition RemoveTag (now : Time) (tag : string) (i : BacklogItem)
    : BacklogItem :=
  match remove_first tag (Tags i) with
  | Some tags => set_UpdatedAt now (set_Tags tags i)
  | None => i
  end.

(** [GetExternalID]: a system without an entry reads as the empty
    string. *)
Definition GetExternalID (system : string) (i : BacklogItem) : string :=
  default "" (ExternalIDs i !! system).

Definition IsReady (i : BacklogItem) : bool :=
  String.eqb (Status i) ItemStatusReady.

End model.

(** ** Domain events (events.go) *)

Module event.
Import model.

Definition EventType := string.
Definition EventTypeItemCreated : EventType := "ITEM_CREATED".
Definition EventTypeItemUpdated : EventType := "ITEM_UPDATED".
Definition EventTypeItemDeleted : EventType := "ITEM_DELETED".
Definition EventTypeItemsReordered : EventType := "ITEMS_REORDERED".
Definition EventTypeExternalIDSet : EventType := "EXTERNAL_ID_SET".

(** [type Event struct], the base every event embeds. *)
Record Event := mkEvent {
  ID : UUID;
  Type_ : EventType;
  Timestamp : Time;
  Version : Z
}.

(** The five event structs.  [Item] is a pointer in the source, hence the
    option. *)
Inductive DomainEvent :=
| ItemCreatedEvent (base : Event) (ItemID : UUID) (Item : option BacklogItem)
| ItemUpdatedEvent (base : Event) (ItemID : UUID) (Item : option BacklogItem)
| ItemDeletedEvent (base : Event) (ItemID : UUID) (Item : option BacklogItem)
| ItemsReorderedEvent (base : Event) (ItemPriorities : gmap UUID Z)
| ExternalIDSetEvent (base : Event) (ItemID : UUID) (System ExternalID : string).

(** [NewBaseEvent]; [id] is [uuid.New()], [now] is [time.Now().UTC()]. *)
Definition NewBaseEvent (id : UUID) (now : Time) (eventType : EventType)
    : Event :=
  {| ID := id; Type_ := eventType; Timestamp := now; Version := 1 |}.

Definition NewItemCreatedEvent (id : UUID) (now : Time)
    (itemID : UUID) (item : BacklogItem) : DomainEvent :=
  ItemCreatedEvent (NewBaseEvent id now EventTypeItemCreated) itemID (Some item).

Definition NewItemUpdatedEvent (id : UUID) (now : Time)
    (itemID : UUID) (item : BacklogItem) : DomainEvent :=
  ItemUpdatedEvent (NewBaseEvent id now EventTypeItemUpdated) itemID (Some item).

Definition NewItemDeletedEvent (id : UUID) (now : Time)
    (itemID : UUID) (item : BacklogItem) : DomainEvent :=
  ItemDeletedEvent (NewBaseEvent id now EventTypeItemDeleted) itemID (Some item).

Definition NewItemsReorderedEvent (id : UUID) (now : Time)
    (itemPriorities : gmap UUID Z) : DomainEvent :=
  ItemsReorderedEvent (NewBaseEvent id now EventTypeItemsReordered) itemPriorities.

Definition NewExternalIDSetEvent (id : UUID) (now : Time)
    (itemID : UUID) (system externalID : string) : DomainEvent :=
  ExternalIDSetEvent (NewBaseEvent id now EventTypeExternalIDSet)
                     itemID system externalID.

End event.

(** ** Sorting by an integer column ([ORDER BY col ASC]) *)

Section sort_by.
Context {A : Type} (key : A → Z).

Fixpoint insert_by (x : A) (l : list A) : list A :=
  match l with
  | [] => [x]
  | y :: l' => if (key x <=? key y)%Z then x :: y :: l'
               else y :: insert_by x l'
  end.

Definition sort_by (l : list A) : list A := foldr insert_by [] l.

End sort_by.

(** ** The relational store (postgres.go over the migration's schema) *)

Module db.
Import model.

(** The member [item] of a payload, as [json.Unmarshal] reads it into a
    [BacklogItem]: the fields, and whether the object has a member
    [externalIds] that is not [null].  Where it has none, [ExternalIDs]
    stays a nil map, whatever [o_item] holds there. *)
Record ItemObject := mkItemObject {
  o_item : BacklogItem;
  o_externalIds : bool
}.

(** The JSON object of the [payload] column: the fields of the five event
    structs; a field a struct does not have is absent. *)
Record Payload := mkPayload {
  p_base : event.Event;
  p_itemId : option UUID;
  p_item : option ItemObject;
  p_itemPriorities : option (gmap UUID Z);
  p_system : option string;
  p_externalId : option string
}.

(** A row of the [events] table. *)
Record EventRow := mkRow {
  row_id : UUID;
  event_type : string;
  item_id : option UUID;
  payload : Payload;
  created_at : Time
}.

Record Database := mkDatabase {
  backlog_items : gmap UUID BacklogItem;
  events : list EventRow
}.

(** PostgreSQL's [trim(text)] removes spaces, and only spaces, from both
    ends. *)
Fixpoint ltrim (s : list ascii) : list ascii :=
  match s with
  | c :: s' => if Ascii.eqb c " "%char then ltrim s' else s
  | [] => []
  end.

Definition pg_trim (s : string) : string :=
  string_of_list_ascii
    (rev (ltrim (rev (ltrim (list_ascii_of_string s))))).

(** [CHECK (length(trim(title)) > 0)] *)
Definition backlog_items_title_not_empty (i : BacklogItem) : bool :=
  (0 <? Z.of_nat (String.length (pg_trim (Title i))))%Z.

(** [CHECK (story_points >= 0)] *)
Definition backlog_items_story_points_not_negative (i : BacklogItem) : bool :=
  (0 <=? StoryPoints i)%Z.

(** [parent_id UUID REFERENCES backlog_items(id)] *)
Definition parent_id_fkey (tbl : gmap UUID BacklogItem) (i : BacklogItem)
    : bool :=
  match ParentID i with
  | None => true
  | Some p => bool_decide (is_Some (tbl !! p))
  end.

(** The enum columns [type item_type] and [status item_status]. *)
Definition enum_columns (i : BacklogItem) : bool :=
  isValidItemType (model.Type_ i) && isValidItemStatus (Status i).

(** What a row has to satisfy to be written; [tbl] is the table as it will
    be after the statement (a row may reference itself). *)
Definition row_ok (tbl : gmap UUID BacklogItem) (i : BacklogItem) : bool :=
  enum_columns i
  && backlog_items_title_not_empty i
  && backlog_items_story_points_not_negative i
  && parent_id_fkey tbl i.

(** [Create]: the INSERT. *)
Definition Create (item : BacklogItem) (d : Database)
    : Result unit * Database :=
  match backlog_items d !! model.ID item with
  | Some _ => (Err ErrCreateFailed, d)
  | None =>
      let tbl := <[model.ID item := item]> (backlog_items d) in
      if row_ok tbl item then (Ok tt, mkDatabase tbl (events d))
      else (Err ErrCreateFailed, d)
  end.

(** [GetByID] *)
Definition GetByID (id : UUID) (d : Database) : Result BacklogItem :=
  match backlog_items d !! id with
  | Some i => Ok i
  | None => Err ErrNotFound
  end.

(** [Update]: the UPDATE leaves [created_at] alone, and the trigger
    [update_backlog_items_updated_at] stamps [updated_at] with the time
    of the statement. *)
Definition Update (now : Time) (item : BacklogItem) (d : Database)
    : Result unit * Database :=
  match backlog_items d !! model.ID item with
  | None => (Err ErrNotFound, d)
  | Some old =>
      let row :=
        mkItem (model.ID item) (model.Type_ item) (ParentID item)
               (Title item) (Description item) (StoryPoints item)
               (Status item) (Priority item) (Assignee item) (Tags item)
               (CreatedAt old) now (ExternalIDs item) in
      let tbl := <[model.ID item := row]> (backlog_items d) in
      if row_ok tbl row then (Ok tt, mkDatabase tbl (events d))
      else (Err ErrUpdateFailed, d)
  end.

(** [ON DELETE SET NULL] on [parent_id]. *)
Definition orphan (id : UUID) (i : BacklogItem) : BacklogItem :=
  if bool_decide (ParentID i = Some id) then set_ParentID None i else i.

(** [Delete]: the DELETE, with [ON DELETE SET NULL] on the children and
    [ON DELETE CASCADE] on the item's events. *)
Definition Delete (id : UUID) (d : Database) : Result unit * Database :=
  match backlog_items d !! id with
  | None => (Err ErrNotFound, d)
  | Some _ =>
      (Ok tt,
       mkDatabase (orphan id <$> delete id (backlog_items d))
                  (filter (λ r, item_id r ≠ Some id) (events d)))
  end.

(** [GetChildren]: [WHERE parent_id = $1 ORDER BY priority ASC]. *)
Definition GetChildren (parentID : UUID) (d : Database) : list BacklogItem :=
  sort_by Priority
    (filter (λ i, ParentID i = Some parentID)
            (snd <$> map_to_list (backlog_items d))).

(** [UpdatePriorities]: one UPDATE per entry of the map, in one
    transaction; an id without a row updates nothing. *)
Definition UpdatePriorities (now : Time) (itemPriorities : gmap UUID Z)
    (d : Database) : Database :=
  mkDatabase
    (map_imap (λ id i,
       Some match itemPriorities !! id with
            | Some p => set_UpdatedAt now (set_Priority p i)
            | None => i
            end) (backlog_items d))
    (events d).

(** [json.Marshal] of an event: the embedded [Event] is flattened into the
    object, next to the struct's own fields.  The external ids of an item
    of the service are a map, which is written as an object, empty or
    not. *)
Definition marshal (e : event.DomainEvent) : Payload :=
  match e with
  | event.ItemCreatedEvent b id it
  | event.ItemUpdatedEvent b id it
  | event.ItemDeletedEvent b id it =>
      mkPayload b (Some id) ((λ i, mkItemObject i true) <$> it) None None None
  | event.ItemsReorderedEvent b m =>
      mkPayload b None None (Some m) None None
  | event.ExternalIDSetEvent b id sys ext =>
      mkPayload b (Some id) None None (Some sys) (Some ext)
  end.

(** [fmt.Sprintf("%T", event)] *)
Definition go_type_name (e : event.DomainEvent) : string :=
  match e with
  | event.ItemCreatedEvent _ _ _ => "*event.ItemCreatedEvent"
  | event.ItemUpdatedEvent _ _ _ => "*event.ItemUpdatedEvent"
  | event.ItemDeletedEvent _ _ _ => "*event.ItemDeletedEvent"
  | event.ItemsReorderedEvent _ _ => "*event.ItemsReorderedEvent"
  | event.ExternalIDSetEvent _ _ _ _ => "*event.ExternalIDSetEvent"
  end.

(** [StoreEvent].  The event structs of events.go have fields, not the
    methods [GetID], [GetType], [GetTimestamp] and [GetItemID] that the
    four type assertions ask for, so each assertion takes its fallback: a
    new row id, the Go type name, the current time, and no item id. *)
Definition StoreEvent (rowID : UUID) (now : Time) (e : event.DomainEvent)
    (d : Database) : Database :=
  mkDatabase (backlog_items d)
             (events d ++ [mkRow rowID (go_type_name e) None (marshal e) now]).

(** An event as [GetEventsByItemID] decodes it, and whether the
    [ExternalIDs] of its item is a nil map. *)
Definition Decoded : Type := event.DomainEvent * bool.

(** The item [json.Unmarshal] makes of the member [item], and whether its
    [ExternalIDs] is a nil map. *)
Definition item_of (p : Payload) : option BacklogItem :=
  (λ o, if o_externalIds o then o_item o else set_ExternalIDs ∅ (o_item o))
    <$> p_item p.

Definition nil_ids (p : Payload) : bool :=
  match p_item p with
  | Some o => negb (o_externalIds o)
  | None => false
  end.

(** [json.Unmarshal] of a payload into the struct picked by the
    [event_type] column; an absent field keeps its zero value. *)
Definition decode (r : EventRow) : Result Decoded :=
  let p := payload r in
  let itemId := default uuid_Nil (p_itemId p) in
  if String.eqb (event_type r) event.EventTypeItemCreated
  then Ok (event.ItemCreatedEvent (p_base p) itemId (item_of p), nil_ids p)
  else if String.eqb (event_type r) event.EventTypeItemUpdated
  then Ok (event.ItemUpdatedEvent (p_base p) itemId (item_of p), nil_ids p)
  else if String.eqb (event_type r) event.EventTypeItemDeleted
  then Ok (event.ItemDeletedEvent (p_base p) itemId (item_of p), nil_ids p)
  else if String.eqb (event_type r) event.EventTypeExternalIDSet
  then Ok (event.ExternalIDSetEvent (p_base p) itemId
             (default "" (p_system p)) (default "" (p_externalId p)), false)
  else Err ErrUnknownEventType.

(** The loop over [rows.Next()]: the first row that does not decode ends
    the query with its error. *)
Fixpoint decode_rows (rows : list EventRow) : Result (list Decoded) :=
  match rows with
  | [] => Ok []
  | r :: rows' =>
      match decode r with
      | Err e => Err e
      | Ok ev =>
          match decode_rows rows' with
          | Err e => Err e
          | Ok evs => Ok (ev :: evs)
          end
      end
  end.

(** [GetEventsByItemID]: [WHERE item_id = $1 ORDER BY created_at ASC]. *)
Definition GetEventsByItemID (itemID : UUID) (d : Database)
    : Result (list Decoded) :=
  decode_rows
    (sort_by created_at (filter (λ r, item_id r = Some itemID) (events d))).

(** The first loop of [ReplayEvents]: stop at the first created event and
    take its [Item], nil or not. *)
Fixpoint find_created (evs : list Decoded) : option (BacklogItem * bool) :=
  match evs with
  | [] => None
  | (event.ItemCreatedEvent _ _ it, nilIDs) :: _ => (λ i, (i, nilIDs)) <$> it
  | _ :: evs' => find_created evs'
  end.

(** One turn of the second loop, on the item and whether its [ExternalIDs]
    is a nil map: [*item = *evt.Item] for an update, which copies the map
    of the event's item, nil or not; [item.SetExternalID] for an external
    id, which panics on a nil map; nothing for the rest. *)
Definition apply_event (now : Time) (item : Result (BacklogItem * bool))
    (e : Decoded) : Result (BacklogItem * bool) :=
  match item with
  | Err err => Err err
  | Ok (i, nilIDs) =>
      match e with
      | (event.ItemUpdatedEvent _ _ (Some i'), nilIDs') => Ok (i', nilIDs')
      | (event.ItemUpdatedEvent _ _ None, _) => Err PanicNilDereference
      | (event.ExternalIDSetEvent _ _ sys ext, _) =>
          if nilIDs then Err PanicNilMap
          else Ok (SetExternalID now sys ext i, false)
      | _ => Ok (i, nilIDs)
      end
  end.

(** [ReplayEvents] *)
Definition ReplayEvents (now : Time) (itemID : UUID) (d : Database)
    : Result BacklogItem :=
  match GetEventsByItemID itemID d with
  | Err e => Err e
  | Ok evs =>
      if bool_decide (length evs = 0%nat) then Err ErrNoEvents
      else match find_created evs with
           | None => Err ErrNoCreatedEvent
           | Some item =>
               match foldl (apply_event now) (Ok item) evs with
               | Ok (i, _) => Ok i
               | Err e => Err e
               end
           end
  end.

End db.

(** ** The domain service (backlog_service.go) *)

Module service.
Import model.

(** [id.String()]: 32 lower-case hexadecimal digits in groups of
    8-4-4-4-12. *)
Definition hex_digit (n : N) : ascii :=
  nth (N.to_nat n) (list_ascii_of_string "0123456789abcdef") "0"%char.

Fixpoint hex_digits (k : nat) (n : N) : list ascii :=
  match k with
  | O => []
  | S k' => hex_digits k' (n / 16)%N ++ [hex_digit (n mod 16)%N]
  end.

Definition uuid_String (id : UUID) : string :=
  let d := hex_digits 32 id in
  string_of_list_ascii
    (take 8 d ++ "-"%char :: take 4 (drop 8 d) ++ "-"%char ::
     take 4 (drop 12 d) ++ "-"%char :: take 4 (drop 16 d) ++ "-"%char ::
     drop 20 d).

(** What the service hands to [cache.Set] and Redis holds, as JSON text,
    under a key: an item, a list of children, a list result, or any other
    value ([CachedOther]). *)
Inductive CacheValue :=
| CachedItem (item : BacklogItem)
| CachedChildren (children : list BacklogItem)
| CachedListResult (items : list BacklogItem) (totalCount : Z)
| CachedOther.

(** The [interface{}] that [cache.Get] returns, by its dynamic type.  The
    readers of the service assert [*model.BacklogItem],
    [[]*model.BacklogItem] and [*listCacheResult].  [RedisAdapter.Get], the
    cache provider of the repository, unmarshals the stored text into an
    [interface{}], which gives a [map[string]interface{}], a
    [[]interface{}], a number, a string, a boolean or nil, whatever the
    text was written from: [Unmarshalled]. *)
Inductive Dynamic :=
| DynItem (item : BacklogItem)
| DynChildren (children : list BacklogItem)
| DynListResult (items : list BacklogItem) (totalCount : Z)
| Unmarshalled (v : CacheValue).

(** Everything the service acts on: the relational store, the cache, the
    messages handed to the bus (topic and event, oldest first) and the
    lines of the error log. *)
Record World := mkWorld {
  store : db.Database;
  cache : gmap string CacheValue;
  published : list (string * event.DomainEvent);
  logged : list string
}.

(** What one call draws from its environment: the clock, the fresh UUIDs
    of the item, of the event and of the event's row, and whether the
    event store and the bus fail this time. *)
Record Env := mkEnv {
  now : Time;
  itemUUID : UUID;
  eventUUID : UUID;
  rowUUID : UUID;
  storeEventFails : bool;
  publishFails : bool
}.

(** Operations thread the world and stop at the first error; what was
    written before the error stays written. *)
Definition M (A : Type) : Type := World → Result A * World.

#[global] Instance M_ret : MRet M := λ A a w, (Ok a, w).
#[global] Instance M_bind : MBind M := λ A B f m w,
  match m w with
  | (Ok a, w') => f a w'
  | (Err e, w') => (Err e, w')
  end.

Definition fail {A} (e : Error) : M A := λ w, (Err e, w).

Definition lift {A} (r : Result A) : M A := λ w, (r, w).

(** The ports. *)

Definition repo_GetByID (id : UUID) : M BacklogItem :=
  λ w, (db.GetByID id (store w), w).

Definition repo_GetChildren (id : UUID) : M (list BacklogItem) :=
  λ w, (Ok (db.GetChildren id (store w)), w).

Definition with_store (w : World) (d : db.Database) : World :=
  mkWorld d (cache w) (published w) (logged w).

Definition repo_Create (item : BacklogItem) : M unit :=
  λ w, let (r, d) := db.Create item (store w) in (r, with_store w d).

Definition repo_Update (env : Env) (item : BacklogItem) : M unit :=
  λ w, let (r, d) := db.Update (now env) item (store w) in (r, with_store w d).

Definition repo_Delete (id : UUID) : M unit :=
  λ w, let (r, d) := db.Delete id (store w) in (r, with_store w d).

Definition repo_UpdatePriorities (env : Env) (itemPriorities : gmap UUID Z)
    : M unit :=
  λ w, (Ok tt, with_store w (db.UpdatePriorities (now env) itemPriorities (store w))).

(** [eventRepo.StoreEvent] and [eventPublisher.Publish] hand their error
    back as a value, nil being [None]. *)
Definition eventRepo_StoreEvent (env : Env) (e : event.DomainEvent)
    : M (option Error) :=
  λ w, if storeEventFails env then (Ok (Some ErrStoreEvent), w)
       else (Ok None,
             with_store w (db.StoreEvent (rowUUID env) (now env) e (store w))).

Definition eventPublisher_Publish (env : Env) (topic : string)
    (e : event.DomainEvent) : M (option Error) :=
  λ w, if publishFails env then (Ok (Some ErrPublish), w)
       else (Ok None,
             mkWorld (store w) (cache w) (published w ++ [(topic, e)]) (logged w)).

Definition logger_Error (msg : string) : M unit :=
  λ w, (Ok tt, mkWorld (store w) (cache w) (published w) (logged w ++ [msg])).

(** [RedisAdapter.Get]: nil for a key that does not exist, and the
    unmarshalled text for one that does. *)
Definition cache_Get (key : string) : M (option Dynamic) :=
  λ w, (Ok (Unmarshalled <$> cache w !! key), w).

Definition cache_Set (key : string) (v : CacheValue) : M unit :=
  λ w, (Ok tt, mkWorld (store w) (<[key := v]> (cache w)) (published w) (logged w)).

Definition cache_Delete (key : string) : M unit :=
  λ w, (Ok tt, mkWorld (store w) (delete key (cache w)) (published w) (logged w)).

(** [if err != nil { s.logger.Error(msg, ...) }] *)
Definition log_if_error (err : option Error) (msg : string) : M unit :=
  match err with
  | Some _ => logger_Error msg
  | None => mret tt
  end.

(** Request types. *)

Module CreateItemRequest.
Record t := mk {
  Type_ : ItemType;
  Title : string;
  Description : string;
  ParentID : option UUID;
  StoryPoints : Z;
  Tags : list string;
  Assignee : string
}.
End CreateItemRequest.

Module UpdateItemRequest.
Record t := mk {
  Title : option string;
  Description : option string;
  Status : option ItemStatus;
  ParentID : option UUID;
  StoryPoints : option Z;
  Priority : option Z;
  Assignee : option string;
  Tags : option (list string)
}.
End UpdateItemRequest.

Module ReorderRequest.
Record t := mk {
  ItemID : UUID;
  NewPriority : Z
}.
End ReorderRequest.

(** Helper functions. *)

Definition isValidParentChild (parentType childType : ItemType) : bool :=
  if String.eqb parentType ItemTypeEpic && String.eqb childType ItemTypeFeature
  then true
  else if String.eqb parentType ItemTypeFeature
          && String.eqb childType ItemTypeStory
  then true
  else false.

Definition invalidateListCache : M unit :=
  cache_Delete "list:all";;
  cache_Delete "metrics".

Definition item_key (id : UUID) : string := "item:" +:+ uuid_String id.

(** [for _, tag := range tags { item.AddTag(tag) }] *)
Definition add_tags (now : Time) (tags : list string) (item : BacklogItem)
    : BacklogItem :=
  foldl (λ i tag, AddTag now tag i) item tags.

(** [CreateItem] *)
Definition CreateItem (env : Env) (req : CreateItemRequest.t)
    : M BacklogItem :=
  item ← lift (NewBacklogItem (now env) (itemUUID env)
                 (CreateItemRequest.Type_ req) (CreateItemRequest.Title req)
                 (CreateItemRequest.Description req));
  item ← match CreateItemRequest.ParentID req with
         | Some parentID =>
             item ← lift (UpdateParent (now env) (Some parentID) item);
             parent ← repo_GetByID parentID;
             if negb (isValidParentChild (model.Type_ parent)
                        (CreateItemRequest.Type_ req))
             then fail ErrInvalidRelationship
             else mret item
         | None => mret item
         end;
  item ← (if (CreateItemRequest.StoryPoints req >? 0)%Z
          then lift (UpdateStoryPoints (now env)
                       (CreateItemRequest.StoryPoints req) item)
          else mret item);
  let item := add_tags (now env) (CreateItemRequest.Tags req) item in
  repo_Create item;;
  let createEvent :=
    event.NewItemCreatedEvent (eventUUID env) (now env) (model.ID item) item in
  err ← eventRepo_StoreEvent env createEvent;
  log_if_error err "Failed to store item created event";;
  err ← eventPublisher_Publish env "backlog.item.created" createEvent;
  log_if_error err "Failed to publish item created event";;
  invalidateListCache;;
  mret item.

(** [GetItem] *)
Definition GetItem (id : UUID) : M BacklogItem :=
  let cacheKey := item_key id in
  cachedItem ← cache_Get cacheKey;
  match cachedItem with
  | Some (DynItem item) => mret item
  | _ =>
      item ← repo_GetByID id;
      cache_Set cacheKey (CachedItem item);;
      mret item
  end.

(** [if field != nil { ... }] for a step that can fail, and for one that
    cannot. *)
Definition if_set {A} (field : option A) (f : A → BacklogItem → M BacklogItem)
    (item : BacklogItem) : M BacklogItem :=
  match field with
  | Some v => f v item
  | None => mret item
  end.

(** [UpdateItem] *)
Definition UpdateItem (env : Env) (id : UUID) (req : UpdateItemRequest.t)
    : M BacklogItem :=
  item ← repo_GetByID id;
  item ← if_set (UpdateItemRequest.Title req)
           (λ v i, lift (UpdateTitle (now env) v i)) item;
  item ← if_set (UpdateItemRequest.Description req)
           (λ v i, mret (UpdateDescription (now env) v i)) item;
  item ← if_set (UpdateItemRequest.Status req)
           (λ v i, lift (UpdateStatus (now env) v i)) item;
  item ← if_set (UpdateItemRequest.StoryPoints req)
           (λ v i, lift (UpdateStoryPoints (now env) v i)) item;
  item ← if_set (UpdateItemRequest.Priority req)
           (λ v i, mret (UpdatePriority (now env) v i)) item;
  item ← if_set (UpdateItemRequest.ParentID req)
           (λ parentID i,
              (if bool_decide (parentID ≠ uuid_Nil)
               then parent ← repo_GetByID parentID;
                    if negb (isValidParentChild (model.Type_ parent)
                               (model.Type_ i))
                    then fail ErrInvalidRelationship
                    else mret tt
               else mret tt);;
              lift (UpdateParent (now env) (Some parentID) i)) item;
  item ← if_set (UpdateItemRequest.Assignee req)
           (λ v i, mret (set_Assignee v i)) item;
  item ← if_set (UpdateItemRequest.Tags req)
           (λ tags i, mret (add_tags (now env) tags (set_Tags [] i))) item;
  repo_Update env item;;
  let updateEvent :=
    event.NewItemUpdatedEvent (eventUUID env) (now env) (model.ID item) item in
  err ← eventRepo_StoreEvent env updateEvent;
  log_if_error err "Failed to store item updated event";;
  err ← eventPublisher_Publish env "backlog.item.updated" updateEvent;
  log_if_error err "Failed to publish item updated event";;
  cache_Delete (item_key id);;
  invalidateListCache;;
  mret item.

(** [DeleteItem] *)
Definition DeleteItem (env : Env) (id : UUID) : M unit :=
  item ← repo_GetByID id;
  children ← repo_GetChildren id;
  if (0 <? length children)%nat then (fail ErrHasChildren : M unit)
  else
    repo_Delete id;;
    let deleteEvent :=
      event.NewItemDeletedEvent (eventUUID env) (now env) (model.ID item) item in
    err ← eventRepo_StoreEvent env deleteEvent;
    log_if_error err "Failed to store item deleted event";;
    err ← eventPublisher_Publish env "backlog.item.deleted" deleteEvent;
    log_if_error err "Failed to publish item deleted event";;
    cache_Delete (item_key id);;
    invalidateListCache.

(** [ReorderItems] *)
Definition ReorderItems (env : Env) (reorderRequests : list ReorderRequest.t)
    : M unit :=
  if (length reorderRequests =? 0)%nat then (mret tt : M unit)
  else
    let itemPriorities : gmap UUID Z :=
      foldl (λ m req, <[ReorderRequest.ItemID req :=
                          ReorderRequest.NewPriority req]> m)
            ∅ reorderRequests in
    repo_UpdatePriorities env itemPriorities;;
    let reorderEvent :=
      event.NewItemsReorderedEvent (eventUUID env) (now env) itemPriorities in
    err ← eventRepo_StoreEvent env reorderEvent;
    log_if_error err "Failed to store items reordered event";;
    err ← eventPublisher_Publish env "backlog.items.reordered" reorderEvent;
    log_if_error err "Failed to publish items reordered event";;
    invalidateListCache.

(** [SetExternalID] *)
Definition SetExternalID (env : Env) (id : UUID) (system externalID : string)
    : M unit :=
  item ← repo_GetByID id;
  let item := model.SetExternalID (now env) system externalID item in
  repo_Update env item;;
  let externalIDEvent :=
    event.NewExternalIDSetEvent (eventUUID env) (now env) (model.ID item)
                                system externalID in
  err ← eventRepo_StoreEvent env externalIDEvent;
  log_if_error err "Failed to store external ID event";;
  err ← eventPublisher_Publish env "backlog.item.external_id.set" externalIDEvent;
  log_if_error err "Failed to publish external ID event";;
  cache_Delete (item_key id).

(** [BacklogFilter] (repository.go) *)
Module BacklogFilter.
Record t := mk {
  Types : list ItemType;
  Statuses : list ItemStatus;
  Tags : list string;
  ParentID : option UUID;
  Assignee : string;
  SearchQuery : string;
  Limit : Z;
  Offset : Z;
  SortBy : string;
  SortOrder : string
}.
End BacklogFilter.

Definition buildListCacheKey (filter : BacklogFilter.t) : string := "list:all".

Definition children_key (parentID : UUID) : string :=
  "children:" +:+ uuid_String parentID.

(** [ListItems].  The service reaches the store through the repository
    port; [repo_List] is that port's [List], the query it runs on the
    store. *)
Definition ListItems
    (repo_List : BacklogFilter.t → db.Database
                 → Result (list BacklogItem * Z))
    (filter : BacklogFilter.t) : M (list BacklogItem * Z) :=
  cached ← (if String.eqb (BacklogFilter.SearchQuery filter) ""
            then cache_Get (buildListCacheKey filter)
            else mret None);
  match cached with
  | Some (DynListResult items totalCount) => mret (items, totalCount)
  | _ =>
      result ← (λ w, (repo_List filter (store w), w));
      (if String.eqb (BacklogFilter.SearchQuery filter) ""
       then cache_Set (buildListCacheKey filter)
              (CachedListResult (fst result) (snd result))
       else mret tt);;
      mret result
  end.

(** [GetChildren] *)
Definition GetChildren (parentID : UUID) : M (list BacklogItem) :=
  let cacheKey := children_key parentID in
  cachedResult ← cache_Get cacheKey;
  match cachedResult with
  | Some (DynChildren children) => mret children
  | _ =>
      children ← repo_GetChildren parentID;
      cache_Set cacheKey (CachedChildren children);;
      mret children
  end.

(** *** Metrics helpers *)

(** Go's [int] is 64 bits wide and its addition wraps. *)
Definition wrap_int (z : Z) : Z :=
  ((z + 2 ^ 63) mod 2 ^ 64 - 2 ^ 63)%Z.

(** [float64(n)] for an [int]: the nearest binary64 value. *)
Definition float64_of_int (z : Z) : float :=
  if (z =? - 2 ^ 63)%Z then (-0x1p63)%float
  else if (z <? 0)%Z
       then PrimFloat.opp (PrimFloat.of_uint63 (Uint63.of_Z (- z)))
       else PrimFloat.of_uint63 (Uint63.of_Z z).

(** [sizeCounts[t]]: a missing key reads as zero. *)
Definition count_of (sizeCounts : gmap ItemType Z) (t : ItemType) : Z :=
  default 0%Z (sizeCounts !! t).

(** The sum both metrics start from. *)
Definition total_of (sizeCounts : gmap ItemType Z) : Z :=
  wrap_int (wrap_int (count_of sizeCounts ItemTypeEpic
                      + count_of sizeCounts ItemTypeFeature)
            + count_of sizeCounts ItemTypeStory).

Definition abs (x : float) : float :=
  if PrimFloat.ltb x 0%float then PrimFloat.opp x else x.

#[local] Set Warnings "-inexact-float".

(** [calculateIcebergRatio] *)
Definition calculateIcebergRatio (sizeCounts : gmap ItemType Z) : float :=
  let total := total_of sizeCounts in
  if (total =? 0)%Z then 0%float
  else
    let epicRatio :=
      (float64_of_int (count_of sizeCounts ItemTypeEpic)
       / float64_of_int total)%float in
    let featureRatio :=
      (float64_of_int (count_of sizeCounts ItemTypeFeature)
       / float64_of_int total)%float in
    let storyRatio :=
      (float64_of_int (count_of sizeCounts ItemTypeStory)
       / float64_of_int total)%float in
    let deviation :=
      (abs (epicRatio - 0.33) + abs (featureRatio - 0.33)
       + abs (storyRatio - 0.33))%float in
    (1.0 - deviation / 2.0)%float.

#[local] Set Warnings "inexact-float".

(** [determineHealthStatus]; [x > y] on float64 is [y <? x], false as soon
    as one side is NaN. *)
Definition determineHealthStatus (sizeCounts : gmap ItemType Z)
    (wipCount : Z) (leadTime : float) : string :=
  let totalItems := total_of sizeCounts in
  if (totalItems >? 150)%Z then "AT_RISK"
  else if (wipCount >? 20)%Z || (60 <? leadTime)%float then "WARNING"
  else if (totalItems <=? 100)%Z && (wipCount <=? 10)%Z
          && (leadTime <=? 30)%float
  then "HEALTHY"
  else "AVERAGE".

End service.

(** ** The gRPC conversions (server.go) *)

Module grpc.
Import model.

(** [convertToItemType]: the type, or nothing where the source returns an
    error. *)
Definition convertToItemType (typeStr : string) : option ItemType :=
  if String.eqb typeStr "EPIC" then Some ItemTypeEpic
  else if String.eqb typeStr "FEATURE" then Some ItemTypeFeature
  else if String.eqb typeStr "STORY" then Some ItemTypeStory
  else None.

Definition convertToItemStatus (statusStr : string) : option ItemStatus :=
  if String.eqb statusStr "NEW" then Some ItemStatusNew
  else if String.eqb statusStr "READY" then Some ItemStatusReady
  else if String.eqb statusStr "IN_PROGRESS" then Some ItemStatusInProgress
  else if String.eqb statusStr "DONE" then Some ItemStatusDone
  else if String.eqb statusStr "BLOCKED" then Some ItemStatusBlocked
  else None.

End grpc.

(** ** The cache adapter's key namespace (redis.go) *)

Module redis.

Definition keyPrefix : string := "ubmm:backlog:".

Definition prefixKey (key : string) : string := keyPrefix +:+ key.

(** [key[len(keyPrefix):]]; a key shorter than the prefix makes the slice
    expression panic, which is [None]. *)
Definition unprefixKey (key : string) : option string :=
  if (String.length key <? String.length keyPrefix)%nat then None
  else Some (String.substring (String.length keyPrefix)
               (String.length key - String.length keyPrefix) key).

End redis.

(** * Properties *)

Import model service.

(** ** What a successful operation leaves *)

(** The world after the four steps every mutation ends its write with:
    store the event, log a failure, publish the event, log a failure. *)
Definition notified (env : Env) (e : event.DomainEvent)
    (topic msgStore msgPublish : string) (w : World) : World :=
  let w1 :=
    if storeEventFails env
    then mkWorld (store w) (cache w) (published w) (logged w ++ [msgStore])
    else with_store w (db.StoreEvent (rowUUID env) (now env) e (store w)) in
  if publishFails env
  then mkWorld (store w1) (cache w1) (published w1) (logged w1 ++ [msgPublish])
  else mkWorld (store w1) (cache w1) (published w1 ++ [(topic, e)]) (logged w1).

(** The item [CreateItem] has built when it reaches the INSERT. *)
Definition built_item (env : Env) (req : CreateItemRequest.t) : BacklogItem :=
  add_tags (now env) (CreateItemRequest.Tags req)
    (mkItem (itemUUID env) (CreateItemRequest.Type_ req)
            (CreateItemRequest.ParentID req) (CreateItemRequest.Title req)
            (CreateItemRequest.Description req)
            (if (CreateItemRequest.StoryPoints req >? 0)%Z
             then CreateItemRequest.StoryPoints req else 0%Z)
            ItemStatusNew 0%Z "" [] (now env) (now env) ∅).

(** The world a successful [CreateItem] leaves. *)
Definition created_world (env : Env) (item : BacklogItem) (w : World)
    : World :=
  let w1 :=
    notified env
      (event.NewItemCreatedEvent (eventUUID env) (now env) (ID item) item)
      "backlog.item.created" "Failed to store item created event"
      "Failed to publish item created event"
      (with_store w
         (db.mkDatabase (<[ID item := item]> (db.backlog_items (store w)))
                        (db.events (store w)))) in
  mkWorld (store w1) (delete "metrics" (delete "list:all" (cache w1)))
          (published w1) (logged w1).

(** What the parent of a request has to be for [CreateItem] to go on. *)
Definition parent_accepted (req : CreateItemRequest.t) (w : World) : Prop :=
  match CreateItemRequest.ParentID req with
  | None => True
  | Some parentID =>
      CreateItemRequest.Type_ req ≠ ItemTypeEpic
      ∧ ∃ parent, db.backlog_items (store w) !! parentID = Some parent
                  ∧ isValidParentChild (Type_ parent)
                      (CreateItemRequest.Type_ req) = true
  end.

(** ** Steps that do not write *)

(** A step that leaves the world as it found it, whatever it returns. *)
Definition readonly {A} (m : M A) : Prop :=
  ∀ w r w', m w = (r, w') → w' = w.

(** [m] fails at [w] with an error in [P], and writes nothing. *)
Definition fails_within (P : Error → Prop) {A} (m : M A) (w : World) : Prop :=
  ∃ e, m w = (Err e, w) ∧ P e.

(** The world a successful [UpdateItem] leaves, [d] being the store after
    the UPDATE. *)
Definition updated_world (env : Env) (id : UUID) (item : BacklogItem)
    (d : db.Database) (w : World) : World :=
  let w1 :=
    notified env
      (event.NewItemUpdatedEvent (eventUUID env) (now env) (ID item) item)
      "backlog.item.updated" "Failed to store item updated event"
      "Failed to publish item updated event" (with_store w d) in
  mkWorld (store w1)
          (delete "metrics" (delete "list:all" (delete (item_key id) (cache w1))))
          (published w1) (logged w1).

(** [itemPriorities] as [ReorderItems] builds it. *)
Definition priorities_of (reorderRequests : list ReorderRequest.t)
    : gmap UUID Z :=
  foldl (λ m req, <[ReorderRequest.ItemID req :=
                      ReorderRequest.NewPriority req]> m)
        ∅ reorderRequests.

(** ** Mutations and the cache keys they delete *)

(** The five mutating operations, as one type. *)
Inductive Mutation :=
| MCreateItem (req : CreateItemRequest.t)
| MUpdateItem (id : UUID) (req : UpdateItemRequest.t)
| MDeleteItem (id : UUID)
| MReorderItems (reorderRequests : list ReorderRequest.t)
| MSetExternalID (id : UUID) (system externalID : string).

Definition run_mutation (env : Env) (m : Mutation) : M unit :=
  match m with
  | MCreateItem req => CreateItem env req;; mret tt
  | MUpdateItem id req => UpdateItem env id req;; mret tt
  | MDeleteItem id => DeleteItem env id
  | MReorderItems reorderRequests => ReorderItems env reorderRequests
  | MSetExternalID id system externalID =>
      service.SetExternalID env id system externalID
  end.

(** The keys the specification has every mutation delete: [metrics] and
    [list:all], and [item:<id>] for an operation on one stored item. *)
Definition keys_to_invalidate (m : Mutation) : list string :=
  match m with
  | MCreateItem _ | MReorderItems _ => ["list:all"; "metrics"]
  | MUpdateItem id _ | MDeleteItem id | MSetExternalID id _ _ =>
      [item_key id; "list:all"; "metrics"]
  end.

(** The keys the code deletes, in the order it deletes them. *)
Definition invalidated (m : Mutation) : list string :=
  match m with
  | MCreateItem _ => ["list:all"; "metrics"]
  | MUpdateItem id _ | MDeleteItem id => [item_key id; "list:all"; "metrics"]
  | MReorderItems [] => []
  | MReorderItems (_ :: _) => ["list:all"; "metrics"]
  | MSetExternalID id _ _ => [item_key id]
  end.

Definition delete_keys (keys : list string) (c : gmap string CacheValue)
    : gmap string CacheValue :=
  foldl (λ c k, delete k c) c keys.

(** ** Well-formed stores, error classes, white space *)

(** Every row of the store sits under its own id. *)
Definition keyed (w : World) : Prop :=
  ∀ k i, db.backlog_items (store w) !! k = Some i → ID i = k.

(** A request with another assignee. *)
Definition with_Assignee (assignee : string) (req : CreateItemRequest.t)
    : CreateItemRequest.t :=
  CreateItemRequest.mk
    (CreateItemRequest.Type_ req) (CreateItemRequest.Title req)
    (CreateItemRequest.Description req) (CreateItemRequest.ParentID req)
    (CreateItemRequest.StoryPoints req) (CreateItemRequest.Tags req) assignee.

(** The errors the specification calls ValidationError: empty title,
    invalid type or status, negative story points. *)
Definition is_ValidationError (e : Error) : bool :=
  match e with
  | ErrTitleEmpty | ErrInvalidItemType | ErrInvalidItemStatus
  | ErrNegativeStoryPoints => true
  | _ => false
  end.

(** White space: space, tab, line feed, vertical tab, form feed, carriage
    return. *)
Definition is_space (c : ascii) : bool :=
  let n := nat_of_ascii c in
  (n =? 32)%nat || ((9 <=? n)%nat && (n <=? 13)%nat).

Fixpoint trim_left (s : list ascii) : list ascii :=
  match s with
  | c :: s' => if is_space c then trim_left s' else s
  | [] => []
  end.

(** The title "after trimming whitespace". *)
Definition trim_whitespace (s : string) : string :=
  string_of_list_ascii
    (rev (trim_left (rev (trim_left (list_ascii_of_string s))))).

(** The iceberg ratio as the specification words it: one minus half the
    sum of the distances of the three shares from one third, clamped to
    the interval from 0 to 1. *)
Definition iceberg_ratio_as_specified (sizeCounts : gmap ItemType Z) : float :=
  let total := float64_of_int (total_of sizeCounts) in
  let share t := (float64_of_int (count_of sizeCounts t) / total)%float in
  let third := (1 / 3)%float in
  let deviation :=
    (abs (share ItemTypeEpic - third) + abs (share ItemTypeFeature - third)
     + abs (share ItemTypeStory - third))%float in
  let ratio := (1 - deviation / 2)%float in
  if (ratio <? 0)%float then 0%float
  else if (1 <? ratio)%float then 1%float
  else ratio.

(** ** Sample data *)

(** Thirty active items, ten of each type. *)
Definition ten_of_each : gmap ItemType Z :=
  {[ ItemTypeEpic := 10%Z; ItemTypeFeature := 10%Z; ItemTypeStory := 10%Z ]}.

(** A call with working event store and bus. *)
Definition env0 : Env := mkEnv 1000%Z 20%N 21%N 22%N false false.

(** Nothing stored, nothing cached. *)
Definition empty_world : World := mkWorld (db.mkDatabase ∅ []) ∅ [] [].

Definition stored_epic : BacklogItem :=
  mkItem 1%N ItemTypeEpic None "Platform" "" 0%Z ItemStatusNew 0%Z "" []
         900%Z 900%Z ∅.

Definition stored_story : BacklogItem :=
  mkItem 5%N ItemTypeStory None "Login form" "" 3%Z ItemStatusNew 0%Z "" []
         900%Z 900%Z ∅.

Definition stored_feature : BacklogItem :=
  mkItem 7%N ItemTypeFeature (Some 1%N) "Sign-in" "" 0%Z ItemStatusNew 0%Z ""
         [] 900%Z 900%Z ∅.

(** A store with an epic, a feature under it and a lone story, and a cache
    that holds the metrics and the coarse list. *)
Definition warm_world : World :=
  mkWorld
    (db.mkDatabase
       {[ 1%N := stored_epic; 5%N := stored_story; 7%N := stored_feature ]} [])
    {[ "metrics" := CachedOther; "list:all" := CachedOther ]} [] [].

(** A story asked for with minus five story points. *)
Definition negative_points_request : CreateItemRequest.t :=
  CreateItemRequest.mk ItemTypeStory "Checkout" "" None (-5)%Z [] "".

(** A story whose title is one tab character. *)
Definition tab_title : string := String "009"%char "".

Definition tab_title_request : CreateItemRequest.t :=
  CreateItemRequest.mk ItemTypeStory tab_title "" None 0%Z [] "".

Definition retitle (title : string) : UpdateItemRequest.t :=
  UpdateItemRequest.mk (Some title) None None None None None None None.

Definition epic_request : CreateItemRequest.t :=
  CreateItemRequest.mk ItemTypeEpic "Payments" "" None 0%Z [] "".

Definition feature_request (parentID : UUID) : CreateItemRequest.t :=
  CreateItemRequest.mk ItemTypeFeature "Refunds" "" (Some parentID) 0%Z [] "".

Definition assigned_request : CreateItemRequest.t :=
  CreateItemRequest.mk ItemTypeStory "Refund form" "" None 2%Z [] "alice".

Definition assign_bob : UpdateItemRequest.t :=
  UpdateItemRequest.mk None None None None None None (Some "bob") None.

(** Three snapshots of story 9.  The first update sets an assignee and a
    tag; the second carries neither. *)
Definition snapshot0 : BacklogItem :=
  mkItem 9%N ItemTypeStory None "Draft" "" 1%Z ItemStatusNew 0%Z "" []
         100%Z 100%Z ∅.

Definition snapshot1 : BacklogItem :=
  mkItem 9%N ItemTypeStory None "Draft" "" 1%Z ItemStatusReady 0%Z "alice"
         ["ui"] 100%Z 200%Z ∅.

Definition snapshot2 : BacklogItem :=
  mkItem 9%N ItemTypeStory None "Final" "" 5%Z ItemStatusInProgress 2%Z "" []
         100%Z 300%Z ∅.

(** A story asked for as a draft. *)
Definition draft_request : CreateItemRequest.t :=
  CreateItemRequest.mk ItemTypeStory "Draft" "" None 1%Z [] "".

Definition log_row (rowID : UUID) (eventType : string) (itemID : UUID)
    (item : BacklogItem) (createdAt : Time) : db.EventRow :=
  db.mkRow rowID eventType (Some itemID)
    (db.mkPayload (event.mkEvent rowID eventType createdAt 1%Z)
                  (Some itemID) (Some (db.mkItemObject item true))
                  None None None)
    createdAt.

(** An event table that holds the three rows of story 9 out of order, next
    to a row of another item. *)
Definition sample_log : db.Database :=
  db.mkDatabase ∅
    [ log_row 31%N event.EventTypeItemUpdated 9%N snapshot2 300%Z;
      log_row 32%N event.EventTypeItemCreated 1%N stored_epic 90%Z;
      log_row 33%N event.EventTypeItemCreated 9%N snapshot0 100%Z;
      log_row 34%N event.EventTypeItemUpdated 9%N snapshot1 200%Z ].

(** ** Further notions: failure without writing, worlds that agree *)

(** A step that, when it fails, has written nothing. *)
Definition atomic {A} (m : M A) : Prop :=
  ∀ w e w', m w = (Err e, w') → w' = w.

(** Two worlds with the same items and the same cache; the event table,
    the bus and the log may differ. *)
Definition agree (w w' : World) : Prop :=
  db.backlog_items (store w) = db.backlog_items (store w')
  ∧ cache w = cache w'.

(** Two steps that, from worlds that agree, return the same and leave
    worlds that agree. *)
Definition alike {A} (m m' : M A) : Prop :=
  ∀ w w', agree w w' →
    fst (m w) = fst (m' w') ∧ agree (snd (m w)) (snd (m' w')).

(** The same call with other fortunes for the event store and the bus. *)
Definition with_failures (storeFails publishFails : bool) (env : Env) : Env :=
  mkEnv (now env) (itemUUID env) (eventUUID env) (rowUUID env)
        storeFails publishFails.

(** ** Further notions: the worlds the other mutations leave *)

(** The world a successful [DeleteItem] leaves. *)
Definition deleted_world (env : Env) (id : UUID) (item : BacklogItem)
    (w : World) : World :=
  let w1 :=
    notified env
      (event.NewItemDeletedEvent (eventUUID env) (now env) (ID item) item)
      "backlog.item.deleted" "Failed to store item deleted event"
      "Failed to publish item deleted event"
      (with_store w
         (db.mkDatabase
            (db.orphan id <$> delete id (db.backlog_items (store w)))
            (filter (λ r, db.item_id r ≠ Some id) (db.events (store w))))) in
  mkWorld (store w1)
          (delete "metrics" (delete "list:all" (delete (item_key id) (cache w1))))
          (published w1) (logged w1).

(** The world a successful [SetExternalID] leaves, [d] being the store
    after the UPDATE. *)
Definition linked_world (env : Env) (id : UUID) (item : BacklogItem)
    (system externalID : string) (d : db.Database) (w : World) : World :=
  let w1 :=
    notified env
      (event.NewExternalIDSetEvent (eventUUID env) (now env) (ID item)
         system externalID)
      "backlog.item.external_id.set" "Failed to store external ID event"
      "Failed to publish external ID event" (with_store w d) in
  mkWorld (store w1) (delete (item_key id) (cache w1))
          (published w1) (logged w1).

(** The world [ReorderItems] leaves for at least one request. *)
Definition reordered_world (env : Env)
    (reorderRequests : list ReorderRequest.t) (w : World) : World :=
  let w1 :=
    notified env
      (event.NewItemsReorderedEvent (eventUUID env) (now env)
         (priorities_of reorderRequests))
      "backlog.items.reordered" "Failed to store items reordered event"
      "Failed to publish items reordered event"
      (with_store w
         (db.UpdatePriorities (now env) (priorities_of reorderRequests)
            (store w))) in
  mkWorld (store w1) (delete "metrics" (delete "list:all" (cache w1)))
          (published w1) (logged w1).

(** The topic a mutation publishes on, and the kind of its event. *)
Definition topic_of (m : Mutation) : string :=
  match m with
  | MCreateItem _ => "backlog.item.created"
  | MUpdateItem _ _ => "backlog.item.updated"
  | MDeleteItem _ => "backlog.item.deleted"
  | MReorderItems _ => "backlog.items.reordered"
  | MSetExternalID _ _ _ => "backlog.item.external_id.set"
  end.

Definition kind_of (m : Mutation) : event.EventType :=
  match m with
  | MCreateItem _ => event.EventTypeItemCreated
  | MUpdateItem _ _ => event.EventTypeItemUpdated
  | MDeleteItem _ => event.EventTypeItemDeleted
  | MReorderItems _ => event.EventTypeItemsReordered
  | MSetExternalID _ _ _ => event.EventTypeExternalIDSet
  end.

Definition base_of (e : event.DomainEvent) : event.Event :=
  match e with
  | event.ItemCreatedEvent b _ _ | event.ItemUpdatedEvent b _ _
  | event.ItemDeletedEvent b _ _ | event.ItemsReorderedEvent b _
  | event.ExternalIDSetEvent b _ _ _ => b
  end.

(** [ReorderItems] of no request returns at once. *)
Definition returns_at_once (m : Mutation) : bool :=
  match m with
  | MReorderItems [] => true
  | _ => false
  end.

(** The event a successful mutation has made, if it has made one. *)
Definition event_made (m : Mutation) (e : event.DomainEvent) (env : Env)
    : Prop :=
  event.Type_ (base_of e) = kind_of m
  ∧ event.ID (base_of e) = eventUUID env
  ∧ event.Timestamp (base_of e) = now env.

(** The mutation deletes the item with this id. *)
Definition erases (m : Mutation) (id : UUID) : bool :=
  match m with
  | MDeleteItem id' => bool_decide (id' = id)
  | _ => false
  end.

(** ** Further notions: kinds of events in a replay *)

(** The external ids that a list of events sets, in order. *)
Definition external_ids (evs : list db.Decoded) : list (string * string) :=
  omap (λ e, match fst e with
             | event.ExternalIDSetEvent _ _ system externalID =>
                 Some (system, externalID)
             | _ => None
             end) evs.

(** Upserting a list of external ids, one after the other. *)
Definition set_external_ids (now : Time) (ids : list (string * string))
    (i : BacklogItem) : BacklogItem :=
  foldl (λ i p, model.SetExternalID now p.1 p.2 i) i ids.

(** What upserting external ids into a snapshot gives, [nilIDs] telling
    whether the snapshot's map of external ids is a nil map: the first
    upsert into a nil map panics. *)
Definition upserted (now : Time) (ids : list (string * string))
    (i : BacklogItem) (nilIDs : bool) : Result BacklogItem :=
  match ids with
  | [] => Ok i
  | _ => if nilIDs then Err PanicNilMap else Ok (set_external_ids now ids i)
  end.

Definition is_update (e : db.Decoded) : bool :=
  match fst e with
  | event.ItemUpdatedEvent _ _ _ => true
  | _ => false
  end.

(** An update event without an item, on which the replay panics. *)
Definition is_empty_update (e : db.Decoded) : bool :=
  match fst e with
  | event.ItemUpdatedEvent _ _ None => true
  | _ => false
  end.

(** An event whose item, if it has one, carries a map of external ids. *)
Definition has_ids (e : db.Decoded) : bool := negb (snd e).

(** The event types [GetEventsByItemID] can decode. *)
Definition decodable_types : list string :=
  [ event.EventTypeItemCreated; event.EventTypeItemUpdated;
    event.EventTypeItemDeleted; event.EventTypeExternalIDSet ].

(** ** Further notions: tags, rows, well-formed stores *)

(** Adding tags to a list of tags as [AddTag] does: a tag that is there
    already is skipped, a new one goes to the end. *)
Definition tags_added (tags acc : list string) : list string :=
  foldl (λ acc tag,
           if existsb (String.eqb tag) acc then acc else (acc ++ [tag])%list)
        acc tags.

(** What [UpdateItem] makes of the stored item [old] for a request: a
    field the request carries takes the requested value, any other field
    keeps the stored one; the id, the type, the creation time and the
    external ids are never touched. *)
Definition requested (req : UpdateItemRequest.t) (old item : BacklogItem)
    : Prop :=
  ID item = ID old
  ∧ Type_ item = Type_ old
  ∧ CreatedAt item = CreatedAt old
  ∧ ExternalIDs item = ExternalIDs old
  ∧ Title item = default (Title old) (UpdateItemRequest.Title req)
  ∧ Description item
    = default (Description old) (UpdateItemRequest.Description req)
  ∧ Status item = default (Status old) (UpdateItemRequest.Status req)
  ∧ StoryPoints item
    = default (StoryPoints old) (UpdateItemRequest.StoryPoints req)
  ∧ Priority item = default (Priority old) (UpdateItemRequest.Priority req)
  ∧ Assignee item = default (Assignee old) (UpdateItemRequest.Assignee req)
  ∧ ParentID item = match UpdateItemRequest.ParentID req with
                    | Some p => Some p
                    | None => ParentID old
                    end
  ∧ Tags item = match UpdateItemRequest.Tags req with
                | Some tags => tags_added tags []
                | None => Tags old
                end.

(** What [UpdateItem] has checked of a request when it reaches the
    UPDATE. *)
Definition request_checked (req : UpdateItemRequest.t) (old : BacklogItem)
    (w : World) : Prop :=
  (∀ t, UpdateItemRequest.Title req = Some t → t ≠ "")
  ∧ (∀ s, UpdateItemRequest.Status req = Some s → isValidItemStatus s = true)
  ∧ (∀ p, UpdateItemRequest.StoryPoints req = Some p → (0 ≤ p)%Z)
  ∧ (∀ p, UpdateItemRequest.ParentID req = Some p →
          Type_ old ≠ ItemTypeEpic
          ∧ (p ≠ uuid_Nil →
             ∃ parent, db.backlog_items (store w) !! p = Some parent
                       ∧ isValidParentChild (Type_ parent) (Type_ old)
                         = true)).

(** The row the UPDATE writes for an item: its columns, the creation time
    of the row it replaces, and the time of the statement. *)
Definition updated_row (now : Time) (item old : BacklogItem) : BacklogItem :=
  mkItem (ID item) (Type_ item) (ParentID item) (Title item)
         (Description item) (StoryPoints item) (Status item) (Priority item)
         (Assignee item) (Tags item) (CreatedAt old) now (ExternalIDs item).

(** Every parent id in the table names a row of the table whose type may
    be the parent of the child's type. *)
Definition hierarchy (tbl : gmap UUID BacklogItem) : Prop :=
  ∀ k i p, tbl !! k = Some i → ParentID i = Some p →
    ∃ parent, tbl !! p = Some parent
              ∧ isValidParentChild (Type_ parent) (Type_ i) = true.

(** A store whose rows sit under their own ids, none under the nil UUID,
    and whose parent links keep the hierarchy. *)
Definition well_formed (w : World) : Prop :=
  keyed w
  ∧ db.backlog_items (store w) !! uuid_Nil = None
  ∧ hierarchy (db.backlog_items (store w)).

(** The worlds the service reaches from a store without items by
    successful mutations, [uuid.New()] never giving the nil UUID. *)
Inductive reachable : World → Prop :=
| reachable_empty (w : World) :
    db.backlog_items (store w) = ∅ → reachable w
| reachable_step (env : Env) (m : Mutation) (w w1 : World) :
    reachable w →
    itemUUID env ≠ uuid_Nil →
    run_mutation env m w = (Ok tt, w1) →
    reachable w1.

(** The warm world after the children of the epic have been read. *)
Definition children_read : World := snd (GetChildren 1%N warm_world).



(** A row that sets an external id of an item. *)
Definition link_row (rowID itemID : UUID) (system externalID : string)
    (createdAt : Time) : db.EventRow :=
  db.mkRow rowID event.EventTypeExternalIDSet (Some itemID)
    (db.mkPayload
       (event.mkEvent rowID event.EventTypeExternalIDSet createdAt 1%Z)
       (Some itemID) None None (Some system) (Some externalID))
    createdAt.

(** The sample event table with story 9 linked to an issue tracker after
    its last update, and the events of story 9 in it. *)
Definition linked_log : db.Database :=
  db.mkDatabase ∅
    (db.events sample_log ++ [link_row 35%N 9%N "jira" "UB-9" 400%Z])%list.

Definition linked_events : list db.Decoded :=
  [ (event.ItemCreatedEvent
       (event.mkEvent 33%N event.EventTypeItemCreated 100%Z 1%Z) 9%N
       (Some snapshot0), false);
    (event.ItemUpdatedEvent
       (event.mkEvent 34%N event.EventTypeItemUpdated 200%Z 1%Z) 9%N
       (Some snapshot1), false);
    (event.ItemUpdatedEvent
       (event.mkEvent 31%N event.EventTypeItemUpdated 300%Z 1%Z) 9%N
       (Some snapshot2), false);
    (event.ExternalIDSetEvent
       (event.mkEvent 35%N event.EventTypeExternalIDSet 400%Z 1%Z) 9%N
       "jira" "UB-9", false) ].

(** The same table and events, the payload of the last update having no
    [externalIds] member. *)
Definition bare_update : db.EventRow :=
  db.mkRow 31%N event.EventTypeItemUpdated (Some 9%N)
    (db.mkPayload (event.mkEvent 31%N event.EventTypeItemUpdated 300%Z 1%Z)
                  (Some 9%N) (Some (db.mkItemObject snapshot2 false))
                  None None None)
    300%Z.

Definition bare_log : db.Database :=
  db.mkDatabase ∅
    [ bare_update;
      log_row 33%N event.EventTypeItemCreated 9%N snapshot0 100%Z;
      log_row 34%N event.EventTypeItemUpdated 9%N snapshot1 200%Z;
      link_row 35%N 9%N "jira" "UB-9" 400%Z ].

Definition bare_events : list db.Decoded :=
  [ (event.ItemCreatedEvent
       (event.mkEvent 33%N event.EventTypeItemCreated 100%Z 1%Z) 9%N
       (Some snapshot0), false);
    (event.ItemUpdatedEvent
       (event.mkEvent 34%N event.EventTypeItemUpdated 200%Z 1%Z) 9%N
       (Some snapshot1), false);
    (event.ItemUpdatedEvent
       (event.mkEvent 31%N event.EventTypeItemUpdated 300%Z 1%Z) 9%N
       (Some snapshot2), true);
    (event.ExternalIDSetEvent
       (event.mkEvent 35%N event.EventTypeExternalIDSet 400%Z 1%Z) 9%N
       "jira" "UB-9", false) ].

(** A request that asks for no parent, and one that sets tags. *)
Definition clear_parent : UpdateItemRequest.t :=
  UpdateItemRequest.mk None None None (Some uuid_Nil) None None None None.

Definition retag (tags : list string) : UpdateItemRequest.t :=
  UpdateItemRequest.mk None None None None None None None (Some tags).

(** Two later calls. *)
Definition env1 : Env := mkEnv 1001%Z 23%N 24%N 25%N false false.

Definition env2 : Env := mkEnv 1002%Z 26%N 27%N 28%N false false.

(** The empty world after an epic and a feature under it have been
    created. *)
Definition two_items : World :=
  snd (run_mutation env1 (MCreateItem (feature_request 20%N))
         (snd (run_mutation env0 (MCreateItem epic_request) empty_world))).

(** ** The WHERE clause of [List] (postgres.go) *)

(** A query argument: a text or a UUID. *)
Inductive QueryArg :=
| ArgText (s : string)
| ArgUUID (id : UUID).

(** The conditions the clause is made of, each with the numbers of its
    placeholders. *)
Inductive Condition :=
| CondIn (column : string) (placeholders : list nat)
| CondEq (column : string) (placeholder : nat)
| CondTag (placeholder : nat)
| CondSearch (title description : nat).

(** [fmt.Sprintf("$%d", argCount)] *)
Definition placeholder (argCount : nat) : string := "$" +:+ pretty argCount.

(** [strings.Join] *)
Fixpoint strings_Join (elems : list string) (sep : string) : string :=
  match elems with
  | [] => ""
  | [e] => e
  | e :: elems' => e +:+ sep +:+ strings_Join elems' sep
  end.

(** The text of a condition, as the [fmt.Sprintf] calls write it. *)
Definition render (c : Condition) : string :=
  match c with
  | CondIn column placeholders =>
      column +:+ " IN (" +:+ strings_Join (placeholder <$> placeholders) ", "
      +:+ ")"
  | CondEq column p => column +:+ " = " +:+ placeholder p
  | CondTag p => "tags @> ARRAY[" +:+ placeholder p +:+ "]::text[]"
  | CondSearch p q =>
      "(title ILIKE " +:+ placeholder p +:+ " OR description ILIKE "
      +:+ placeholder q +:+ ")"
  end.

(** The three variables of [buildFilterWhereClause]. *)
Record WhereState := mkWhere {
  conditions : list Condition;
  args : list QueryArg;
  argCount : nat
}.

(** [for i, t := range values { placeholders[i] = ...; args = append(args,
    t); argCount++ }] *)
Fixpoint number_args (values : list string) (placeholders : list nat)
    (st : WhereState) : list nat * WhereState :=
  match values with
  | [] => (placeholders, st)
  | v :: values' =>
      number_args values' (placeholders ++ [argCount st])%list
        (mkWhere (conditions st) (args st ++ [ArgText v])%list
                 (S (argCount st)))
  end.

(** [if len(values) > 0 { ... conditions = append(conditions, "<column> IN
    (...)") }] *)
Definition filter_in (column : string) (values : list string)
    (st : WhereState) : WhereState :=
  if (0 <? length values)%nat
  then let (placeholders, st') := number_args values [] st in
       mkWhere (conditions st' ++ [CondIn column placeholders])%list
               (args st') (argCount st')
  else st.

(** [conditions = append(conditions, "<column> = $n"); args = append(args,
    v); argCount++] *)
Definition filter_eq (column : string) (v : QueryArg) (st : WhereState)
    : WhereState :=
  mkWhere (conditions st ++ [CondEq column (argCount st)])%list
          (args st ++ [v])%list (S (argCount st)).

Definition filter_tags (tags : list string) (st : WhereState) : WhereState :=
  foldl (λ st tag,
           mkWhere (conditions st ++ [CondTag (argCount st)])%list
                   (args st ++ [ArgText tag])%list (S (argCount st)))
        st tags.

Definition filter_search (searchQuery : string) (st : WhereState)
    : WhereState :=
  let searchTerm := "%" +:+ searchQuery +:+ "%" in
  mkWhere (conditions st
           ++ [CondSearch (argCount st) (argCount st + 1)])%list
          (args st ++ [ArgText searchTerm; ArgText searchTerm])%list
          (argCount st + 2).

(** The conditions and arguments [buildFilterWhereClause] has collected
    when it reaches its last statement. *)
Definition where_state (filter : BacklogFilter.t) : WhereState :=
  let st := mkWhere [] [] 1 in
  let st := filter_in "type" (BacklogFilter.Types filter) st in
  let st := filter_in "status" (BacklogFilter.Statuses filter) st in
  let st := match BacklogFilter.ParentID filter with
            | Some parentID => filter_eq "parent_id" (ArgUUID parentID) st
            | None => st
            end in
  let st := if String.eqb (BacklogFilter.Assignee filter) "" then st
            else filter_eq "assignee"
                   (ArgText (BacklogFilter.Assignee filter)) st in
  let st := filter_tags (BacklogFilter.Tags filter) st in
  if String.eqb (BacklogFilter.SearchQuery filter) "" then st
  else filter_search (BacklogFilter.SearchQuery filter) st.

(** [buildFilterWhereClause] *)
Definition buildFilterWhereClause (filter : BacklogFilter.t)
    : string * list QueryArg :=
  let st := where_state filter in
  if (0 <? length (conditions st))%nat
  then (strings_Join (render <$> conditions st) " AND ", args st)
  else ("", args st).

(** The numbers of the placeholders of a condition, from left to right. *)
Definition placeholders_of (c : Condition) : list nat :=
  match c with
  | CondIn _ placeholders => placeholders
  | CondEq _ p | CondTag p => [p]
  | CondSearch p q => [p; q]
  end.

(** The placeholders are numbered from 1 in the order of the arguments,
    and the counter is one ahead. *)
Definition numbered (st : WhereState) : Prop :=
  concat (placeholders_of <$> conditions st) = seq 1 (length (args st))
  ∧ argCount st = S (length (args st)).

(** ** Metrics *)

(** C5. On ten epics, ten features and ten stories, where every share is
    one third, [calculateIcebergRatio] does not return 1.0: it measures
    the shares against the constant 0.33, so the three deviations add up
    to about 0.01 and the ratio is 0.995 (the binary64 value
    0x1.fd70a3d70a3d8p-1, printed 0.99500000000000011).  The ratio as
    the specification words it is 1.0 there. *)
Theorem calculateIcebergRatio_ten_of_each :
  calculateIcebergRatio ten_of_each = 0x1.fd70a3d70a3d8p-1%float
  ∧ (calculateIcebergRatio ten_of_each =? 1.0)%float = false
  ∧ (calculateIcebergRatio ten_of_each <? 1.0)%float = true
  ∧ iceberg_ratio_as_specified ten_of_each = 1.0%float.
Proof. vm_compute. repeat split; reflexivity. Qed.

(** C6. The health status follows the priority order AT_RISK, WARNING,
    HEALTHY, AVERAGE: more than 150 items is AT_RISK whatever the rest;
    otherwise a WIP count above 20 or a lead time above 60 is WARNING;
    otherwise at most 100 items, a WIP count of at most 10 and a lead time
    of at most 30 is HEALTHY; everything else is AVERAGE.  So 160 items are
    AT_RISK for every WIP count and lead time, and 50 items with a WIP
    count of 25 are WARNING. *)
Theorem determineHealthStatus_priority_order
    (sizeCounts : gmap ItemType Z) (wipCount : Z) (leadTime : float) :
  let totalItems := total_of sizeCounts in
  let status := determineHealthStatus sizeCounts wipCount leadTime in
  ((totalItems > 150)%Z → status = "AT_RISK")
  ∧ ((totalItems ≤ 150)%Z →
     (wipCount > 20)%Z ∨ (60 <? leadTime)%float = true →
     status = "WARNING")
  ∧ ((totalItems ≤ 150)%Z →
     ¬ ((wipCount > 20)%Z ∨ (60 <? leadTime)%float = true) →
     (totalItems ≤ 100)%Z ∧ (wipCount ≤ 10)%Z
       ∧ (leadTime <=? 30)%float = true →
     status = "HEALTHY")
  ∧ ((totalItems ≤ 150)%Z →
     ¬ ((wipCount > 20)%Z ∨ (60 <? leadTime)%float = true) →
     ¬ ((totalItems ≤ 100)%Z ∧ (wipCount ≤ 10)%Z
        ∧ (leadTime <=? 30)%float = true) →
     status = "AVERAGE")
  ∧ (totalItems = 160%Z → status = "AT_RISK")
  ∧ (totalItems = 50%Z → wipCount = 25%Z → status = "WARNING").
Proof.
  intros totalItems status. subst status. unfold determineHealthStatus.
  fold totalItems.
  destruct (Z.gtb_spec totalItems 150) as [Hbig|Hsmall];
    destruct (Z.gtb_spec wipCount 20) as [Hwip|Hwip];
    destruct (60 <? leadTime)%float eqn:Hlead;
    destruct (Z.leb_spec totalItems 100) as [Htot|Htot];
    destruct (Z.leb_spec wipCount 10) as [Hw10|Hw10];
    destruct (leadTime <=? 30)%float eqn:Hl30;
    cbn [orb andb];
    repeat split; intros; try reflexivity; try lia;
    try (exfalso; intuition (lia || congruence)).
Qed.

(** 160 epics are AT_RISK; 50 stories are WARNING with a WIP count of 25
    or a lead time of 61 days, HEALTHY with WIP 5 and 10 days; 120 stories
    with WIP 5 and 10 days are AVERAGE. *)
Lemma determineHealthStatus_priority_order_witness :
  determineHealthStatus {[ ItemTypeEpic := 160%Z ]} 0 0%float = "AT_RISK"
  ∧ determineHealthStatus {[ ItemTypeStory := 50%Z ]} 25 0%float = "WARNING"
  ∧ determineHealthStatus {[ ItemTypeStory := 50%Z ]} 0 61%float = "WARNING"
  ∧ determineHealthStatus {[ ItemTypeStory := 50%Z ]} 5 10%float = "HEALTHY"
  ∧ determineHealthStatus {[ ItemTypeStory := 120%Z ]} 5 10%float = "AVERAGE".
Proof.
  assert (Hquiet : ¬ ((5 > 20)%Z ∨ (60 <? 10)%float = true)).
  { intros [H|H]; [lia|vm_compute in H; discriminate H]. }
  pose proof (determineHealthStatus_priority_order
                {[ ItemTypeEpic := 160%Z ]} 0 0%float) as Hepics.
  pose proof (determineHealthStatus_priority_order
                {[ ItemTypeStory := 50%Z ]} 25 0%float) as Hwip.
  pose proof (determineHealthStatus_priority_order
                {[ ItemTypeStory := 50%Z ]} 0 61%float) as Hlead.
  pose proof (determineHealthStatus_priority_order
                {[ ItemTypeStory := 50%Z ]} 5 10%float) as Hcalm.
  pose proof (determineHealthStatus_priority_order
                {[ ItemTypeStory := 120%Z ]} 5 10%float) as Hmany.
  cbv zeta in Hepics, Hwip, Hlead, Hcalm, Hmany.
  destruct Hepics as (Hepics & _ & _ & _ & Hepics' & _).
  destruct Hwip as (_ & Hwip & _ & _ & _ & Hwip').
  destruct Hlead as (_ & Hlead & _).
  destruct Hcalm as (_ & _ & Hcalm & _).
  destruct Hmany as (_ & _ & _ & Hmany & _).
  split; [|split; [|split; [|split]]].
  - apply Hepics'. vm_compute. reflexivity.
  - apply Hwip'; vm_compute; reflexivity.
  - apply Hlead.
    + vm_compute. intros H. discriminate H.
    + right. vm_compute. reflexivity.
  - apply Hcalm.
    + vm_compute. intros H. discriminate H.
    + exact Hquiet.
    + split; [|split]; vm_compute;
        first [reflexivity | intros H; discriminate H].
  - apply Hmany.
    + vm_compute. intros H. discriminate H.
    + exact Hquiet.
    + intros (H & _). vm_compute in H. apply H. reflexivity.
Defined.

(** ** Running the service *)

Lemma bind_run {A B} (m : M A) (f : A → M B) (w : World) :
  (m ≫= f) w = match m w with
               | (Ok a, w') => f a w'
               | (Err e, w') => (Err e, w')
               end.
Proof. reflexivity. Qed.

Lemma notify_run {A} (env : Env) (e : event.DomainEvent)
    (topic msgStore msgPublish : string) (k : M A) (w : World) :
  (err ← eventRepo_StoreEvent env e;
   log_if_error err msgStore;;
   err ← eventPublisher_Publish env topic e;
   log_if_error err msgPublish;;
   k) w
  = k (notified env e topic msgStore msgPublish w).
Proof.
  unfold notified, eventRepo_StoreEvent, eventPublisher_Publish.
  rewrite !bind_run.
  destruct (storeEventFails env), (publishFails env); reflexivity.
Qed.

Lemma notified_items env e topic m1 m2 w :
  db.backlog_items (store (notified env e topic m1 m2 w))
  = db.backlog_items (store w).
Proof.
  unfold notified.
  destruct (storeEventFails env), (publishFails env); reflexivity.
Qed.

Lemma notified_cache env e topic m1 m2 w :
  cache (notified env e topic m1 m2 w) = cache w.
Proof.
  unfold notified.
  destruct (storeEventFails env), (publishFails env); reflexivity.
Qed.

Lemma invalidateListCache_run (w : World) :
  invalidateListCache w
  = (Ok tt, mkWorld (store w) (delete "metrics" (delete "list:all" (cache w)))
                    (published w) (logged w)).
Proof. reflexivity. Qed.

(** What the cache hands back is never an item, so [GetItem] asks the
    store, whatever the cache holds. *)
Lemma GetItem_run (id : UUID) (w : World) :
  GetItem id w
  = match db.backlog_items (store w) !! id with
    | Some item =>
        (Ok item,
         mkWorld (store w) (<[item_key id := CachedItem item]> (cache w))
                 (published w) (logged w))
    | None => (Err ErrNotFound, w)
    end.
Proof.
  unfold GetItem, cache_Get, repo_GetByID, db.GetByID. cbv zeta.
  rewrite bind_run.
  destruct (cache w !! item_key id) as [v|]; cbn [fmap option_fmap option_map];
    rewrite bind_run;
    destruct (db.backlog_items (store w) !! id); reflexivity.
Qed.

(** [GetItem] on a cache miss for an id the store does not have. *)
Lemma GetItem_absent (id : UUID) (w : World) :
  cache w !! item_key id = None →
  db.backlog_items (store w) !! id = None →
  GetItem id w = (Err ErrNotFound, w).
Proof. intros _ Hs. now rewrite GetItem_run, Hs. Qed.

(** [GetItem] on a cache miss for an id the store has. *)
Lemma GetItem_stored (id : UUID) (item : BacklogItem) (w : World) :
  cache w !! item_key id = None →
  db.backlog_items (store w) !! id = Some item →
  GetItem id w
  = (Ok item, mkWorld (store w) (<[item_key id := CachedItem item]> (cache w))
                      (published w) (logged w)).
Proof. intros _ Hs. now rewrite GetItem_run, Hs. Qed.

(** ** Sorting keeps the rows *)

Lemma insert_by_length {A} (key : A → Z) (x : A) (l : list A) :
  length (insert_by key x l) = S (length l).
Proof.
  induction l as [|y l IH]; simpl; [reflexivity|].
  destruct (key x <=? key y)%Z; simpl; [reflexivity|]. now rewrite IH.
Qed.

Lemma sort_by_length {A} (key : A → Z) (l : list A) :
  length (sort_by key l) = length l.
Proof.
  induction l as [|x l IH]; simpl; [reflexivity|].
  unfold sort_by in *. simpl. now rewrite insert_by_length, IH.
Qed.

(** [GetChildren] finds a row exactly when some item names the parent. *)
Lemma GetChildren_nonempty (id : UUID) (d : db.Database) :
  (0 < length (db.GetChildren id d))%nat
  ↔ ∃ cid child, db.backlog_items d !! cid = Some child
                 ∧ ParentID child = Some id.
Proof.
  unfold db.GetChildren. rewrite sort_by_length. split.
  - intros Hlen.
    destruct (filter _ _) as [|c l] eqn:Hf; [simpl in Hlen; lia|].
    assert (Hin : c ∈ filter (λ i, ParentID i = Some id)
                      (snd <$> map_to_list (db.backlog_items d)))
      by (rewrite Hf; left).
    apply list_elem_of_filter in Hin as [Hp Hin].
    apply list_elem_of_fmap in Hin as [[cid c'] [-> Hin]].
    apply elem_of_map_to_list in Hin. eauto.
  - intros (cid & child & Hl & Hp).
    assert (Hin : child ∈ filter (λ i, ParentID i = Some id)
                      (snd <$> map_to_list (db.backlog_items d))).
    { apply list_elem_of_filter. split; [exact Hp|].
      apply list_elem_of_fmap. exists (cid, child). split; [reflexivity|].
      now apply elem_of_map_to_list. }
    destruct (filter _ _); [inversion Hin|simpl; lia].
Qed.

(** ** Deleting *)

(** C3. [DeleteItem] fails with NotFound when the store has no item with
    the id; it fails with HasChildren, the world left as it was, when some
    stored item names the id as its parent; and for a stored item without
    children it succeeds, after which [GetItem] on the id fails with
    NotFound. *)
Theorem DeleteItem_cases (env : Env) (id : UUID) (w : World) :
  (db.backlog_items (store w) !! id = None →
   DeleteItem env id w = (Err ErrNotFound, w))
  ∧ (is_Some (db.backlog_items (store w) !! id) →
     (∃ cid child, db.backlog_items (store w) !! cid = Some child
                   ∧ ParentID child = Some id) →
     DeleteItem env id w = (Err ErrHasChildren, w))
  ∧ (is_Some (db.backlog_items (store w) !! id) →
     (∀ cid child, db.backlog_items (store w) !! cid = Some child →
                   ParentID child ≠ Some id) →
     ∃ w1, DeleteItem env id w = (Ok tt, w1)
           ∧ db.backlog_items (store w1) !! id = None
           ∧ GetItem id w1 = (Err ErrNotFound, w1)).
Proof.
  unfold DeleteItem, repo_GetByID, repo_GetChildren, db.GetByID.
  rewrite bind_run. repeat split.
  - intros ->. reflexivity.
  - intros [item ->] Hchild. rewrite bind_run.
    apply GetChildren_nonempty in Hchild.
    apply Nat.ltb_lt in Hchild. cbn beta iota. rewrite Hchild. reflexivity.
  - intros [item Hitem] Hnone. rewrite Hitem, bind_run. cbn beta iota.
    destruct (0 <? length (db.GetChildren id (store w)))%nat eqn:Hlen.
    { apply Nat.ltb_lt, GetChildren_nonempty in Hlen
        as (cid & child & Hl & Hp).
      exfalso. exact (Hnone cid child Hl Hp). }
    unfold repo_Delete, db.Delete. rewrite bind_run, Hitem. cbn beta iota zeta.
    rewrite notify_run.
    unfold cache_Delete. rewrite bind_run, invalidateListCache_run.
    eexists. split; [reflexivity|].
    cbn [store cache with_store].
    rewrite notified_items, notified_cache. cbn [store cache with_store db.backlog_items].
    assert (Hgone : (db.orphan id <$> delete id (db.backlog_items (store w))) !! id = None).
    { rewrite lookup_fmap, lookup_delete_eq. reflexivity. }
    split; [exact Hgone|].
    apply GetItem_absent; cbn [store cache db.backlog_items].
    + apply lookup_delete_None. right.
      apply lookup_delete_None. right.
      apply lookup_delete_eq.
    + rewrite notified_items. exact Hgone.
Qed.

(** ** Creating *)

(** Adding tags touches the tags and the time stamp, nothing else. *)
Lemma add_tags_frame {X} (f : BacklogItem → X) :
  (∀ now tag i, f (AddTag now tag i) = f i) →
  ∀ now tags i, f (add_tags now tags i) = f i.
Proof.
  intros Hf now tags. unfold add_tags.
  induction tags as [|t tags IH]; intros i; simpl; [reflexivity|].
  now rewrite IH, Hf.
Qed.

Lemma AddTag_frame now tag i :
  ID (AddTag now tag i) = ID i
  ∧ Type_ (AddTag now tag i) = Type_ i
  ∧ ParentID (AddTag now tag i) = ParentID i
  ∧ Title (AddTag now tag i) = Title i
  ∧ StoryPoints (AddTag now tag i) = StoryPoints i
  ∧ Status (AddTag now tag i) = Status i
  ∧ Priority (AddTag now tag i) = Priority i
  ∧ Assignee (AddTag now tag i) = Assignee i
  ∧ ExternalIDs (AddTag now tag i) = ExternalIDs i.
Proof. unfold AddTag. destruct (existsb _ _); repeat split. Qed.

(** From the INSERT on, [CreateItem] fails only if the store refuses the
    row. *)
Lemma CreateItem_tail (env : Env) (item : BacklogItem) (w : World) :
  (repo_Create item;;
   err ← eventRepo_StoreEvent env
           (event.NewItemCreatedEvent (eventUUID env) (now env) (ID item) item);
   log_if_error err "Failed to store item created event";;
   err ← eventPublisher_Publish env "backlog.item.created"
           (event.NewItemCreatedEvent (eventUUID env) (now env) (ID item) item);
   log_if_error err "Failed to publish item created event";;
   invalidateListCache;;
   mret item) w
  = match db.backlog_items (store w) !! ID item with
    | Some _ => (Err ErrCreateFailed, w)
    | None =>
        if db.row_ok (<[ID item := item]> (db.backlog_items (store w))) item
        then (Ok item, created_world env item w)
        else (Err ErrCreateFailed, w)
    end.
Proof.
  rewrite bind_run. unfold repo_Create, db.Create.
  destruct (db.backlog_items (store w) !! ID item).
  { destruct w; reflexivity. }
  destruct (db.row_ok _ _).
  2:{ destruct w; reflexivity. }
  rewrite notify_run, bind_run, invalidateListCache_run. reflexivity.
Qed.

(** The story points step of [CreateItem]: it never fails, and it keeps
    only a positive number of points. *)
Lemma CreateItem_story_points {A} (env : Env) (sp : Z) (i : BacklogItem)
    (k : BacklogItem → M A) (w : World) :
  ((if (sp >? 0)%Z then lift (UpdateStoryPoints (now env) sp i) else mret i)
   ≫= k) w
  = k (if (sp >? 0)%Z then set_UpdatedAt (now env) (set_StoryPoints sp i)
       else i) w.
Proof.
  rewrite bind_run.
  destruct (Z.gtb_spec sp 0) as [Hpos|Hneg]; [|reflexivity].
  unfold lift, UpdateStoryPoints.
  destruct (Z.ltb_spec sp 0); [lia|reflexivity].
Qed.

Lemma CreateItem_tail_Ok (env : Env) (built item : BacklogItem)
    (w w1 : World) :
  ID built = itemUUID env →
  match db.backlog_items (store w) !! ID built with
  | Some _ => (Err ErrCreateFailed, w)
  | None =>
      if db.row_ok (<[ID built := built]> (db.backlog_items (store w))) built
      then (Ok built, created_world env built w)
      else (Err ErrCreateFailed, w)
  end = (Ok item, w1)
  ↔ db.backlog_items (store w) !! itemUUID env = None
    ∧ db.row_ok (<[itemUUID env := built]> (db.backlog_items (store w)))
                built = true
    ∧ item = built
    ∧ w1 = created_world env item w.
Proof.
  intros ->.
  destruct (db.backlog_items (store w) !! itemUUID env).
  { split; [discriminate|]. intros (H & _). discriminate. }
  destruct (db.row_ok _ _).
  2:{ split; [discriminate|]. intros (_ & H & _). discriminate. }
  split.
  - intros [= <- <-]. repeat split.
  - intros (_ & _ & -> & ->). reflexivity.
Qed.

(** [CreateItem] succeeds exactly when the title is not empty, the type is
    valid, the parent (if any) is accepted, and the store takes the row;
    it then returns the item it built. *)
Lemma CreateItem_Ok (env : Env) (req : CreateItemRequest.t)
    (w w1 : World) (item : BacklogItem) :
  CreateItem env req w = (Ok item, w1)
  ↔ CreateItemRequest.Title req ≠ ""
    ∧ isValidItemType (CreateItemRequest.Type_ req) = true
    ∧ parent_accepted req w
    ∧ db.backlog_items (store w) !! itemUUID env = None
    ∧ db.row_ok (<[itemUUID env := built_item env req]>
                   (db.backlog_items (store w)))
                (built_item env req) = true
    ∧ item = built_item env req
    ∧ w1 = created_world env item w.
Proof.
  unfold CreateItem, parent_accepted, built_item.
  destruct req as [ty title desc parent sp tags asg];
    cbn [CreateItemRequest.Type_ CreateItemRequest.Title
         CreateItemRequest.Description CreateItemRequest.ParentID
         CreateItemRequest.StoryPoints CreateItemRequest.Tags].
  rewrite bind_run. unfold lift at 1. unfold NewBacklogItem.
  destruct (String.eqb_spec title "") as [Ht|Ht].
  { split; [discriminate|]. intros (H & _). contradiction. }
  destruct (isValidItemType ty) eqn:Hty; cbn [negb].
  2:{ split; [discriminate|]. intros (_ & H & _). discriminate. }
  rewrite bind_run.
  destruct parent as [pid|].
  - rewrite bind_run. unfold lift at 1, UpdateParent. cbn [Type_].
    rewrite bool_decide_eq_true_2 by discriminate. cbn [andb].
    destruct (String.eqb_spec ty ItemTypeEpic) as [Hepic|Hepic].
    { split; [discriminate|]. intros (_ & _ & (H & _) & _). contradiction. }
    rewrite bind_run. unfold repo_GetByID, db.GetByID.
    destruct (db.backlog_items (store w) !! pid) as [parent|] eqn:Hparent.
    2:{ split; [discriminate|].
        intros (_ & _ & (_ & p & H & _) & _). discriminate. }
    destruct (isValidParentChild (Type_ parent) ty) eqn:Hrel; cbn [negb].
    2:{ split; [discriminate|].
        intros (_ & _ & (_ & p & H & Hp) & _).
        injection H as <-. congruence. }
    unfold mret at 1, M_ret at 1.
    rewrite CreateItem_story_points.
    match goal with
    | |- context [add_tags _ _ ?b] =>
        replace b with
          (mkItem (itemUUID env) ty (Some pid) title desc
                  (if (sp >? 0)%Z then sp else 0%Z) ItemStatusNew 0%Z "" []
                  (now env) (now env) ∅)
          by (destruct (sp >? 0)%Z; reflexivity)
    end.
    rewrite CreateItem_tail, CreateItem_tail_Ok
      by (now rewrite (add_tags_frame ID) by (intros; apply AddTag_frame)).
    intuition eauto.
  - unfold mret at 1, M_ret at 1.
    rewrite CreateItem_story_points.
    match goal with
    | |- context [add_tags _ _ ?b] =>
        replace b with
          (mkItem (itemUUID env) ty None title desc
                  (if (sp >? 0)%Z then sp else 0%Z) ItemStatusNew 0%Z "" []
                  (now env) (now env) ∅)
          by (destruct (sp >? 0)%Z; reflexivity)
    end.
    rewrite CreateItem_tail, CreateItem_tail_Ok
      by (now rewrite (add_tags_frame ID) by (intros; apply AddTag_frame)).
    intuition eauto.
Qed.

Lemma built_item_fields (env : Env) (req : CreateItemRequest.t) :
  let item := built_item env req in
  ID item = itemUUID env
  ∧ Type_ item = CreateItemRequest.Type_ req
  ∧ ParentID item = CreateItemRequest.ParentID req
  ∧ Title item = CreateItemRequest.Title req
  ∧ StoryPoints item = (if (CreateItemRequest.StoryPoints req >? 0)%Z
                        then CreateItemRequest.StoryPoints req else 0%Z)
  ∧ Status item = ItemStatusNew
  ∧ Priority item = 0%Z
  ∧ Assignee item = ""
  ∧ ExternalIDs item = ∅.
Proof.
  unfold built_item.
  repeat split;
    match goal with
    | |- ?f (add_tags _ _ _) = _ =>
        rewrite (add_tags_frame f) by (intros; apply AddTag_frame)
    end; reflexivity.
Qed.

(** After a successful [CreateItem] the store has the item under its id,
    and the cache has lost the two list keys and nothing else. *)
Lemma created_world_store (env : Env) (item : BacklogItem) (w : World) :
  db.backlog_items (store (created_world env item w))
  = <[ID item := item]> (db.backlog_items (store w)).
Proof. unfold created_world. cbn [store]. now rewrite notified_items. Qed.

Lemma created_world_cache (env : Env) (item : BacklogItem) (w : World) :
  cache (created_world env item w)
  = delete "metrics" (delete "list:all" (cache w)).
Proof. unfold created_world. cbn [cache]. now rewrite notified_cache. Qed.



(** ** Steps that only read *)

Lemma readonly_mret {A} (a : A) : readonly (mret a : M A).
Proof. intros w r w' [= _ <-]. reflexivity. Qed.

Lemma readonly_fail {A} (e : Error) : readonly (fail e : M A).
Proof. intros w r w' [= _ <-]. reflexivity. Qed.

Lemma readonly_lift {A} (r : Result A) : readonly (lift r).
Proof. intros w r' w' [= _ <-]. reflexivity. Qed.

Lemma readonly_GetByID (id : UUID) : readonly (repo_GetByID id).
Proof. intros w r w' [= _ <-]. reflexivity. Qed.

Lemma readonly_bind {A B} (m : M A) (f : A → M B) :
  readonly m → (∀ a, readonly (f a)) → readonly (m ≫= f).
Proof.
  intros Hm Hf w r w'. rewrite bind_run.
  destruct (m w) as [[a|e] w0] eqn:Hmw; apply Hm in Hmw as ->.
  - apply Hf.
  - intros [= _ <-]. reflexivity.
Qed.

Lemma readonly_if_set {A} (field : option A)
    (f : A → BacklogItem → M BacklogItem) (item : BacklogItem) :
  (∀ v i, readonly (f v i)) → readonly (if_set field f item).
Proof. intros Hf. destruct field; [apply Hf|apply readonly_mret]. Qed.

Ltac solve_readonly :=
  repeat (intros;
          first [ apply readonly_mret | apply readonly_fail
                | apply readonly_lift | apply readonly_GetByID
                | apply readonly_if_set | apply readonly_bind
                | match goal with
                  | |- readonly (if ?b then _ else _) => destruct b
                  end ]).

(** A bind that ends well went well through both halves. *)
Lemma bind_Ok {A B} (m : M A) (f : A → M B) (w w' : World) (b : B) :
  (m ≫= f) w = (Ok b, w') →
  ∃ a w0, m w = (Ok a, w0) ∧ f a w0 = (Ok b, w').
Proof.
  rewrite bind_run. destruct (m w) as [[a|e] w0]; [eauto|discriminate].
Qed.

(** A readonly step whose errors are in [P], in front of a continuation
    that fails within [P], fails within [P]. *)
Lemma fails_within_bind (P : Error → Prop) {A B} (m : M A) (f : A → M B)
    (w : World) :
  readonly m →
  (∀ e w', m w = (Err e, w') → P e) →
  (∀ a, fails_within P (f a) w) →
  fails_within P (m ≫= f) w.
Proof.
  intros Hro Herr Hf. unfold fails_within. rewrite bind_run.
  pose proof (Hro w) as Hw. pose proof (Herr) as He. revert Hw He.
  destruct (m w) as [[a|e] w0]; intros Hw He.
  - rewrite (Hw _ _ eq_refl). apply Hf.
  - rewrite (Hw _ _ eq_refl). exists e. split; [reflexivity|].
    exact (He _ _ eq_refl).
Qed.

(** ** Updating *)

Lemma UpdateItem_tail (env : Env) (id : UUID) (item : BacklogItem)
    (w : World) :
  (repo_Update env item;;
   err ← eventRepo_StoreEvent env
           (event.NewItemUpdatedEvent (eventUUID env) (now env) (ID item) item);
   log_if_error err "Failed to store item updated event";;
   err ← eventPublisher_Publish env "backlog.item.updated"
           (event.NewItemUpdatedEvent (eventUUID env) (now env) (ID item) item);
   log_if_error err "Failed to publish item updated event";;
   cache_Delete (item_key id);;
   invalidateListCache;;
   mret item) w
  = match db.Update (now env) item (store w) with
    | (Ok _, d) => (Ok item, updated_world env id item d w)
    | (Err e, _) => (Err e, w)
    end.
Proof.
  rewrite bind_run. unfold repo_Update.
  assert (Hfail : ∀ e d, db.Update (now env) item (store w) = (Err e, d) →
                         d = store w).
  { unfold db.Update. intros e d.
    destruct (db.backlog_items (store w) !! ID item); [|now intros [= _ <-]].
    destruct (db.row_ok _ _); [discriminate|now intros [= _ <-]]. }
  destruct (db.Update (now env) item (store w)) as [[[]|e] d] eqn:Hupd.
  - rewrite notify_run. unfold cache_Delete.
    rewrite bind_run, bind_run, invalidateListCache_run. reflexivity.
  - rewrite (Hfail _ _ eq_refl). destruct w; reflexivity.
Qed.

Lemma updated_world_cache env id item d w :
  cache (updated_world env id item d w)
  = delete "metrics" (delete "list:all" (delete (item_key id) (cache w))).
Proof. unfold updated_world. cbn [cache]. now rewrite notified_cache. Qed.

Lemma updated_world_store env id item d w :
  db.backlog_items (store (updated_world env id item d w))
  = db.backlog_items d.
Proof. unfold updated_world. cbn [store]. now rewrite notified_items. Qed.

(** The UPDATE writes every column of the item but [created_at] and
    [updated_at]. *)
Lemma Update_row (now : Time) (item : BacklogItem) (d d' : db.Database) :
  db.Update now item d = (Ok tt, d') →
  ∃ row, db.backlog_items d' !! ID item = Some row
         ∧ Title row = Title item
         ∧ StoryPoints row = StoryPoints item
         ∧ Assignee row = Assignee item
         ∧ ExternalIDs row = ExternalIDs item.
Proof.
  unfold db.Update.
  destruct (db.backlog_items d !! ID item); [|discriminate].
  destruct (db.row_ok _ _); [|discriminate].
  intros [= <-]. eexists. split; [apply lookup_insert_eq|]. repeat split.
Qed.

(** A successful [UpdateItem] has read the item, applied the fields of the
    request without writing, and then written the row; a requested
    assignee is the assignee of the item it returns. *)
Lemma UpdateItem_Ok (env : Env) (id : UUID) (req : UpdateItemRequest.t)
    (w w1 : World) (item : BacklogItem) :
  UpdateItem env id req w = (Ok item, w1) →
  ∃ d, db.Update (now env) item (store w) = (Ok tt, d)
       ∧ w1 = updated_world env id item d w
       ∧ ∀ a, UpdateItemRequest.Assignee req = Some a → Assignee item = a.
Proof.
  unfold UpdateItem. intros H.
  apply bind_Ok in H as (i0 & w0 & H0 & H).
  apply readonly_GetByID in H0 as ->.
  apply bind_Ok in H as (i1 & w0 & H1 & H).
  apply readonly_if_set in H1 as ->; [|solve_readonly].
  apply bind_Ok in H as (i2 & w0 & H2 & H).
  apply readonly_if_set in H2 as ->; [|solve_readonly].
  apply bind_Ok in H as (i3 & w0 & H3 & H).
  apply readonly_if_set in H3 as ->; [|solve_readonly].
  apply bind_Ok in H as (i4 & w0 & H4 & H).
  apply readonly_if_set in H4 as ->; [|solve_readonly].
  apply bind_Ok in H as (i5 & w0 & H5 & H).
  apply readonly_if_set in H5 as ->; [|solve_readonly].
  apply bind_Ok in H as (i6 & w0 & H6 & H).
  apply readonly_if_set in H6 as ->; [|solve_readonly].
  apply bind_Ok in H as (i7 & w0 & H7 & H).
  pose proof H7 as H7'. apply readonly_if_set in H7' as ->; [|solve_readonly].
  apply bind_Ok in H as (i8 & w0 & H8 & H).
  pose proof H8 as H8'. apply readonly_if_set in H8' as ->; [|solve_readonly].
  cbv zeta in H. rewrite UpdateItem_tail in H.
  destruct (db.Update (now env) i8 (store w)) as [[[]|e] d] eqn:Hupd;
    [|discriminate].
  injection H as <- <-. exists d.
  split; [exact Hupd|split; [reflexivity|]].
  intros a Ha. rewrite Ha in H7. injection H7 as <-.
  destruct (UpdateItemRequest.Tags req) as [tags|]; injection H8 as <-.
  - now rewrite (add_tags_frame Assignee) by (intros; apply AddTag_frame).
  - reflexivity.
Qed.

(** ** Linking, reordering, deleting: what a success leaves *)

Lemma SetExternalID_Ok (env : Env) (id : UUID) (system externalID : string)
    (w w1 : World) :
  service.SetExternalID env id system externalID w = (Ok tt, w1) →
  ∃ item d,
    db.backlog_items (store w) !! id = Some item
    ∧ db.Update (now env)
        (model.SetExternalID (now env) system externalID item) (store w)
      = (Ok tt, d)
    ∧ db.backlog_items (store w1) = db.backlog_items d
    ∧ cache w1 = delete (item_key id) (cache w).
Proof.
  unfold service.SetExternalID. intros H.
  apply bind_Ok in H as (item & w0 & H0 & H).
  pose proof H0 as H0'. apply readonly_GetByID in H0' as ->.
  unfold repo_GetByID, db.GetByID in H0.
  destruct (db.backlog_items (store w) !! id) as [i|] eqn:Hi; [|discriminate].
  injection H0 as <-.
  cbv zeta in H. rewrite bind_run in H. unfold repo_Update in H.
  destruct (db.Update _ _ _) as [[[]|e] d] eqn:Hupd; [|discriminate].
  rewrite notify_run in H. unfold cache_Delete in H. injection H as <-.
  exists i, d. cbn [store cache].
  rewrite notified_items, notified_cache. repeat split. exact Hupd.
Qed.

Lemma ReorderItems_run (env : Env) (reorderRequests : list ReorderRequest.t)
    (w : World) :
  ∃ w1, ReorderItems env reorderRequests w = (Ok tt, w1)
        ∧ (reorderRequests = [] → w1 = w)
        ∧ (reorderRequests ≠ [] →
           db.backlog_items (store w1)
           = db.backlog_items
               (db.UpdatePriorities (now env) (priorities_of reorderRequests)
                  (store w))
           ∧ cache w1 = delete "metrics" (delete "list:all" (cache w))).
Proof.
  unfold ReorderItems. destruct reorderRequests as [|r rs].
  - exists w. split; [reflexivity|]. split; [reflexivity|]. intros H. contradiction.
  - cbn [length Nat.eqb]. cbv zeta.
    rewrite bind_run. unfold repo_UpdatePriorities.
    rewrite notify_run, invalidateListCache_run.
    eexists. split; [reflexivity|]. split; [discriminate|]. intros _.
    cbn [store cache]. rewrite notified_items, notified_cache.
    split; reflexivity.
Qed.

Lemma DeleteItem_Ok (env : Env) (id : UUID) (w w1 : World) :
  DeleteItem env id w = (Ok tt, w1) →
  db.backlog_items (store w1)
  = db.orphan id <$> delete id (db.backlog_items (store w))
  ∧ cache w1
    = delete "metrics" (delete "list:all" (delete (item_key id) (cache w))).
Proof.
  unfold DeleteItem. intros H.
  apply bind_Ok in H as (item & w0 & H0 & H).
  pose proof H0 as H0'. apply readonly_GetByID in H0' as ->.
  unfold repo_GetByID, db.GetByID in H0.
  destruct (db.backlog_items (store w) !! id) as [i|] eqn:Hi; [|discriminate].
  rewrite bind_run in H. unfold repo_GetChildren in H.
  destruct (0 <? length _)%nat; [discriminate|].
  rewrite bind_run in H. unfold repo_Delete, db.Delete in H. rewrite Hi in H.
  cbv zeta in H. rewrite notify_run in H. unfold cache_Delete in H.
  rewrite bind_run, invalidateListCache_run in H. injection H as <-.
  cbn [store cache]. rewrite notified_items, notified_cache. split; reflexivity.
Qed.

(** ** Cache invalidation *)

Lemma lookup_delete_keys (keys : list string) (c : gmap string CacheValue)
    (k : string) :
  delete_keys keys c !! k = if decide (k ∈ keys) then None else c !! k.
Proof.
  unfold delete_keys. revert c.
  induction keys as [|k' keys IH]; intros c; simpl.
  - destruct (decide (k ∈ [])) as [Hin|_]; [inversion Hin|reflexivity].
  - rewrite IH.
    destruct (decide (k ∈ keys)) as [Hin|Hnin].
    + rewrite decide_True by (now right). reflexivity.
    + destruct (decide (k = k')) as [->|Hne].
      * rewrite decide_True by left. apply lookup_delete_eq.
      * rewrite decide_False.
        -- now apply lookup_delete_ne.
        -- intros [?|?]%elem_of_cons; contradiction.
Qed.

(** A successful mutation leaves the cache with exactly the keys of
    [invalidated] deleted. *)
Lemma run_mutation_cache (env : Env) (m : Mutation) (w w1 : World) :
  run_mutation env m w = (Ok tt, w1) →
  cache w1 = delete_keys (invalidated m) (cache w).
Proof.
  destruct m as [req|id req|id|reqs|id sys ext]; cbn [run_mutation invalidated].
  - intros H. apply bind_Ok in H as (item & w0 & H & [= <-]).
    apply CreateItem_Ok in H as (_ & _ & _ & _ & _ & _ & ->).
    apply created_world_cache.
  - intros H. apply bind_Ok in H as (item & w0 & H & [= <-]).
    apply UpdateItem_Ok in H as (d & _ & -> & _).
    apply updated_world_cache.
  - intros H. apply DeleteItem_Ok in H as [_ ->]. reflexivity.
  - intros H. destruct (ReorderItems_run env reqs w) as (w' & Hrun & Hnil & Hcons).
    rewrite Hrun in H. injection H as <-. destruct reqs as [|r rs].
    + now rewrite Hnil.
    + now destruct Hcons as [_ ->].
  - intros H. apply SetExternalID_Ok in H as (i & d & _ & _ & _ & ->).
    reflexivity.
Qed.

(** C9, amended. A successful [CreateItem], [UpdateItem], [DeleteItem] or
    [ReorderItems] of at least one item deletes the cache keys [list:all]
    and [metrics]; [UpdateItem] and [DeleteItem] delete [item:<id>] as
    well; a successful [SetExternalID] deletes [item:<id>] and nothing
    else; and no mutation touches any other cache key. *)
Theorem mutation_invalidates (env : Env) (m : Mutation) (w w1 : World) :
  run_mutation env m w = (Ok tt, w1) →
  (∀ k, k ∈ invalidated m → cache w1 !! k = None)
  ∧ (∀ k, k ∉ invalidated m → cache w1 !! k = cache w !! k).
Proof.
  intros H. apply run_mutation_cache in H as ->.
  split; intros k Hk; rewrite lookup_delete_keys.
  - now rewrite decide_True.
  - now rewrite decide_False.
Qed.

(** C9 as stated fails: [SetExternalID] on the stored epic succeeds and
    the cache still holds [metrics] afterwards. *)
Lemma SetExternalID_keeps_metrics :
  ¬ (∀ env m w w1,
       run_mutation env m w = (Ok tt, w1) →
       ∀ k, k ∈ keys_to_invalidate m → cache w1 !! k = None).
Proof.
  intros H.
  specialize (H env0 (MSetExternalID 1%N "jira" "UBMM-7") warm_world
                (snd (run_mutation env0 (MSetExternalID 1%N "jira" "UBMM-7")
                        warm_world))).
  assert (Hrun : run_mutation env0 (MSetExternalID 1%N "jira" "UBMM-7") warm_world
                 = (Ok tt, snd (run_mutation env0
                                  (MSetExternalID 1%N "jira" "UBMM-7") warm_world)))
    by (vm_compute; reflexivity).
  specialize (H Hrun "metrics").
  assert (Hin : "metrics" ∈ keys_to_invalidate (MSetExternalID 1%N "jira" "UBMM-7"))
    by (cbn; set_solver).
  specialize (H Hin). vm_compute in H. discriminate H.
Qed.

(** [SetExternalID] on the stored epic deletes its item key and keeps
    [metrics]. *)
Lemma mutation_invalidates_witness :
  let m := MSetExternalID 1%N "jira" "UBMM-7" in
  let w1 := snd (run_mutation env0 m warm_world) in
  (∀ k, k ∈ invalidated m → cache w1 !! k = None)
  ∧ (∀ k, k ∉ invalidated m → cache w1 !! k = cache warm_world !! k).
Proof.
  intros m w1.
  apply (mutation_invalidates env0 m warm_world w1).
  vm_compute. reflexivity.
Defined.

(** ** The assignee *)

(** Apart from [UpdateItem], no mutation gives a stored item an assignee
    it did not have: afterwards a row has the empty assignee or the one
    the row under its id had before. *)
Lemma assignee_kept (env : Env) (m : Mutation) (w w1 : World) :
  (∀ id ureq, m ≠ MUpdateItem id ureq) →
  keyed w →
  run_mutation env m w = (Ok tt, w1) →
  ∀ k row, db.backlog_items (store w1) !! k = Some row →
    Assignee row = ""
    ∨ ∃ old, db.backlog_items (store w) !! k = Some old
             ∧ Assignee old = Assignee row.
Proof.
  intros Hm Hkeyed Hrun k row Hrow.
  destruct m as [req|id req|id|reqs|id sys ext]; cbn [run_mutation] in Hrun.
  - apply bind_Ok in Hrun as (item & w0 & H & [= <-]).
    apply CreateItem_Ok in H as (_ & _ & _ & _ & _ & -> & ->).
    rewrite created_world_store in Hrow.
    apply lookup_insert_Some in Hrow as [[_ <-]|[_ Hrow]].
    + left. apply built_item_fields.
    + right. eauto.
  - exfalso. exact (Hm id req eq_refl).
  - apply DeleteItem_Ok in Hrun as [Hst _]. rewrite Hst in Hrow.
    apply lookup_fmap_Some in Hrow as (old & <- & Hold).
    apply lookup_delete_Some in Hold as [_ Hold].
    right. exists old. split; [assumption|].
    unfold db.orphan. now destruct (bool_decide _).
  - destruct (ReorderItems_run env reqs w) as (w' & Hrun' & Hnil & Hcons).
    rewrite Hrun' in Hrun. injection Hrun as <-. destruct reqs as [|r rs].
    + rewrite Hnil in Hrow by reflexivity. right. eauto.
    + destruct Hcons as [Hst _]; [discriminate|]. rewrite Hst in Hrow.
      unfold db.UpdatePriorities in Hrow. cbn [db.backlog_items] in Hrow.
      rewrite map_lookup_imap in Hrow.
      destruct (db.backlog_items (store w) !! k) as [old|] eqn:Hold;
        [|discriminate].
      cbn in Hrow. injection Hrow as <-.
      right. exists old. split; [reflexivity|].
      match goal with
      | |- context [match ?x with _ => _ end] => destruct x
      end; reflexivity.
  - apply SetExternalID_Ok in Hrun as (i & d & Hi & Hupd & Hst & _).
    rewrite Hst in Hrow. pose proof (Hkeyed _ _ Hi) as Hid.
    unfold db.Update in Hupd. cbn [ID model.SetExternalID set_UpdatedAt
                                   set_ExternalIDs] in Hupd.
    rewrite Hid, Hi in Hupd.
    destruct (db.row_ok _ _); [|discriminate].
    injection Hupd as <-. cbn [db.backlog_items] in Hrow.
    right. apply lookup_insert_Some in Hrow as [[<- <-]|[_ Hrow]]; eauto.
Qed.

(** C10. [CreateItem] ignores the assignee of its request: its outcome is
    the same for every assignee, and the item it creates, as returned and
    as stored, has the empty assignee.  [UpdateItem] with an assignee
    stores it, and no other mutation gives a stored item an assignee it
    did not have. *)
Theorem CreateItem_ignores_assignee (env : Env) (req : CreateItemRequest.t)
    (w : World) :
  (∀ assignee, CreateItem env (with_Assignee assignee req) w
               = CreateItem env req w)
  ∧ (∀ item w1,
       CreateItem env req w = (Ok item, w1) →
       Assignee item = ""
       ∧ db.backlog_items (store w1) !! ID item = Some item)
  ∧ (∀ id ureq a item w1,
       UpdateItemRequest.Assignee ureq = Some a →
       UpdateItem env id ureq w = (Ok item, w1) →
       Assignee item = a
       ∧ ∃ row, db.backlog_items (store w1) !! ID item = Some row
                ∧ Assignee row = a)
  ∧ (∀ m w1,
       (∀ id ureq, m ≠ MUpdateItem id ureq) →
       keyed w →
       run_mutation env m w = (Ok tt, w1) →
       ∀ k row, db.backlog_items (store w1) !! k = Some row →
         Assignee row = ""
         ∨ ∃ old, db.backlog_items (store w) !! k = Some old
                  ∧ Assignee old = Assignee row).
Proof.
  split; [|split; [|split]].
  - intros assignee. destruct req. reflexivity.
  - intros item w1 H.
    apply CreateItem_Ok in H as (_ & _ & _ & _ & _ & -> & ->).
    split; [apply built_item_fields|].
    rewrite created_world_store. apply lookup_insert_eq.
  - intros id ureq a item w1 Ha H.
    apply UpdateItem_Ok in H as (d & Hupd & -> & Hasg).
    split; [now apply Hasg|].
    apply Update_row in Hupd as (row & Hrow & _ & _ & Hra & _).
    exists row. rewrite updated_world_store.
    split; [assumption|]. rewrite Hra. now apply Hasg.
  - intros m w1. apply assignee_kept.
Qed.

(** ** Validation *)

(** [UpdateItem] with negative story points on a stored item fails with a
    validation error and writes nothing. *)
Lemma UpdateItem_negative_story_points (env : Env) (id : UUID)
    (req : UpdateItemRequest.t) (w : World) (points : Z) :
  is_Some (db.backlog_items (store w) !! id) →
  UpdateItemRequest.StoryPoints req = Some points →
  (points < 0)%Z →
  fails_within (λ e, is_ValidationError e = true) (UpdateItem env id req) w.
Proof.
  intros [i Hi] Hsp Hneg. unfold UpdateItem.
  apply fails_within_bind; [solve_readonly| |intros i0].
  { unfold repo_GetByID, db.GetByID. rewrite Hi. discriminate. }
  apply fails_within_bind; [solve_readonly| |intros i1].
  { destruct (UpdateItemRequest.Title req) as [t|]; [|discriminate].
    unfold if_set, lift, UpdateTitle.
    destruct (String.eqb t ""); [|discriminate]. now intros e w' [= <-]. }
  apply fails_within_bind; [solve_readonly| |intros i2].
  { destruct (UpdateItemRequest.Description req); discriminate. }
  apply fails_within_bind; [solve_readonly| |intros i3].
  { destruct (UpdateItemRequest.Status req) as [s|]; [|discriminate].
    unfold if_set, lift, UpdateStatus.
    destruct (isValidItemStatus s); [discriminate|]. now intros e w' [= <-]. }
  rewrite Hsp. unfold fails_within. rewrite bind_run.
  unfold if_set, lift, UpdateStoryPoints.
  destruct (Z.ltb_spec points 0); [|lia].
  exists ErrNegativeStoryPoints. split; reflexivity.
Qed.

(** [CreateItem] treats story points that are not positive as zero. *)
Lemma CreateItem_drops_negative_story_points (env : Env)
    (req : CreateItemRequest.t) (w : World) :
  (CreateItemRequest.StoryPoints req ≤ 0)%Z →
  CreateItem env req w
  = CreateItem env
      (CreateItemRequest.mk
         (CreateItemRequest.Type_ req) (CreateItemRequest.Title req)
         (CreateItemRequest.Description req) (CreateItemRequest.ParentID req)
         0%Z (CreateItemRequest.Tags req) (CreateItemRequest.Assignee req)) w.
Proof.
  intros Hsp. destruct req as [ty title desc parent sp tags asg].
  cbn [CreateItemRequest.Type_ CreateItemRequest.Title
       CreateItemRequest.Description CreateItemRequest.ParentID
       CreateItemRequest.StoryPoints CreateItemRequest.Tags
       CreateItemRequest.Assignee] in *.
  unfold CreateItem.
  cbn [CreateItemRequest.Type_ CreateItemRequest.Title
       CreateItemRequest.Description CreateItemRequest.ParentID
       CreateItemRequest.StoryPoints CreateItemRequest.Tags].
  destruct (Z.gtb_spec sp 0) as [Hpos|_]; [lia|]. reflexivity.
Qed.

(** C8. [CreateItem] with minus five story points is not rejected: on the
    empty store it succeeds and persists the story with zero story
    points. *)
Theorem CreateItem_negative_story_points_accepted :
  ∃ item w1,
    CreateItem env0 negative_points_request empty_world = (Ok item, w1)
    ∧ StoryPoints item = 0%Z
    ∧ db.backlog_items (store w1) !! itemUUID env0 = Some item.
Proof. do 2 eexists. vm_compute. repeat split. Qed.

(** C7. A title made of one tab character is accepted: [CreateItem]
    persists a story with it, and [UpdateItem] gives it to a stored item;
    in both cases the stored title is empty once white space is trimmed.
    The entity model alone also takes a title of one space. *)
Theorem whitespace_title_accepted :
  (∃ item w1,
     CreateItem env0 tab_title_request empty_world = (Ok item, w1)
     ∧ db.backlog_items (store w1) !! itemUUID env0 = Some item
     ∧ String.length (trim_whitespace (Title item)) = 0%nat)
  ∧ (∃ item w1 row,
       UpdateItem env0 5%N (retitle tab_title) warm_world = (Ok item, w1)
       ∧ db.backlog_items (store w1) !! 5%N = Some row
       ∧ Title row = tab_title
       ∧ String.length (trim_whitespace (Title row)) = 0%nat)
  ∧ (∃ item,
       NewBacklogItem 1000%Z 1%N ItemTypeStory " " "" = Ok item
       ∧ String.length (trim_whitespace (Title item)) = 0%nat)
  ∧ (∃ item,
       UpdateTitle 1000%Z " " stored_story = Ok item
       ∧ String.length (trim_whitespace (Title item)) = 0%nat).
Proof.
  split; [|split; [|split]].
  - do 2 eexists. vm_compute. repeat split.
  - do 3 eexists. vm_compute. repeat split.
  - eexists. vm_compute. repeat split.
  - eexists. vm_compute. repeat split.
Qed.

(** ** Replaying the event log *)

(** C4. An item that the service creates and then updates twice cannot be
    replayed.  [StoreEvent] files each of the three events under its Go
    type name and without an item id, so [GetEventsByItemID] finds no row
    for the item and [ReplayEvents] answers "no events found", where the
    specification has it return the snapshot of the second update. *)
Theorem ReplayEvents_after_create_and_two_updates :
  ∃ s0 s1 s2 w1 w2 w3,
    CreateItem env0 draft_request empty_world = (Ok s0, w1)
    ∧ UpdateItem env1 (ID s0) (retitle "Final") w1 = (Ok s1, w2)
    ∧ UpdateItem env2 (ID s0) assign_bob w2 = (Ok s2, w3)
    ∧ db.backlog_items (store w3) !! ID s0
      = Some (set_UpdatedAt 1002%Z s2)
    ∧ db.event_type <$> db.events (store w3)
      = [ "*event.ItemCreatedEvent"; "*event.ItemUpdatedEvent";
          "*event.ItemUpdatedEvent" ]
    ∧ db.item_id <$> db.events (store w3) = [None; None; None]
    ∧ db.ReplayEvents 3000%Z (ID s0) (store w3) = Err ErrNoEvents.
Proof.
  do 6 eexists.
  split; [vm_compute; reflexivity|].
  split; [vm_compute; reflexivity|].
  split; [vm_compute; reflexivity|].
  repeat split; vm_compute; reflexivity.
Qed.

(** ** The theorems at work on the sample data *)



(** In the sample store: no item 99; the epic has the feature as a child;
    the story has none. *)
Lemma DeleteItem_cases_witness :
  DeleteItem env0 99%N warm_world = (Err ErrNotFound, warm_world)
  ∧ DeleteItem env0 1%N warm_world = (Err ErrHasChildren, warm_world)
  ∧ ∃ w1, DeleteItem env0 5%N warm_world = (Ok tt, w1)
          ∧ db.backlog_items (store w1) !! 5%N = None
          ∧ GetItem 5%N w1 = (Err ErrNotFound, w1).
Proof.
  split; [|split].
  - apply (DeleteItem_cases env0 99%N warm_world). reflexivity.
  - apply (DeleteItem_cases env0 1%N warm_world).
    + exists stored_epic. reflexivity.
    + exists 7%N, stored_feature. split; reflexivity.
  - apply (DeleteItem_cases env0 5%N warm_world).
    + exists stored_story. reflexivity.
    + intros cid child Hchild. unfold warm_world in Hchild.
      cbn [store db.backlog_items] in Hchild.
      apply lookup_insert_Some in Hchild as [[_ <-]|[_ Hchild]];
        [discriminate|].
      apply lookup_insert_Some in Hchild as [[_ <-]|[_ Hchild]];
        [discriminate|].
      apply lookup_singleton_Some in Hchild as [_ <-]. discriminate.
Defined.

(** A story created with the assignee alice has no assignee; the update
    that assigns the stored story to bob stores bob; and linking the stored
    epic to an external system leaves every assignee as it was. *)
Lemma CreateItem_ignores_assignee_witness :
  (∃ item w1,
     CreateItem env0 assigned_request empty_world = (Ok item, w1)
     ∧ Assignee item = ""
     ∧ db.backlog_items (store w1) !! ID item = Some item)
  ∧ (∃ item w1,
       UpdateItem env0 5%N assign_bob warm_world = (Ok item, w1)
       ∧ Assignee item = "bob"
       ∧ ∃ row, db.backlog_items (store w1) !! ID item = Some row
                ∧ Assignee row = "bob")
  ∧ (∀ k row,
       db.backlog_items
         (store (snd (service.SetExternalID env0 1%N "jira" "UBMM-7"
                        warm_world))) !! k = Some row →
       Assignee row = ""
       ∨ ∃ old, db.backlog_items (store warm_world) !! k = Some old
                ∧ Assignee old = Assignee row).
Proof.
  split; [|split].
  - assert (Hrun : CreateItem env0 assigned_request empty_world
                   = (Ok (built_item env0 assigned_request),
                      created_world env0 (built_item env0 assigned_request)
                        empty_world))
      by (vm_compute; reflexivity).
    exists (built_item env0 assigned_request),
           (created_world env0 (built_item env0 assigned_request) empty_world).
    split; [exact Hrun|].
    exact (proj1 (proj2 (CreateItem_ignores_assignee env0 assigned_request
                           empty_world)) _ _ Hrun).
  - destruct (UpdateItem env0 5%N assign_bob warm_world) as [r w1] eqn:Hrun.
    assert (Hok : r = Ok (set_Assignee "bob" stored_story))
      by (vm_compute in Hrun; injection Hrun as <- _; reflexivity).
    subst r. exists (set_Assignee "bob" stored_story), w1.
    split; [reflexivity|].
    exact (proj1 (proj2 (proj2 (CreateItem_ignores_assignee env0 epic_request
                                  warm_world)))
             5%N assign_bob "bob" _ _ eq_refl Hrun).
  - apply (proj2 (proj2 (proj2 (CreateItem_ignores_assignee env0 epic_request
                                  warm_world)))
             (MSetExternalID 1%N "jira" "UBMM-7")).
    + discriminate.
    + intros k i Hi. unfold warm_world in Hi.
      cbn [store db.backlog_items] in Hi.
      apply lookup_insert_Some in Hi as [[<- <-]|[_ Hi]]; [reflexivity|].
      apply lookup_insert_Some in Hi as [[<- <-]|[_ Hi]]; [reflexivity|].
      apply lookup_singleton_Some in Hi as [<- <-]. reflexivity.
    + vm_compute. reflexivity.
Defined.

(** * Further properties *)

(** ** A failed mutation writes nothing *)

Lemma readonly_GetChildren (id : UUID) : readonly (repo_GetChildren id).
Proof. intros w r w' [= _ <-]. reflexivity. Qed.

Lemma atomic_readonly {A} (m : M A) : readonly m → atomic m.
Proof. intros H w e w'. apply H. Qed.

Lemma atomic_bind {A B} (m : M A) (f : A → M B) :
  readonly m → (∀ a, atomic (f a)) → atomic (m ≫= f).
Proof.
  intros Hm Hf w e w'. rewrite bind_run.
  destruct (m w) as [[a|e'] w0] eqn:Hmw; apply Hm in Hmw as ->.
  - apply Hf.
  - intros [= _ <-]. reflexivity.
Qed.

Lemma atomic_CreateItem (env : Env) (req : CreateItemRequest.t) :
  atomic (CreateItem env req).
Proof.
  unfold CreateItem.
  apply atomic_bind; [solve_readonly|intros i0].
  apply atomic_bind; [destruct (CreateItemRequest.ParentID req); solve_readonly|intros i1].
  apply atomic_bind; [solve_readonly|intros i2].
  intros w e w'. cbv zeta. rewrite CreateItem_tail.
  destruct (db.backlog_items (store w) !! _); [now intros [= _ <-]|].
  destruct (db.row_ok _ _); [discriminate|now intros [= _ <-]].
Qed.

Lemma atomic_UpdateItem (env : Env) (id : UUID) (req : UpdateItemRequest.t) :
  atomic (UpdateItem env id req).
Proof.
  unfold UpdateItem.
  do 9 (apply atomic_bind; [solve_readonly|intros ?]).
  intros w e w'. cbv zeta. rewrite UpdateItem_tail.
  destruct (db.Update _ _ _) as [[[]|e'] d]; [discriminate|now intros [= _ <-]].
Qed.

Lemma atomic_DeleteItem (env : Env) (id : UUID) : atomic (DeleteItem env id).
Proof.
  unfold DeleteItem.
  apply atomic_bind; [solve_readonly|intros item].
  apply atomic_bind; [apply readonly_GetChildren|intros children].
  destruct (0 <? length children)%nat; [apply atomic_readonly; solve_readonly|].
  intros w e w'. rewrite bind_run. unfold repo_Delete, db.Delete.
  destruct (db.backlog_items (store w) !! id).
  - cbv zeta. rewrite notify_run. unfold cache_Delete.
    rewrite bind_run, invalidateListCache_run. discriminate.
  - intros [= _ <-]. now destruct w.
Qed.

Lemma atomic_SetExternalID (env : Env) (id : UUID) (system externalID : string) :
  atomic (service.SetExternalID env id system externalID).
Proof.
  unfold service.SetExternalID.
  apply atomic_bind; [solve_readonly|intros item].
  intros w e w'. cbv zeta. rewrite bind_run. unfold repo_Update.
  assert (Hfail : ∀ e d i, db.Update (now env) i (store w) = (Err e, d) →
                           d = store w).
  { unfold db.Update. intros e0 d i.
    destruct (db.backlog_items (store w) !! ID i); [|now intros [= _ <-]].
    destruct (db.row_ok _ _); [discriminate|now intros [= _ <-]]. }
  destruct (db.Update _ _ _) as [[[]|e'] d] eqn:Hupd.
  - rewrite notify_run. discriminate.
  - intros [= _ <-]. rewrite (Hfail _ _ _ Hupd). now destruct w.
Qed.

(** A mutation that fails has written nothing: the store, the cache, the
    bus and the log are as they were. *)
Theorem failed_mutation_writes_nothing (env : Env) (m : Mutation)
    (w w' : World) (e : Error) :
  run_mutation env m w = (Err e, w') → w' = w.
Proof.
  destruct m as [req|id req|id|reqs|id sys ext]; cbn [run_mutation].
  - rewrite bind_run.
    destruct (CreateItem env req w) as [[a|e'] w0] eqn:H; [discriminate|].
    intros [= _ <-]. exact (atomic_CreateItem env req _ _ _ H).
  - rewrite bind_run.
    destruct (UpdateItem env id req w) as [[a|e'] w0] eqn:H; [discriminate|].
    intros [= _ <-]. exact (atomic_UpdateItem env id req _ _ _ H).
  - apply atomic_DeleteItem.
  - destruct (ReorderItems_run env reqs w) as (w1 & -> & _). discriminate.
  - apply atomic_SetExternalID.
Qed.

(** The sample deletion of the epic fails, and nothing was written. *)
Lemma failed_mutation_writes_nothing_witness :
  snd (run_mutation env0 (MDeleteItem 1%N) warm_world) = warm_world.
Proof.
  apply (failed_mutation_writes_nothing env0 (MDeleteItem 1%N) warm_world
           _ ErrHasChildren).
  vm_compute. reflexivity.
Defined.

(** ** Failures of the event store and the bus do not show in the outcome *)

Lemma agree_refl (w : World) : agree w w.
Proof. split; reflexivity. Qed.

Lemma alike_bind {A B} (m m' : M A) (f f' : A → M B) :
  alike m m' → (∀ a, alike (f a) (f' a)) → alike (m ≫= f) (m' ≫= f').
Proof.
  intros Hm Hf w w' Hag. rewrite !bind_run.
  destruct (Hm w w' Hag) as [Hr Ha].
  destruct (m w) as [[a|e] w0], (m' w') as [[a'|e'] w0'];
    cbn [fst snd] in *; try discriminate.
  - injection Hr as <-. now apply Hf.
  - injection Hr as <-. split; [reflexivity|assumption].
Qed.

Lemma alike_mret {A} (a : A) : alike (mret a) (mret a).
Proof. intros w w' Hag. split; [reflexivity|exact Hag]. Qed.

Lemma alike_fail {A} (e : Error) : alike (fail e : M A) (fail e).
Proof. intros w w' Hag. split; [reflexivity|exact Hag]. Qed.

Lemma alike_lift {A} (r : Result A) : alike (lift r) (lift r).
Proof. intros w w' Hag. split; [reflexivity|exact Hag]. Qed.

Lemma alike_GetByID (id : UUID) : alike (repo_GetByID id) (repo_GetByID id).
Proof.
  intros w w' [Hi Hc]. unfold repo_GetByID, db.GetByID. rewrite Hi.
  split; [reflexivity|split; assumption].
Qed.

Lemma alike_GetChildren (id : UUID) :
  alike (repo_GetChildren id) (repo_GetChildren id).
Proof.
  intros w w' [Hi Hc]. unfold repo_GetChildren, db.GetChildren. rewrite Hi.
  split; [reflexivity|split; assumption].
Qed.

Lemma alike_Create (item : BacklogItem) :
  alike (repo_Create item) (repo_Create item).
Proof.
  intros w w' [Hi Hc]. unfold repo_Create, db.Create. rewrite Hi.
  destruct (db.backlog_items (store w') !! ID item);
    [split; [reflexivity|split; assumption]|].
  destruct (db.row_ok _ _); (split; [reflexivity|split; cbn; congruence]).
Qed.

Lemma alike_Update (env env' : Env) (item : BacklogItem) :
  now env = now env' → alike (repo_Update env item) (repo_Update env' item).
Proof.
  intros Hnow w w' [Hi Hc]. unfold repo_Update, db.Update. rewrite Hi, Hnow.
  destruct (db.backlog_items (store w') !! ID item);
    [|split; [reflexivity|split; assumption]].
  destruct (db.row_ok _ _); (split; [reflexivity|split; cbn; congruence]).
Qed.

Lemma alike_Delete (id : UUID) : alike (repo_Delete id) (repo_Delete id).
Proof.
  intros w w' [Hi Hc]. unfold repo_Delete, db.Delete. rewrite Hi.
  destruct (db.backlog_items (store w') !! id);
    (split; [reflexivity|split; cbn; congruence]).
Qed.

Lemma alike_UpdatePriorities (env env' : Env) (p : gmap UUID Z) :
  now env = now env' →
  alike (repo_UpdatePriorities env p) (repo_UpdatePriorities env' p).
Proof.
  intros Hnow w w' [Hi Hc]. unfold repo_UpdatePriorities, db.UpdatePriorities.
  cbn. rewrite Hi, Hnow. split; [reflexivity|split; [reflexivity|assumption]].
Qed.

Lemma alike_cache_Delete (key : string) :
  alike (cache_Delete key) (cache_Delete key).
Proof.
  intros w w' [Hi Hc]. unfold cache_Delete. cbn. rewrite Hc.
  split; [reflexivity|split; [assumption|reflexivity]].
Qed.

Lemma alike_invalidateListCache : alike invalidateListCache invalidateListCache.
Proof.
  unfold invalidateListCache.
  apply alike_bind; [apply alike_cache_Delete|intros _; apply alike_cache_Delete].
Qed.

Lemma alike_if_set {A} (field : option A)
    (f : A → BacklogItem → M BacklogItem) (item : BacklogItem) :
  (∀ v i, alike (f v i) (f v i)) → alike (if_set field f item) (if_set field f item).
Proof. intros Hf. destruct field; [apply Hf|apply alike_mret]. Qed.

(** The four notification steps in front of two continuations that are
    alike: whether the event store and the bus fail makes no difference. *)
Lemma alike_notify {A} (env env' : Env) (e : event.DomainEvent)
    (topic m1 m2 : string) (k k' : M A) :
  alike k k' →
  alike (err ← eventRepo_StoreEvent env e;
         log_if_error err m1;;
         err ← eventPublisher_Publish env topic e;
         log_if_error err m2;;
         k)
        (err ← eventRepo_StoreEvent env' e;
         log_if_error err m1;;
         err ← eventPublisher_Publish env' topic e;
         log_if_error err m2;;
         k').
Proof.
  intros Hk w w' [Hi Hc]. rewrite !notify_run. apply Hk.
  split; [now rewrite !notified_items|now rewrite !notified_cache].
Qed.

Ltac solve_alike :=
  repeat (intros;
          first [ apply alike_mret | apply alike_fail | apply alike_lift
                | apply alike_GetByID | apply alike_GetChildren
                | apply alike_Create | apply alike_Delete
                | apply alike_cache_Delete | apply alike_invalidateListCache
                | apply alike_if_set | apply alike_notify | apply alike_bind
                | match goal with
                  | |- alike (if ?b then _ else _) (if ?b then _ else _) =>
                      destruct b
                  | |- alike (match ?x with _ => _ end)
                             (match ?x with _ => _ end) => destruct x
                  end ]).

(** Whether the event store and the bus fail during a mutation changes
    neither what the mutation returns nor the items and the cache it
    leaves. *)
Theorem notification_failures_do_not_show (env : Env) (m : Mutation)
    (storeFails publishFails : bool) (w : World) :
  let plain := run_mutation env m w in
  let other := run_mutation (with_failures storeFails publishFails env) m w in
  fst other = fst plain
  ∧ db.backlog_items (store (snd other)) = db.backlog_items (store (snd plain))
  ∧ cache (snd other) = cache (snd plain).
Proof.
  cbv zeta.
  assert (H : alike (run_mutation (with_failures storeFails publishFails env) m)
                    (run_mutation env m)).
  { destruct m as [req|id req|id|reqs|id sys ext]; cbn [run_mutation].
    - unfold CreateItem. cbn [with_failures now itemUUID eventUUID]. solve_alike.
    - unfold UpdateItem. cbn [with_failures now itemUUID eventUUID].
      solve_alike. all: try (apply alike_Update; reflexivity).
    - unfold DeleteItem. cbn [with_failures now itemUUID eventUUID]. solve_alike.
    - unfold ReorderItems. cbn [with_failures now itemUUID eventUUID].
      solve_alike. all: try (apply alike_UpdatePriorities; reflexivity).
    - unfold service.SetExternalID. cbn [with_failures now itemUUID eventUUID].
      solve_alike. all: try (apply alike_Update; reflexivity). }
  destruct (H w w (agree_refl w)) as (Hr & Hi & Hc). auto.
Qed.

(** ** What a mutation hands to the bus and to the log *)

Lemma DeleteItem_world (env : Env) (id : UUID) (w w1 : World) :
  DeleteItem env id w = (Ok tt, w1) →
  ∃ item, db.backlog_items (store w) !! id = Some item
          ∧ db.GetChildren id (store w) = []
          ∧ w1 = deleted_world env id item w.
Proof.
  unfold DeleteItem. intros H.
  apply bind_Ok in H as (item & w0 & H0 & H).
  pose proof H0 as H0'. apply readonly_GetByID in H0' as ->.
  unfold repo_GetByID, db.GetByID in H0.
  destruct (db.backlog_items (store w) !! id) as [i|] eqn:Hi; [|discriminate].
  injection H0 as <-.
  rewrite bind_run in H. unfold repo_GetChildren in H.
  destruct (db.GetChildren id (store w)) as [|c l] eqn:Hc; [|discriminate].
  cbn [length Nat.ltb Nat.leb] in H.
  rewrite bind_run in H. unfold repo_Delete, db.Delete in H. rewrite Hi in H.
  cbv zeta in H. rewrite notify_run in H. unfold cache_Delete in H.
  rewrite bind_run, invalidateListCache_run in H. injection H as <-.
  exists i. repeat split.
Qed.

Lemma SetExternalID_world (env : Env) (id : UUID) (system externalID : string)
    (w w1 : World) :
  service.SetExternalID env id system externalID w = (Ok tt, w1) →
  ∃ item d,
    db.backlog_items (store w) !! id = Some item
    ∧ db.Update (now env)
        (model.SetExternalID (now env) system externalID item) (store w)
      = (Ok tt, d)
    ∧ w1 = linked_world env id item system externalID d w.
Proof.
  unfold service.SetExternalID. intros H.
  apply bind_Ok in H as (item & w0 & H0 & H).
  pose proof H0 as H0'. apply readonly_GetByID in H0' as ->.
  unfold repo_GetByID, db.GetByID in H0.
  destruct (db.backlog_items (store w) !! id) as [i|] eqn:Hi; [|discriminate].
  injection H0 as <-.
  cbv zeta in H. rewrite bind_run in H. unfold repo_Update in H.
  destruct (db.Update _ _ _) as [[[]|e] d] eqn:Hupd; [|discriminate].
  rewrite notify_run in H. unfold cache_Delete in H. injection H as <-.
  exists i, d. split; [reflexivity|]. split; [exact Hupd|reflexivity].
Qed.

Lemma ReorderItems_world (env : Env) (r : ReorderRequest.t)
    (rs : list ReorderRequest.t) (w : World) :
  ReorderItems env (r :: rs) w = (Ok tt, reordered_world env (r :: rs) w).
Proof.
  unfold ReorderItems. cbn [length Nat.eqb]. cbv zeta.
  rewrite bind_run. unfold repo_UpdatePriorities.
  rewrite notify_run, invalidateListCache_run. reflexivity.
Qed.

Lemma notified_published env e topic m1 m2 w :
  published (notified env e topic m1 m2 w)
  = (published w ++ (if publishFails env then [] else [(topic, e)]))%list.
Proof.
  unfold notified.
  destruct (storeEventFails env), (publishFails env); cbn;
    now rewrite ?app_nil_r.
Qed.

Lemma notified_logged env e topic m1 m2 w :
  logged (notified env e topic m1 m2 w)
  = (logged w ++ (if storeEventFails env then [m1] else [])
              ++ (if publishFails env then [m2] else []))%list.
Proof.
  unfold notified.
  destruct (storeEventFails env), (publishFails env); cbn;
    now rewrite ?app_nil_r, <- ?app_assoc.
Qed.

(** A successful mutation hands the bus one message, on the topic of its
    kind, with an event of its kind that carries the call's event id and
    time; when the bus fails it hands over nothing.  The log gets one line
    for a failing event store and one for a failing bus, and no other.
    [ReorderItems] of no request publishes and logs nothing. *)
Theorem mutation_publishes_once (env : Env) (m : Mutation) (w w1 : World) :
  run_mutation env m w = (Ok tt, w1) →
  if returns_at_once m
  then published w1 = published w ∧ logged w1 = logged w
  else ∃ e msgStore msgPublish,
         event_made m e env
         ∧ published w1
           = (published w
              ++ (if publishFails env then [] else [(topic_of m, e)]))%list
         ∧ logged w1
           = (logged w ++ (if storeEventFails env then [msgStore] else [])
                       ++ (if publishFails env then [msgPublish] else []))%list.
Proof.
  destruct m as [req|id req|id|reqs|id sys ext];
    cbn [run_mutation returns_at_once topic_of].
  - intros H. apply bind_Ok in H as (item & w0 & H & [= <-]).
    apply CreateItem_Ok in H as (_ & _ & _ & _ & _ & _ & ->).
    do 3 eexists. unfold created_world. cbn [published logged].
    rewrite notified_published, notified_logged.
    split; [|split; reflexivity]. repeat split.
  - intros H. apply bind_Ok in H as (item & w0 & H & [= <-]).
    apply UpdateItem_Ok in H as (d & _ & -> & _).
    do 3 eexists. unfold updated_world. cbn [published logged].
    rewrite notified_published, notified_logged.
    split; [|split; reflexivity]. repeat split.
  - intros H. apply DeleteItem_world in H as (item & _ & _ & ->).
    do 3 eexists. unfold deleted_world. cbn [published logged].
    rewrite notified_published, notified_logged.
    split; [|split; reflexivity]. repeat split.
  - destruct reqs as [|r rs].
    + intros [= <-]. split; reflexivity.
    + rewrite ReorderItems_world. intros [= <-].
      do 3 eexists. unfold reordered_world. cbn [published logged].
      rewrite notified_published, notified_logged.
      split; [|split; reflexivity]. repeat split.
  - intros H. apply SetExternalID_world in H as (item & d & _ & _ & ->).
    do 3 eexists. unfold linked_world. cbn [published logged].
    rewrite notified_published, notified_logged.
    split; [|split; reflexivity]. repeat split.
Qed.

(** A successful [SetExternalID] on the sample epic publishes one event. *)
Lemma mutation_publishes_once_witness :
  let m := MSetExternalID 1%N "jira" "UBMM-7" in
  let w1 := snd (run_mutation env0 m warm_world) in
  ∃ e msgStore msgPublish,
    event_made m e env0
    ∧ published w1
      = (published warm_world
         ++ (if publishFails env0 then [] else [(topic_of m, e)]))%list
    ∧ logged w1
      = (logged warm_world
         ++ (if storeEventFails env0 then [msgStore] else [])
         ++ (if publishFails env0 then [msgPublish] else []))%list.
Proof.
  intros m w1.
  apply (mutation_publishes_once env0 m warm_world w1).
  vm_compute. reflexivity.
Defined.

(** ** The event table as the service fills it *)

Lemma notified_events env e topic m1 m2 w :
  db.events (store (notified env e topic m1 m2 w))
  = (db.events (store w)
     ++ (if storeEventFails env then []
         else [db.mkRow (rowUUID env) (db.go_type_name e) None
                        (db.marshal e) (now env)]))%list.
Proof.
  unfold notified.
  destruct (storeEventFails env), (publishFails env); cbn;
    now rewrite ?app_nil_r.
Qed.

(** No row that [StoreEvent] writes is a row of an item. *)
Lemma notified_item_rows env e topic m1 m2 w (id : UUID) :
  filter (λ r, db.item_id r = Some id)
         (db.events (store (notified env e topic m1 m2 w)))
  = filter (λ r, db.item_id r = Some id) (db.events (store w)).
Proof.
  rewrite notified_events, filter_app.
  destruct (storeEventFails env); cbn; now rewrite app_nil_r.
Qed.

Lemma Update_events (now : Time) (item : BacklogItem) (d d' : db.Database) :
  db.Update now item d = (Ok tt, d') → db.events d' = db.events d.
Proof.
  unfold db.Update.
  destruct (db.backlog_items d !! ID item); [|discriminate].
  destruct (db.row_ok _ _); [|discriminate]. now intros [= <-].
Qed.

(** The rows of one item among the rows that are not those of another. *)
Lemma item_rows_after_cascade (id id' : UUID) (rows : list db.EventRow) :
  filter (λ r, db.item_id r = Some id)
         (filter (λ r, db.item_id r ≠ Some id') rows)
  = if bool_decide (id' = id) then []
    else filter (λ r, db.item_id r = Some id) rows.
Proof.
  induction rows as [|r rows IH]; [now destruct (bool_decide _)|].
  rewrite (filter_cons (λ r, db.item_id r ≠ Some id')).
  rewrite (filter_cons (λ r, db.item_id r = Some id) r rows).
  destruct (decide (db.item_id r ≠ Some id')) as [Hne|Heq].
  - rewrite filter_cons, IH.
    destruct (decide (db.item_id r = Some id)) as [Hid|Hid];
      [|reflexivity].
    rewrite bool_decide_eq_false_2; [reflexivity|]. congruence.
  - rewrite IH. apply dec_stable in Heq.
    destruct (bool_decide_reflect (id' = id)) as [->|Hne]; [reflexivity|].
    rewrite decide_False; [reflexivity|]. congruence.
Qed.

Lemma item_rows_after_mutation (env : Env) (m : Mutation) (w w1 : World)
    (id : UUID) :
  run_mutation env m w = (Ok tt, w1) →
  filter (λ r, db.item_id r = Some id) (db.events (store w1))
  = if erases m id then []
    else filter (λ r, db.item_id r = Some id) (db.events (store w)).
Proof.
  destruct m as [req|id' req|id'|reqs|id' sys ext];
    cbn [run_mutation erases].
  - intros H. apply bind_Ok in H as (item & w0 & H & [= <-]).
    apply CreateItem_Ok in H as (_ & _ & _ & _ & _ & _ & ->).
    unfold created_world. cbn [store]. now rewrite notified_item_rows.
  - intros H. apply bind_Ok in H as (item & w0 & H & [= <-]).
    apply UpdateItem_Ok in H as (d & Hupd & -> & _).
    unfold updated_world. cbn [store]. rewrite notified_item_rows.
    cbn [store with_store]. now rewrite (Update_events _ _ _ _ Hupd).
  - intros H. apply DeleteItem_world in H as (item & _ & _ & ->).
    unfold deleted_world. cbn [store]. rewrite notified_item_rows.
    cbn [store with_store db.events]. apply item_rows_after_cascade.
  - destruct reqs as [|r rs]; [now intros [= <-]|].
    rewrite ReorderItems_world. intros [= <-].
    unfold reordered_world. cbn [store]. now rewrite notified_item_rows.
  - intros H. apply SetExternalID_world in H as (item & d & _ & Hupd & ->).
    unfold linked_world. cbn [store]. rewrite notified_item_rows.
    cbn [store with_store]. now rewrite (Update_events _ _ _ _ Hupd).
Qed.

(** The rows the service writes to the event table carry no item id: after
    a successful mutation [GetEventsByItemID] finds for an item what it
    found before, and nothing for an item the mutation has deleted, whose
    rows go with it. *)
Theorem mutation_adds_no_item_events (env : Env) (m : Mutation)
    (w w1 : World) (id : UUID) :
  run_mutation env m w = (Ok tt, w1) →
  db.GetEventsByItemID id (store w1)
  = if erases m id then Ok [] else db.GetEventsByItemID id (store w).
Proof.
  intros H. unfold db.GetEventsByItemID.
  rewrite (item_rows_after_mutation _ _ _ _ id H).
  now destruct (erases m id).
Qed.

(** An item the service has just created cannot be replayed: with no row
    for its id in the event table before, [ReplayEvents] fails with "no
    events found" afterwards, although the created event has been
    stored. *)
Theorem created_item_has_no_events (env : Env) (req : CreateItemRequest.t)
    (w w1 : World) (item : BacklogItem) (now' : Time) :
  CreateItem env req w = (Ok item, w1) →
  filter (λ r, db.item_id r = Some (ID item)) (db.events (store w)) = [] →
  db.ReplayEvents now' (ID item) (store w1) = Err ErrNoEvents
  ∧ (storeEventFails env = false →
     length (db.events (store w1)) = S (length (db.events (store w)))).
Proof.
  intros H Hnone.
  assert (Hrun : run_mutation env (MCreateItem req) w = (Ok tt, w1)).
  { cbn [run_mutation]. rewrite bind_run, H. reflexivity. }
  split.
  - unfold db.ReplayEvents, db.GetEventsByItemID.
    rewrite (item_rows_after_mutation _ _ _ _ (ID item) Hrun).
    cbn [erases]. rewrite Hnone. reflexivity.
  - intros Hok.
    apply CreateItem_Ok in H as (_ & _ & _ & _ & _ & _ & ->).
    unfold created_world. cbn [store]. rewrite notified_events, Hok.
    cbn [store with_store db.events]. rewrite length_app. cbn. lia.
Qed.

(** ** Replaying: errors *)

Lemma insert_by_Permutation {A} (key : A → Z) (x : A) (l : list A) :
  insert_by key x l ≡ₚ x :: l.
Proof.
  induction l as [|y l IH]; simpl; [reflexivity|].
  destruct (key x <=? key y)%Z; [reflexivity|].
  rewrite IH. apply perm_swap.
Qed.

Lemma sort_by_Permutation_self {A} (key : A → Z) (l : list A) :
  sort_by key l ≡ₚ l.
Proof.
  unfold sort_by. induction l as [|x l IH]; simpl; [reflexivity|].
  now rewrite insert_by_Permutation, IH.
Qed.

Lemma decode_Ok_iff (r : db.EventRow) :
  (∃ ev, db.decode r = Ok ev) ↔ db.event_type r ∈ decodable_types.
Proof.
  unfold db.decode, decodable_types. rewrite !elem_of_cons, elem_of_nil.
  destruct (String.eqb_spec (db.event_type r) event.EventTypeItemCreated);
    [split; eauto|].
  destruct (String.eqb_spec (db.event_type r) event.EventTypeItemUpdated);
    [split; eauto|].
  destruct (String.eqb_spec (db.event_type r) event.EventTypeItemDeleted);
    [split; eauto|].
  destruct (String.eqb_spec (db.event_type r) event.EventTypeExternalIDSet);
    [split; eauto 6|].
  split; [intros [ev H]; discriminate|intuition].
Qed.

Lemma decode_Err (r : db.EventRow) (e : Error) :
  db.decode r = Err e → e = ErrUnknownEventType.
Proof.
  unfold db.decode.
  repeat match goal with
         | |- context [String.eqb ?a ?b] => destruct (String.eqb a b)
         end; congruence.
Qed.

(** One row of an unknown type spoils the whole query. *)
Lemma decode_rows_unknown (rows : list db.EventRow) (r : db.EventRow) :
  r ∈ rows → db.event_type r ∉ decodable_types →
  db.decode_rows rows = Err ErrUnknownEventType.
Proof.
  intros Hin Hty. induction rows as [|r' rows IH]; [inversion Hin|].
  simpl. destruct (db.decode r') as [ev|e] eqn:Hd.
  - apply elem_of_cons in Hin as [->|Hin].
    + exfalso. apply Hty. apply decode_Ok_iff. eauto.
    + now rewrite IH.
  - now rewrite (decode_Err _ _ Hd).
Qed.

(** Rows of decodable types decode, one event a row, and a row that is
    not of type ITEM_CREATED gives no created event. *)
Lemma decode_rows_no_created (rows : list db.EventRow) :
  Forall (λ r, db.event_type r ∈ decodable_types
               ∧ db.event_type r ≠ event.EventTypeItemCreated) rows →
  ∃ evs, db.decode_rows rows = Ok evs
         ∧ length evs = length rows
         ∧ db.find_created evs = None.
Proof.
  induction 1 as [|r rows [Hty Hnc] _ (evs & Hevs & Hlen & Hfc)]; simpl.
  - exists []. repeat split.
  - rewrite Hevs. unfold decodable_types in Hty.
    rewrite !elem_of_cons, elem_of_nil in Hty.
    unfold db.decode.
    destruct (String.eqb_spec (db.event_type r) event.EventTypeItemCreated);
      [contradiction|].
    destruct Hty as [?|[->|[->|[->|[]]]]]; [contradiction| | |];
      cbn; eexists; (split; [reflexivity|]); cbn; auto.
Qed.

(** [ReplayEvents] fails with "no events found" when the table has no row
    for the item, with "unknown event type" as soon as one row of the item
    has a type the query cannot decode (ITEMS_REORDERED is one), and with
    "created event not found" when the item has rows, all decodable, and
    none of type ITEM_CREATED. *)
Theorem ReplayEvents_errors (now : Time) (itemID : UUID) (d : db.Database) :
  let rows := filter (λ r, db.item_id r = Some itemID) (db.events d) in
  (rows = [] → db.ReplayEvents now itemID d = Err ErrNoEvents)
  ∧ ((∃ r, r ∈ rows ∧ db.event_type r ∉ decodable_types) →
     db.ReplayEvents now itemID d = Err ErrUnknownEventType)
  ∧ (rows ≠ [] →
     (∀ r, r ∈ rows →
           db.event_type r ∈ decodable_types
           ∧ db.event_type r ≠ event.EventTypeItemCreated) →
     db.ReplayEvents now itemID d = Err ErrNoCreatedEvent).
Proof.
  intros rows. unfold db.ReplayEvents, db.GetEventsByItemID. fold rows.
  split; [|split].
  - intros ->. reflexivity.
  - intros (r & Hin & Hty).
    rewrite (decode_rows_unknown _ r); [reflexivity| |assumption].
    now rewrite sort_by_Permutation_self.
  - intros Hne Hall.
    destruct (decode_rows_no_created (sort_by db.created_at rows))
      as (evs & -> & Hlen & ->).
    { apply Forall_forall. intros r Hr. apply Hall.
      now rewrite sort_by_Permutation_self in Hr. }
    rewrite bool_decide_eq_false_2; [reflexivity|].
    rewrite Hlen, sort_by_length. destruct rows; [contradiction|discriminate].
Qed.

(** ** Replaying: the last update wins *)

(** Events without an empty update, whose items carry a map of external
    ids, replay without a panic from an item that carries one. *)
Lemma replay_no_panic (now : Time) (evs : list db.Decoded)
    (i : BacklogItem) :
  Forall (λ e, is_empty_update e = false ∧ has_ids e = true) evs →
  ∃ i', foldl (db.apply_event now) (Ok (i, false)) evs = Ok (i', false).
Proof.
  intros H. revert i. induction H as [|e evs [He Hids] _ IH]; intros i.
  - cbn. eauto.
  - cbn [foldl].
    destruct e as [[b id it|b id [s|]|b id it|b m|b id sys ext] [|]];
      try discriminate; apply IH.
Qed.

Lemma replay_Err (now : Time) (evs : list db.Decoded) (e : Error) :
  foldl (db.apply_event now) (Err e) evs = Err e.
Proof. induction evs as [|ev evs IH]; [reflexivity|exact IH]. Qed.

(** After the last update only the external ids are still applied, the
    first of them to a map that may be nil. *)
Lemma replay_without_update (now : Time) (evs : list db.Decoded)
    (i : BacklogItem) (nilIDs : bool) :
  Forall (λ e, is_update e = false) evs →
  match foldl (db.apply_event now) (Ok (i, nilIDs)) evs with
  | Ok (i', _) => Ok i'
  | Err e => Err e
  end
  = upserted now (external_ids evs) i nilIDs.
Proof.
  intros H. revert i nilIDs.
  induction H as [|e evs He _ IH]; intros i nilIDs; [reflexivity|].
  cbn [foldl].
  destruct e as [[b id it|b id it|b id it|b m|b id sys ext] f];
    try discriminate;
    try (cbn [db.apply_event]; rewrite IH; reflexivity).
  cbn [db.apply_event]. destruct nilIDs.
  - rewrite replay_Err. reflexivity.
  - rewrite IH.
    change (external_ids ((event.ExternalIDSetEvent b id sys ext, f) :: evs))
      with ((sys, ext) :: external_ids evs).
    unfold upserted. destruct (external_ids evs); reflexivity.
Qed.

(** For an event table that holds rows under the id of an item, of which
    one is a created event with its item: the replay returns the snapshot
    of the last update event, with the external ids set after it upserted
    one after the other, or panics at the first of these when the
    snapshot was stored without a map of external ids.  What came before
    that update does not show, and neither do deleted events nor further
    created events.  Without any update event it is the snapshot of the
    first created event that the external ids are upserted into. *)
Theorem ReplayEvents_last_update (now : Time) (itemID : UUID)
    (d : db.Database) (evs : list db.Decoded) (s0 : BacklogItem)
    (nil0 : bool) :
  db.GetEventsByItemID itemID d = Ok evs →
  db.find_created evs = Some (s0, nil0) →
  (∀ before b id s nilIDs after,
     evs = (before ++ (event.ItemUpdatedEvent b id (Some s), nilIDs)
                   :: after)%list →
     nil0 = false →
     Forall (λ e, is_empty_update e = false ∧ has_ids e = true) before →
     Forall (λ e, is_update e = false) after →
     db.ReplayEvents now itemID d
     = upserted now (external_ids after) s nilIDs)
  ∧ (Forall (λ e, is_update e = false) evs →
     db.ReplayEvents now itemID d = upserted now (external_ids evs) s0 nil0).
Proof.
  intros Hevs Hcreated. unfold db.ReplayEvents. rewrite Hevs, Hcreated.
  assert (Hlen : bool_decide (length evs = 0%nat) = false).
  { apply bool_decide_eq_false_2. destruct evs; [discriminate|discriminate]. }
  rewrite Hlen. split.
  - intros before b id s nilIDs after -> -> Hbefore Hafter.
    rewrite foldl_app.
    destruct (replay_no_panic now before s0 Hbefore) as [i' ->].
    cbn [foldl db.apply_event]. now apply replay_without_update.
  - now apply replay_without_update.
Qed.

(** ** Updating: what each step of [UpdateItem] changes *)

Lemma AddTag_frame_rest now tag i :
  Description (AddTag now tag i) = Description i
  ∧ CreatedAt (AddTag now tag i) = CreatedAt i.
Proof. unfold AddTag. destruct (existsb _ _); repeat split. Qed.

(** The tags after adding a list of tags to a list, as [AddTag] does it. *)
Lemma Tags_add_tags (now : Time) (tags : list string) (i : BacklogItem) :
  Tags (add_tags now tags i) = tags_added tags (Tags i).
Proof.
  unfold add_tags, tags_added. revert i.
  induction tags as [|t tags IH]; intros i; simpl; [reflexivity|].
  rewrite IH. unfold AddTag. now destruct (existsb _ _).
Qed.

Lemma step_title (env : Env) (field : option string) (i i' : BacklogItem)
    (w w' : World) :
  if_set field (λ v i, lift (UpdateTitle (now env) v i)) i w = (Ok i', w') →
  ID i' = ID i
  ∧ Type_ i' = Type_ i
  ∧ ParentID i' = ParentID i
  ∧ Description i' = Description i
  ∧ StoryPoints i' = StoryPoints i
  ∧ Status i' = Status i
  ∧ Priority i' = Priority i
  ∧ Assignee i' = Assignee i
  ∧ Tags i' = Tags i
  ∧ CreatedAt i' = CreatedAt i
  ∧ ExternalIDs i' = ExternalIDs i
  ∧ Title i' = default (Title i) field
  ∧ (∀ t, field = Some t → t ≠ "").
Proof.
  destruct field as [t|]; cbn.
  - unfold lift, UpdateTitle. destruct (String.eqb_spec t ""); [discriminate|].
    intros [= <-]. repeat split. now intros ? [= <-].
  - intros [= <-]. repeat split. discriminate.
Qed.

Lemma step_description (env : Env) (field : option string) (i i' : BacklogItem)
    (w w' : World) :
  if_set field (λ v i, mret (UpdateDescription (now env) v i)) i w = (Ok i', w') →
  ID i' = ID i
  ∧ Type_ i' = Type_ i
  ∧ ParentID i' = ParentID i
  ∧ Title i' = Title i
  ∧ StoryPoints i' = StoryPoints i
  ∧ Status i' = Status i
  ∧ Priority i' = Priority i
  ∧ Assignee i' = Assignee i
  ∧ Tags i' = Tags i
  ∧ CreatedAt i' = CreatedAt i
  ∧ ExternalIDs i' = ExternalIDs i
  ∧ Description i' = default (Description i) field.
Proof.
  destruct field as [t|]; cbn; intros [= <-]; repeat split.
Qed.

Lemma step_status (env : Env) (field : option ItemStatus) (i i' : BacklogItem)
    (w w' : World) :
  if_set field (λ v i, lift (UpdateStatus (now env) v i)) i w = (Ok i', w') →
  ID i' = ID i
  ∧ Type_ i' = Type_ i
  ∧ ParentID i' = ParentID i
  ∧ Title i' = Title i
  ∧ Description i' = Description i
  ∧ StoryPoints i' = StoryPoints i
  ∧ Priority i' = Priority i
  ∧ Assignee i' = Assignee i
  ∧ Tags i' = Tags i
  ∧ CreatedAt i' = CreatedAt i
  ∧ ExternalIDs i' = ExternalIDs i
  ∧ Status i' = default (Status i) field
  ∧ (∀ s, field = Some s → isValidItemStatus s = true).
Proof.
  destruct field as [s|]; cbn.
  - unfold lift, UpdateStatus. destruct (isValidItemStatus s) eqn:Hs; [|discriminate].
    intros [= <-]. repeat split. now intros ? [= <-].
  - intros [= <-]. repeat split. discriminate.
Qed.

Lemma step_story_points (env : Env) (field : option Z) (i i' : BacklogItem)
    (w w' : World) :
  if_set field (λ v i, lift (UpdateStoryPoints (now env) v i)) i w = (Ok i', w') →
  ID i' = ID i
  ∧ Type_ i' = Type_ i
  ∧ ParentID i' = ParentID i
  ∧ Title i' = Title i
  ∧ Description i' = Description i
  ∧ Status i' = Status i
  ∧ Priority i' = Priority i
  ∧ Assignee i' = Assignee i
  ∧ Tags i' = Tags i
  ∧ CreatedAt i' = CreatedAt i
  ∧ ExternalIDs i' = ExternalIDs i
  ∧ StoryPoints i' = default (StoryPoints i) field
  ∧ (∀ p, field = Some p → (0 ≤ p)%Z).
Proof.
  destruct field as [p|]; cbn.
  - unfold lift, UpdateStoryPoints. destruct (Z.ltb_spec p 0); [discriminate|].
    intros [= <-]. repeat split. now intros ? [= <-].
  - intros [= <-]. repeat split. discriminate.
Qed.

Lemma step_priority (env : Env) (field : option Z) (i i' : BacklogItem)
    (w w' : World) :
  if_set field (λ v i, mret (UpdatePriority (now env) v i)) i w = (Ok i', w') →
  ID i' = ID i
  ∧ Type_ i' = Type_ i
  ∧ ParentID i' = ParentID i
  ∧ Title i' = Title i
  ∧ Description i' = Description i
  ∧ StoryPoints i' = StoryPoints i
  ∧ Status i' = Status i
  ∧ Assignee i' = Assignee i
  ∧ Tags i' = Tags i
  ∧ CreatedAt i' = CreatedAt i
  ∧ ExternalIDs i' = ExternalIDs i
  ∧ Priority i' = default (Priority i) field.
Proof.
  destruct field as [t|]; cbn; intros [= <-]; repeat split.
Qed.

Lemma step_assignee (env : Env) (field : option string) (i i' : BacklogItem)
    (w w' : World) :
  if_set field (λ v i, mret (set_Assignee v i)) i w = (Ok i', w') →
  ID i' = ID i
  ∧ Type_ i' = Type_ i
  ∧ ParentID i' = ParentID i
  ∧ Title i' = Title i
  ∧ Description i' = Description i
  ∧ StoryPoints i' = StoryPoints i
  ∧ Status i' = Status i
  ∧ Priority i' = Priority i
  ∧ Tags i' = Tags i
  ∧ CreatedAt i' = CreatedAt i
  ∧ ExternalIDs i' = ExternalIDs i
  ∧ Assignee i' = default (Assignee i) field.
Proof.
  destruct field as [t|]; cbn; intros [= <-]; repeat split.
Qed.

Lemma step_tags (env : Env) (field : option (list string))
    (i i' : BacklogItem) (w w' : World) :
  if_set field (λ tags i, mret (add_tags (now env) tags (set_Tags [] i))) i w
  = (Ok i', w') →
  ID i' = ID i
  ∧ Type_ i' = Type_ i
  ∧ ParentID i' = ParentID i
  ∧ Title i' = Title i
  ∧ Description i' = Description i
  ∧ StoryPoints i' = StoryPoints i
  ∧ Status i' = Status i
  ∧ Priority i' = Priority i
  ∧ Assignee i' = Assignee i
  ∧ CreatedAt i' = CreatedAt i
  ∧ ExternalIDs i' = ExternalIDs i
  ∧ Tags i' = match field with
              | Some tags => tags_added tags []
              | None => Tags i
              end.
Proof.
  destruct field as [tags|]; cbn; intros [= <-].
  - repeat split;
      try (match goal with
           | |- ?f (add_tags _ _ _) = _ =>
               rewrite (add_tags_frame f)
                 by (intros; first [apply AddTag_frame|apply AddTag_frame_rest])
           end; reflexivity).
    apply Tags_add_tags.
  - repeat split.
Qed.

Lemma step_parent (env : Env) (field : option UUID) (i i' : BacklogItem)
    (w w' : World) :
  if_set field
    (λ parentID i,
       (if bool_decide (parentID ≠ uuid_Nil)
        then parent ← repo_GetByID parentID;
             if negb (isValidParentChild (Type_ parent) (Type_ i))
             then fail ErrInvalidRelationship
             else mret tt
        else mret tt);;
       lift (UpdateParent (now env) (Some parentID) i)) i w
  = (Ok i', w') →
  ID i' = ID i
  ∧ Type_ i' = Type_ i
  ∧ Title i' = Title i
  ∧ Description i' = Description i
  ∧ StoryPoints i' = StoryPoints i
  ∧ Status i' = Status i
  ∧ Priority i' = Priority i
  ∧ Assignee i' = Assignee i
  ∧ Tags i' = Tags i
  ∧ CreatedAt i' = CreatedAt i
  ∧ ExternalIDs i' = ExternalIDs i
  ∧ ParentID i' = match field with
                  | Some p => Some p
                  | None => ParentID i
                  end
  ∧ (∀ p, field = Some p →
          Type_ i ≠ ItemTypeEpic
          ∧ (p ≠ uuid_Nil →
             ∃ parent, db.backlog_items (store w) !! p = Some parent
                       ∧ isValidParentChild (Type_ parent) (Type_ i) = true)).
Proof.
  destruct field as [p|]; cbn [if_set].
  2:{ intros [= <-]. repeat split; congruence. }
  intros H. apply bind_Ok in H as ([] & w0 & Hcheck & H).
  unfold lift, UpdateParent in H.
  rewrite bool_decide_eq_true_2 in H by discriminate. cbn [andb] in H.
  destruct (String.eqb_spec (Type_ i) ItemTypeEpic) as [|Hepic]; [discriminate|].
  injection H as <- <-. repeat split.
  - assumption.
  - match goal with Heq : Some _ = Some _ |- _ => injection Heq as <- end.
    intros Hnil.
    rewrite bool_decide_eq_true_2 in Hcheck by assumption.
    apply bind_Ok in Hcheck as (parent & w1 & Hget & Hrel).
    unfold repo_GetByID, db.GetByID in Hget.
    destruct (db.backlog_items (store w) !! p) as [par|]; [|discriminate].
    injection Hget as <- <-. exists par. split; [reflexivity|].
    destruct (isValidParentChild _ _); [reflexivity|discriminate].
Qed.

(** A successful [UpdateItem] has read the stored item, made of it what
    the request asks, checked the request, and written the result. *)
Lemma UpdateItem_fields (env : Env) (id : UUID) (req : UpdateItemRequest.t)
    (w w1 : World) (item : BacklogItem) :
  UpdateItem env id req w = (Ok item, w1) →
  ∃ old d,
    db.backlog_items (store w) !! id = Some old
    ∧ requested req old item
    ∧ request_checked req old w
    ∧ db.Update (now env) item (store w) = (Ok tt, d)
    ∧ w1 = updated_world env id item d w.
Proof.
  unfold UpdateItem. intros H.
  apply bind_Ok in H as (i0 & w0 & H0 & H).
  pose proof H0 as H0'. apply readonly_GetByID in H0' as ->.
  unfold repo_GetByID, db.GetByID in H0.
  destruct (db.backlog_items (store w) !! id) as [old|] eqn:Hold;
    [|discriminate].
  injection H0 as <-.
  apply bind_Ok in H as (i1 & w0 & H1 & H).
  pose proof H1 as H1'. apply readonly_if_set in H1' as ->; [|solve_readonly].
  apply step_title in H1.
  apply bind_Ok in H as (i2 & w0 & H2 & H).
  pose proof H2 as H2'. apply readonly_if_set in H2' as ->; [|solve_readonly].
  apply step_description in H2.
  apply bind_Ok in H as (i3 & w0 & H3 & H).
  pose proof H3 as H3'. apply readonly_if_set in H3' as ->; [|solve_readonly].
  apply step_status in H3.
  apply bind_Ok in H as (i4 & w0 & H4 & H).
  pose proof H4 as H4'. apply readonly_if_set in H4' as ->; [|solve_readonly].
  apply step_story_points in H4.
  apply bind_Ok in H as (i5 & w0 & H5 & H).
  pose proof H5 as H5'. apply readonly_if_set in H5' as ->; [|solve_readonly].
  apply step_priority in H5.
  apply bind_Ok in H as (i6 & w0 & H6 & H).
  pose proof H6 as H6'. apply readonly_if_set in H6' as ->; [|solve_readonly].
  apply step_parent in H6.
  apply bind_Ok in H as (i7 & w0 & H7 & H).
  pose proof H7 as H7'. apply readonly_if_set in H7' as ->; [|solve_readonly].
  apply (step_assignee env) in H7.
  apply bind_Ok in H as (i8 & w0 & H8 & H).
  pose proof H8 as H8'. apply readonly_if_set in H8' as ->; [|solve_readonly].
  apply step_tags in H8.
  cbv zeta in H. rewrite UpdateItem_tail in H.
  destruct (db.Update (now env) i8 (store w)) as [[[]|e] d] eqn:Hupd;
    [|discriminate].
  injection H as <- <-. exists old, d.
  split; [reflexivity|]. split; [|split; [|split; [exact Hupd|reflexivity]]].
  - unfold requested.
    destruct H1 as (?&?&?&?&?&?&?&?&?&?&?&?&?),
             H2 as (?&?&?&?&?&?&?&?&?&?&?&?),
             H3 as (?&?&?&?&?&?&?&?&?&?&?&?&?),
             H4 as (?&?&?&?&?&?&?&?&?&?&?&?&?),
             H5 as (?&?&?&?&?&?&?&?&?&?&?&?),
             H6 as (?&?&?&?&?&?&?&?&?&?&?&?&?),
             H7 as (?&?&?&?&?&?&?&?&?&?&?&?),
             H8 as (?&?&?&?&?&?&?&?&?&?&?&?).
    repeat split; try congruence.
    + destruct (UpdateItemRequest.ParentID req); congruence.
    + destruct (UpdateItemRequest.Tags req); congruence.
  - unfold request_checked.
    destruct H1 as (_&?&_&_&_&_&_&_&_&_&_&_&Ht),
             H2 as (_&?&_),
             H3 as (_&?&_&_&_&_&_&_&_&_&_&_&Hs),
             H4 as (_&?&_&_&_&_&_&_&_&_&_&_&Hp),
             H5 as (_&?&_),
             H6 as (_&_&_&_&_&_&_&_&_&_&_&_&Hpar).
    split; [exact Ht|]. split; [exact Hs|]. split; [exact Hp|].
    intros p Hreq. destruct (Hpar p Hreq) as [Hepic Hparent].
    assert (Hty : Type_ i5 = Type_ old) by congruence.
    rewrite Hty in Hepic, Hparent. split; assumption.
Qed.

(** The UPDATE replaces the row under the item's id and nothing else; a
    parent the new row names is a row of the table, possibly itself. *)
Lemma Update_table (now : Time) (item : BacklogItem) (d d' : db.Database) :
  db.Update now item d = (Ok tt, d') →
  ∃ old, db.backlog_items d !! ID item = Some old
         ∧ db.backlog_items d'
           = <[ID item := updated_row now item old]> (db.backlog_items d)
         ∧ (∀ p, ParentID item = Some p →
                 p = ID item ∨ is_Some (db.backlog_items d !! p)).
Proof.
  unfold db.Update.
  destruct (db.backlog_items d !! ID item) as [old|]; [|discriminate].
  destruct (db.row_ok _ _) eqn:Hok; [|discriminate].
  intros [= <-]. exists old. split; [reflexivity|]. split; [reflexivity|].
  intros p Hp. unfold db.row_ok in Hok.
  apply andb_true_iff in Hok as [_ Hfk]. unfold db.parent_id_fkey in Hfk.
  cbn [ParentID] in Hfk. rewrite Hp in Hfk. apply bool_decide_eq_true_1 in Hfk.
  destruct (decide (p = ID item)) as [|Hne]; [now left|right].
  now rewrite lookup_insert_ne in Hfk by congruence.
Qed.

(** With the creation time of the row it replaces, the row the UPDATE
    writes is the item with a new time stamp. *)
Lemma updated_row_stamp (now : Time) (item old : BacklogItem) :
  CreatedAt item = CreatedAt old →
  updated_row now item old = set_UpdatedAt now item.
Proof. intros H. unfold updated_row, set_UpdatedAt. now rewrite H. Qed.

(** [UpdateItem] is a partial update of one row.  In a store whose rows
    sit under their ids, a successful [UpdateItem] returns the stored item
    with the fields of the request set and every other field as stored,
    and leaves the store with that item, stamped with the time of the
    call, under the id, every other row being as before. *)
Theorem UpdateItem_partial_update (env : Env) (id : UUID)
    (req : UpdateItemRequest.t) (w w1 : World) (item : BacklogItem) :
  keyed w →
  UpdateItem env id req w = (Ok item, w1) →
  ∃ old, db.backlog_items (store w) !! id = Some old
         ∧ requested req old item
         ∧ db.backlog_items (store w1)
           = <[id := set_UpdatedAt (now env) item]>
               (db.backlog_items (store w)).
Proof.
  intros Hkeyed H.
  apply UpdateItem_fields in H as (old & d & Hold & Hreq & _ & Hupd & ->).
  exists old. split; [assumption|]. split; [assumption|].
  rewrite updated_world_store.
  apply Update_table in Hupd as (old' & Hold' & -> & _).
  destruct Hreq as (Hid & _ & Hcreated & _).
  rewrite Hid, (Hkeyed _ _ Hold) in *.
  rewrite Hold in Hold'. injection Hold' as <-.
  now rewrite updated_row_stamp.
Qed.

(** After a successful [UpdateItem], [GetItem] on the id returns the item
    that [UpdateItem] returned, stamped with the time of the update,
    whatever the cache held under the item's key before. *)
Theorem UpdateItem_then_GetItem (env : Env) (id : UUID)
    (req : UpdateItemRequest.t) (w w1 : World) (item : BacklogItem) :
  keyed w →
  UpdateItem env id req w = (Ok item, w1) →
  ∃ w2, GetItem id w1 = (Ok (set_UpdatedAt (now env) item), w2).
Proof.
  intros Hkeyed H.
  apply UpdateItem_fields in H as (old & d & Hold & Hreq & _ & Hupd & ->).
  apply Update_table in Hupd as (old' & Hold' & Htbl & _).
  destruct Hreq as (Hid & _ & Hcreated & _).
  rewrite Hid, (Hkeyed _ _ Hold) in *.
  rewrite Hold in Hold'. injection Hold' as <-.
  eexists. apply GetItem_stored.
  - rewrite updated_world_cache.
    apply lookup_delete_None. right.
    apply lookup_delete_None. right.
    apply lookup_delete_eq.
  - rewrite updated_world_store, Htbl, updated_row_stamp by assumption.
    apply lookup_insert_eq.
Qed.

(** [UpdateItem] cannot take a parent away.  The request that carries the
    nil UUID as parent, which is how the gRPC layer writes "no parent",
    makes the nil UUID the parent; in a store that has no row under the
    nil UUID the call fails and writes nothing. *)
Theorem UpdateItem_cannot_clear_parent (env : Env) (id : UUID)
    (req : UpdateItemRequest.t) (w : World) :
  keyed w →
  db.backlog_items (store w) !! uuid_Nil = None →
  UpdateItemRequest.ParentID req = Some uuid_Nil →
  ∃ e, UpdateItem env id req w = (Err e, w).
Proof.
  intros Hkeyed Hnil Hreq.
  destruct (UpdateItem env id req w) as [[item|e] w1] eqn:H.
  - exfalso.
    apply UpdateItem_fields in H as (old & d & Hold & Hfields & _ & Hupd & _).
    apply Update_table in Hupd as (_ & _ & _ & Hfk).
    destruct Hfields as (Hid & _ & _ & _ & _ & _ & _ & _ & _ & _ & Hpar & _).
    rewrite Hreq in Hpar. rewrite Hid, (Hkeyed _ _ Hold) in Hfk.
    destruct (Hfk _ Hpar) as [<-|[x Hx]]; congruence.
  - exists e. now rewrite (atomic_UpdateItem env id req _ _ _ H).
Qed.

(** ** The hierarchy is kept *)

Lemma isValidParentChild_true (parentType childType : ItemType) :
  isValidParentChild parentType childType = true →
  (parentType = ItemTypeEpic ∧ childType = ItemTypeFeature)
  ∨ (parentType = ItemTypeFeature ∧ childType = ItemTypeStory).
Proof.
  unfold isValidParentChild.
  destruct (String.eqb_spec parentType ItemTypeEpic),
           (String.eqb_spec childType ItemTypeFeature),
           (String.eqb_spec parentType ItemTypeFeature),
           (String.eqb_spec childType ItemTypeStory);
    cbn; intros; try discriminate; auto.
Qed.

Lemma isValidParentChild_irrefl (t : ItemType) :
  isValidParentChild t t = false.
Proof.
  destruct (isValidParentChild t t) eqn:H; [|reflexivity].
  apply isValidParentChild_true in H as [[-> H]|[-> H]]; discriminate H.
Qed.

(** Writing a row under an id keeps the hierarchy when the row has the
    type of the row it replaces, if it replaces one, and its parent is a
    row of a fitting type. *)
Lemma hierarchy_insert (tbl : gmap UUID BacklogItem) (id : UUID)
    (row : BacklogItem) :
  hierarchy tbl →
  (∀ old, tbl !! id = Some old → Type_ old = Type_ row) →
  (∀ p, ParentID row = Some p →
        ∃ parent, tbl !! p = Some parent
                  ∧ isValidParentChild (Type_ parent) (Type_ row) = true) →
  hierarchy (<[id := row]> tbl).
Proof.
  intros Hh Hty Hpar k i p Hi Hp.
  assert (Hkeep : ∀ q parent child,
            tbl !! q = Some parent →
            isValidParentChild (Type_ parent) (Type_ child) = true →
            ∃ parent', <[id := row]> tbl !! q = Some parent'
                       ∧ isValidParentChild (Type_ parent') (Type_ child)
                         = true).
  { intros q parent child Hq Hrel.
    destruct (decide (id = q)) as [->|Hne].
    - exists row. rewrite lookup_insert_eq. split; [reflexivity|].
      now rewrite <- (Hty _ Hq).
    - exists parent. now rewrite lookup_insert_ne. }
  apply lookup_insert_Some in Hi as [[<- <-]|[Hne Hi]].
  - destruct (Hpar _ Hp) as (parent & Hq & Hrel). eauto.
  - destruct (Hh _ _ _ Hi Hp) as (parent & Hq & Hrel). eauto.
Qed.

(** A successful mutation leaves a well-formed store well-formed. *)
Lemma well_formed_step (env : Env) (m : Mutation) (w w1 : World) :
  itemUUID env ≠ uuid_Nil →
  well_formed w →
  run_mutation env m w = (Ok tt, w1) →
  well_formed w1.
Proof.
  intros Hnew (Hkeyed & Hnil & Hh) Hrun. unfold well_formed, keyed.
  destruct m as [req|id req|id|reqs|id sys ext]; cbn [run_mutation] in Hrun.
  - apply bind_Ok in Hrun as (item & w0 & H & [= <-]).
    apply CreateItem_Ok in H as (_ & _ & Hparent & Hfresh & _ & -> & ->).
    destruct (built_item_fields env req)
      as (Hid & Hty & Hpar & _).
    rewrite created_world_store, Hid. split; [|split].
    + intros k i [[<- <-]|[_ Hi]]%lookup_insert_Some; eauto.
    + rewrite lookup_insert_ne by assumption. exact Hnil.
    + apply hierarchy_insert; [assumption|congruence|].
      intros p Hp. rewrite Hpar in Hp. unfold parent_accepted in Hparent.
      rewrite Hp in Hparent. destruct Hparent as (_ & parent & Hq & Hrel).
      exists parent. now rewrite Hty.
  - apply bind_Ok in Hrun as (item & w0 & H & [= <-]).
    apply UpdateItem_fields in H as (old & d & Hold & Hreq & Hchk & Hupd & ->).
    apply Update_table in Hupd as (old' & Hold' & Htbl & Hfk).
    destruct Hreq as (Hid & Hty & _ & _ & _ & _ & _ & _ & _ & _ & Hpar & _).
    rewrite Hid, (Hkeyed _ _ Hold) in *.
    rewrite Hold in Hold'. injection Hold' as <-.
    rewrite updated_world_store, Htbl.
    assert (Hne : id ≠ uuid_Nil) by congruence.
    split; [|split].
    + intros k i [[<- <-]|[_ Hi]]%lookup_insert_Some; [|eauto].
      cbn. congruence.
    + now rewrite lookup_insert_ne.
    + apply hierarchy_insert; [assumption| |].
      * intros old' Hold'. rewrite Hold in Hold'. injection Hold' as <-.
        cbn. congruence.
      * intros p Hp. cbn [ParentID updated_row Type_] in *. rewrite Hty.
        destruct (UpdateItemRequest.ParentID req) as [p'|] eqn:Hreq.
        -- assert (p' = p) as -> by congruence.
           destruct Hchk as (_ & _ & _ & Hchk).
           destruct (Hchk p Hreq) as [_ Hparent]. apply Hparent.
           intros ->. destruct (Hfk _ Hp) as [?|[x Hx]]; congruence.
        -- rewrite Hpar in Hp. exact (Hh _ _ _ Hold Hp).
  - apply DeleteItem_Ok in Hrun as [Hst _]. rewrite Hst. split; [|split].
    + intros k i (old & <- & Hold)%lookup_fmap_Some.
      apply lookup_delete_Some in Hold as [_ Hold].
      unfold db.orphan. destruct (bool_decide _); cbn; eauto.
    + rewrite lookup_fmap. destruct (decide (id = uuid_Nil)) as [->|Hne].
      * now rewrite lookup_delete_eq.
      * now rewrite lookup_delete_ne, Hnil.
    + intros k i p (old & <- & Hold)%lookup_fmap_Some Hp.
      apply lookup_delete_Some in Hold as [_ Hold].
      unfold db.orphan in Hp |- *.
      destruct (bool_decide_reflect (ParentID old = Some id)) as [|Hnp];
        [discriminate|].
      destruct (Hh _ _ _ Hold Hp) as (parent & Hq & Hrel).
      exists (db.orphan id parent). rewrite lookup_fmap.
      rewrite lookup_delete_ne by congruence. rewrite Hq. split; [reflexivity|].
      unfold db.orphan. now destruct (bool_decide _).
  - destruct (ReorderItems_run env reqs w) as (w' & Hrun' & Hsame & Hst).
    rewrite Hrun' in Hrun. injection Hrun as <-.
    destruct reqs as [|r rs]; [now rewrite Hsame|].
    destruct Hst as [Hst _]; [discriminate|]. rewrite Hst.
    unfold db.UpdatePriorities. cbn [db.backlog_items].
    generalize (priorities_of (r :: rs)). intros prio.
    assert (Hrow : ∀ k i,
              map_imap (λ id i,
                 Some match prio !! id with
                      | Some p => set_UpdatedAt (now env) (set_Priority p i)
                      | None => i
                      end) (db.backlog_items (store w)) !! k = Some i →
              ∃ old, db.backlog_items (store w) !! k = Some old
                     ∧ ID i = ID old ∧ Type_ i = Type_ old
                     ∧ ParentID i = ParentID old).
    { intros k i. rewrite map_lookup_imap.
      destruct (db.backlog_items (store w) !! k) as [old|]; [|discriminate].
      cbn. intros [= <-]. exists old.
      destruct (prio !! k); repeat split. }
    split; [|split].
    + intros k i Hi. destruct (Hrow _ _ Hi) as (old & Hold & -> & _). eauto.
    + rewrite map_lookup_imap, Hnil. reflexivity.
    + intros k i p Hi Hp.
      destruct (Hrow _ _ Hi) as (old & Hold & _ & Hty & Hpar).
      rewrite Hpar in Hp. destruct (Hh _ _ _ Hold Hp) as (parent & Hq & Hrel).
      rewrite map_lookup_imap, Hq. cbn. eexists. split; [reflexivity|].
      rewrite Hty. now destruct (prio !! p).
  - apply SetExternalID_Ok in Hrun as (old & d & Hold & Hupd & Hst & _).
    apply Update_table in Hupd as (old' & Hold' & Htbl & _).
    cbn [ID model.SetExternalID set_UpdatedAt set_ExternalIDs] in *.
    rewrite (Hkeyed _ _ Hold) in *.
    rewrite Hold in Hold'. injection Hold' as <-.
    rewrite Hst, Htbl.
    assert (Hne : id ≠ uuid_Nil) by congruence.
    split; [|split].
    + intros k i [[<- <-]|[_ Hi]]%lookup_insert_Some; [|eauto].
      cbn. exact (Hkeyed _ _ Hold).
    + now rewrite lookup_insert_ne.
    + apply hierarchy_insert; [assumption| |].
      * intros old' Hold'. rewrite Hold in Hold'. now injection Hold' as <-.
      * intros p Hp. cbn in Hp |- *. exact (Hh _ _ _ Hold Hp).
Qed.

(** In every store the service reaches from an empty one, the rows sit
    under their own ids and the hierarchy is Epic, Feature, Story: a parent
    id always names a stored item, the parent of a feature is an epic, the
    parent of a story is a feature, and nothing else has a parent. *)
Theorem reachable_hierarchy (w : World) :
  reachable w →
  keyed w
  ∧ ∀ k i p,
      db.backlog_items (store w) !! k = Some i →
      ParentID i = Some p →
      ∃ parent,
        db.backlog_items (store w) !! p = Some parent
        ∧ ((Type_ parent = ItemTypeEpic ∧ Type_ i = ItemTypeFeature)
           ∨ (Type_ parent = ItemTypeFeature ∧ Type_ i = ItemTypeStory)).
Proof.
  intros Hreach.
  assert (Hwf : well_formed w).
  { induction Hreach as [w Hempty|env m w w1 _ IH Hnew Hrun].
    - unfold well_formed, keyed, hierarchy. rewrite Hempty.
      repeat split; intros *; rewrite ?lookup_empty; congruence.
    - exact (well_formed_step env m w w1 Hnew IH Hrun). }
  destruct Hwf as (Hkeyed & _ & Hh). split; [assumption|].
  intros k i p Hi Hp. destruct (Hh _ _ _ Hi Hp) as (parent & Hq & Hrel).
  exists parent. split; [assumption|]. now apply isValidParentChild_true.
Qed.

(** ** What the cache hands back is never used *)

(** What the cache hands back is never a list of items, so [GetChildren]
    asks the store, whatever the cache holds. *)
Lemma GetChildren_run (parentID : UUID) (w : World) :
  GetChildren parentID w
  = (Ok (db.GetChildren parentID (store w)),
     mkWorld (store w)
             (<[children_key parentID
                := CachedChildren (db.GetChildren parentID (store w))]>
                (cache w))
             (published w) (logged w)).
Proof.
  unfold GetChildren, cache_Get. cbv zeta. rewrite bind_run.
  destruct (cache w !! children_key parentID) as [v|]; reflexivity.
Qed.

Lemma GetChildren_elem_of (parentID : UUID) (d : db.Database)
    (i : BacklogItem) :
  i ∈ db.GetChildren parentID d
  ↔ ∃ k, db.backlog_items d !! k = Some i ∧ ParentID i = Some parentID.
Proof.
  unfold db.GetChildren.
  rewrite sort_by_Permutation_self, list_elem_of_filter, list_elem_of_fmap.
  split.
  - intros (Hp & [k i'] & -> & Hin). apply elem_of_map_to_list in Hin. eauto.
  - intros (k & Hk & Hp). split; [assumption|].
    exists (k, i). split; [reflexivity|]. now apply elem_of_map_to_list.
Qed.

(** No mutation deletes a [children:<id>] key, and none needs to: the
    value [RedisAdapter.Get] hands back fails the type assertion of
    [GetChildren], which therefore asks the store every time.  After a
    successful [CreateItem] under a parent, [GetChildren] of the parent
    lists the new item next to the children the parent had, also when a
    list of children was cached before. *)
Theorem CreateItem_then_GetChildren (env : Env) (req : CreateItemRequest.t)
    (w w1 : World) (item : BacklogItem) (parentID : UUID) :
  CreateItem env req w = (Ok item, w1) →
  CreateItemRequest.ParentID req = Some parentID →
  ∃ children w2,
    GetChildren parentID w1 = (Ok children, w2)
    ∧ item ∈ children
    ∧ ∀ i, i ∈ children
           ↔ i = item
             ∨ ∃ k, db.backlog_items (store w) !! k = Some i
                    ∧ ParentID i = Some parentID.
Proof.
  intros H Hparent.
  apply CreateItem_Ok in H as (_ & _ & _ & Hfresh & _ & -> & ->).
  destruct (built_item_fields env req) as (Hid & _ & Hpar & _).
  rewrite Hparent in Hpar.
  assert (Hin : ∀ i,
            i ∈ db.GetChildren parentID
                  (store (created_world env (built_item env req) w))
            ↔ i = built_item env req
              ∨ ∃ k, db.backlog_items (store w) !! k = Some i
                     ∧ ParentID i = Some parentID).
  { intros i. rewrite GetChildren_elem_of, created_world_store, Hid. split.
    - intros (k & Hk & Hp).
      apply lookup_insert_Some in Hk as [[_ <-]|[_ Hk]]; eauto.
    - intros [->|(k & Hk & Hp)].
      + exists (itemUUID env). now rewrite lookup_insert_eq.
      + exists k. split; [|assumption].
        rewrite lookup_insert_ne by congruence. exact Hk. }
  eexists. eexists. split; [apply GetChildren_run|].
  split; [|exact Hin]. apply Hin. now left.
Qed.

(** The children of the sample epic are read and cached, a second feature
    is created under the epic, and [GetChildren] lists it. *)
Lemma CreateItem_then_GetChildren_witness :
  cache children_read !! children_key 1%N
  = Some (CachedChildren [stored_feature])
  ∧ ∃ children w2,
      GetChildren 1%N (snd (CreateItem env0 (feature_request 1%N) children_read))
      = (Ok children, w2)
      ∧ built_item env0 (feature_request 1%N) ∈ children.
Proof.
  split; [vm_compute; reflexivity|].
  destruct (CreateItem_then_GetChildren env0 (feature_request 1%N)
              children_read
              (snd (CreateItem env0 (feature_request 1%N) children_read))
              (built_item env0 (feature_request 1%N)) 1%N)
    as (children & w2 & Hrun & Hin & _).
  - vm_compute. reflexivity.
  - reflexivity.
  - eauto.
Defined.

(** ** Reads through the cache *)

(** [GetItem] reads through the cache and writes nothing else: the store,
    the bus and the log are as before; an item it returns is returned
    again by the next call, which changes nothing, and only the item's own
    cache key may have changed; the only error is "not found", which leaves
    the cache as it was. *)
Theorem GetItem_read_through (id : UUID) (w w1 : World)
    (r : Result BacklogItem) :
  GetItem id w = (r, w1) →
  store w1 = store w ∧ published w1 = published w ∧ logged w1 = logged w
  ∧ match r with
    | Ok item =>
        GetItem id w1 = (Ok item, w1)
        ∧ ∀ k, k ≠ item_key id → cache w1 !! k = cache w !! k
    | Err e => e = ErrNotFound ∧ w1 = w
    end.
Proof.
  rewrite GetItem_run.
  destruct (db.backlog_items (store w) !! id) as [item|] eqn:Hitem.
  - intros [= <- <-]. cbn [store cache published logged].
    repeat split.
    + rewrite GetItem_run. cbn [store cache published logged].
      rewrite Hitem, insert_insert_eq. reflexivity.
    + intros k Hk. now rewrite lookup_insert_ne.
  - intros [= <- <-]. repeat split.
Qed.

(** The sample feature is read: it is returned, and returned again. *)
Lemma GetItem_read_through_witness :
  let w1 := snd (GetItem 7%N warm_world) in
  GetItem 7%N w1 = (Ok stored_feature, w1).
Proof.
  pose proof (GetItem_read_through 7%N warm_world
                (snd (GetItem 7%N warm_world)) (Ok stored_feature)) as H.
  cbv zeta. apply H. vm_compute. reflexivity.
Defined.

(** What the cache hands back is never a list result, so [ListItems]
    asks the repository, whatever the cache holds. *)
Lemma ListItems_run
    (repo_List : BacklogFilter.t → db.Database
                 → Result (list BacklogItem * Z))
    (filter : BacklogFilter.t) (w : World) :
  ListItems repo_List filter w
  = match repo_List filter (store w) with
    | Ok result =>
        (Ok result,
         if String.eqb (BacklogFilter.SearchQuery filter) ""
         then mkWorld (store w)
                (<[buildListCacheKey filter
                   := CachedListResult (fst result) (snd result)]> (cache w))
                (published w) (logged w)
         else w)
    | Err e => (Err e, w)
    end.
Proof.
  unfold ListItems, cache_Get. rewrite bind_run.
  destruct (String.eqb (BacklogFilter.SearchQuery filter) "").
  - destruct (cache w !! buildListCacheKey filter) as [v|];
      cbn [fmap option_fmap option_map]; rewrite bind_run;
      destruct (repo_List filter (store w)); reflexivity.
  - unfold mret at 1, M_ret at 1. rewrite bind_run.
    destruct (repo_List filter (store w)); reflexivity.
Qed.

(** [buildListCacheKey] gives every filter the key [list:all], but the
    list that one filter leaves there is never served to another: the
    value [RedisAdapter.Get] hands back fails the type assertion of
    [ListItems].  After a call for any filter, a call for another filter
    returns what the repository returns for that other filter, and the
    store is untouched. *)
Theorem ListItems_answers_each_filter
    (repo_List : BacklogFilter.t → db.Database
                 → Result (list BacklogItem * Z))
    (filter filter' : BacklogFilter.t) (w : World) :
  let w1 := snd (ListItems repo_List filter w) in
  store w1 = store w
  ∧ fst (ListItems repo_List filter' w1) = repo_List filter' (store w).
Proof.
  cbv zeta.
  assert (Hstore : store (snd (ListItems repo_List filter w)) = store w).
  { rewrite ListItems_run.
    destruct (repo_List filter (store w)); [|reflexivity].
    destruct (String.eqb _ _); reflexivity. }
  split; [exact Hstore|].
  rewrite ListItems_run, Hstore.
  destruct (repo_List filter' (store w)); reflexivity.
Qed.

(** The rows of the sample store sit under their own ids. *)
Lemma keyed_warm_world : keyed warm_world.
Proof.
  intros k i Hi. unfold warm_world in Hi.
  cbn [store db.backlog_items] in Hi.
  apply lookup_insert_Some in Hi as [[<- <-]|[_ Hi]]; [reflexivity|].
  apply lookup_insert_Some in Hi as [[<- <-]|[_ Hi]]; [reflexivity|].
  apply lookup_singleton_Some in Hi as [<- <-]. reflexivity.
Qed.

(** ** Children *)

Lemma insert_by_Sorted {A} (key : A → Z) (x : A) (l : list A) :
  Sorted (λ a b, (key a ≤ key b)%Z) l →
  Sorted (λ a b, (key a ≤ key b)%Z) (insert_by key x l).
Proof.
  induction l as [|y l IH]; intros Hs; cbn [insert_by].
  - repeat constructor.
  - destruct (Z.leb_spec (key x) (key y)) as [Hle|Hlt].
    + constructor; [assumption|]. now constructor.
    + apply Sorted_inv in Hs as [Hs Hhd]. constructor; [now apply IH|].
      destruct l as [|z l]; cbn [insert_by].
      * constructor. lia.
      * destruct (key x <=? key z)%Z; constructor; [lia|].
        now inversion Hhd.
Qed.

Lemma sort_by_Sorted {A} (key : A → Z) (l : list A) :
  Sorted (λ a b, (key a ≤ key b)%Z) (sort_by key l).
Proof.
  induction l as [|x l IH]; [constructor|].
  cbn [sort_by foldr]. now apply insert_by_Sorted.
Qed.

(** When the list is not cached, [GetChildren] returns the stored items
    whose parent is the given id, and no other, in ascending order of
    priority, and caches that list; it does not fail, also for an id that
    names no item.  In a store whose rows sit under their own ids each
    child is listed once. *)
Theorem GetChildren_lists_children (parentID : UUID) (w : World) :
  cache w !! children_key parentID = None →
  ∃ children,
    GetChildren parentID w
    = (Ok children,
       mkWorld (store w)
               (<[children_key parentID := CachedChildren children]> (cache w))
               (published w) (logged w))
    ∧ (∀ i, i ∈ children
            ↔ ∃ k, db.backlog_items (store w) !! k = Some i
                   ∧ ParentID i = Some parentID)
    ∧ Sorted (λ a b, (Priority a ≤ Priority b)%Z) children
    ∧ (keyed w → NoDup children).
Proof.
  intros Hc. exists (db.GetChildren parentID (store w)).
  split; [|split; [|split]].
  - apply GetChildren_run.
  - intros i. unfold db.GetChildren.
    rewrite sort_by_Permutation_self, list_elem_of_filter, list_elem_of_fmap.
    split.
    + intros (Hp & [k i'] & -> & Hin%elem_of_map_to_list). eauto.
    + intros (k & Hk & Hp). split; [assumption|].
      exists (k, i). split; [reflexivity|]. now apply elem_of_map_to_list.
  - apply sort_by_Sorted.
  - intros Hkeyed. unfold db.GetChildren.
    rewrite sort_by_Permutation_self. apply NoDup_filter.
    apply NoDup_fmap_2_strong; [|apply NoDup_map_to_list].
    intros [k1 i1] [k2 i2] H1%elem_of_map_to_list H2%elem_of_map_to_list.
    cbn. intros <-. f_equal.
    rewrite <- (Hkeyed _ _ H1). exact (Hkeyed _ _ H2).
Qed.

(** The children of the sample epic: the feature. *)
Lemma GetChildren_lists_children_witness :
  ∃ children,
    fst (GetChildren 1%N warm_world) = Ok children
    ∧ (stored_feature ∈ children)
    ∧ NoDup children.
Proof.
  destruct (GetChildren_lists_children 1%N warm_world)
    as (children & Hrun & Hin & _ & Hnd).
  { vm_compute. reflexivity. }
  exists children. split; [now rewrite Hrun|]. split.
  - apply Hin. exists 7%N. split; reflexivity.
  - apply Hnd. exact keyed_warm_world.
Defined.

(** ** Deleting *)

(** A successful [DeleteItem] removes the row of the item and changes no
    other row: the item had no children, so the foreign key's
    [ON DELETE SET NULL] finds nothing to reset. *)
Theorem DeleteItem_removes_one_row (env : Env) (id : UUID) (w w1 : World) :
  DeleteItem env id w = (Ok tt, w1) →
  is_Some (db.backlog_items (store w) !! id)
  ∧ (∀ k i, db.backlog_items (store w) !! k = Some i →
            ParentID i ≠ Some id)
  ∧ db.backlog_items (store w1) = delete id (db.backlog_items (store w)).
Proof.
  intros H.
  pose proof H as Hst. apply DeleteItem_Ok in Hst as [Hst _].
  apply DeleteItem_world in H as (item & Hitem & Hch & _).
  assert (Hnone : ∀ k i, db.backlog_items (store w) !! k = Some i →
                         ParentID i ≠ Some id).
  { intros k i Hi Hp.
    assert (Hlen : (0 < length (db.GetChildren id (store w)))%nat).
    { apply GetChildren_nonempty. eauto. }
    rewrite Hch in Hlen. cbn in Hlen. lia. }
  split; [eauto|]. split; [assumption|].
  rewrite Hst. apply map_eq. intros k. rewrite lookup_fmap.
  destruct (delete id (db.backlog_items (store w)) !! k) as [i|] eqn:Hk;
    [|reflexivity].
  cbn. f_equal. apply lookup_delete_Some in Hk as [_ Hk].
  unfold db.orphan. rewrite bool_decide_eq_false_2; [reflexivity|].
  exact (Hnone _ _ Hk).
Qed.

(** The lone story of the sample store is deleted: the epic and the
    feature stay as they were. *)
Lemma DeleteItem_removes_one_row_witness :
  db.backlog_items (store (snd (DeleteItem env0 5%N warm_world)))
  = delete 5%N (db.backlog_items (store warm_world)).
Proof.
  apply (DeleteItem_removes_one_row env0 5%N warm_world).
  vm_compute. reflexivity.
Defined.

(** ** Reordering *)





(** ** External ids *)

(** After a successful [SetExternalID], [GetItem] returns the stored item
    with the external id of the system set to the given value, the
    external ids of every other system as they were, and every other field
    but the update time unchanged. *)
Theorem SetExternalID_then_GetItem (env : Env) (id : UUID)
    (system externalID : string) (w w1 : World) :
  keyed w →
  service.SetExternalID env id system externalID w = (Ok tt, w1) →
  ∃ old w2,
    db.backlog_items (store w) !! id = Some old
    ∧ let item := model.SetExternalID (now env) system externalID old in
      GetItem id w1 = (Ok item, w2)
      ∧ GetExternalID system item = externalID
      ∧ ∀ s, s ≠ system → GetExternalID s item = GetExternalID s old.
Proof.
  intros Hkeyed H.
  apply SetExternalID_Ok in H as (old & d & Hold & Hupd & Hst & Hcache).
  apply Update_table in Hupd as (old' & Hold' & Htbl & _).
  cbn [ID model.SetExternalID set_UpdatedAt set_ExternalIDs] in Hold', Htbl.
  rewrite (Hkeyed _ _ Hold) in Hold', Htbl.
  rewrite Hold in Hold'. injection Hold' as <-.
  exists old. eexists. split; [assumption|]. cbv zeta. split; [|split].
  - apply GetItem_stored.
    + rewrite Hcache. apply lookup_delete_eq.
    + rewrite Hst, Htbl, lookup_insert_eq. reflexivity.
  - unfold GetExternalID, model.SetExternalID. cbn.
    now rewrite lookup_insert_eq.
  - intros s Hs. unfold GetExternalID, model.SetExternalID. cbn.
    now rewrite lookup_insert_ne.
Qed.

(** The sample epic is linked to an issue tracker and read back. *)
Lemma SetExternalID_then_GetItem_witness :
  ∃ item w2,
    GetItem 1%N (snd (service.SetExternalID env0 1%N "jira" "UB-1" warm_world))
    = (Ok item, w2)
    ∧ GetExternalID "jira" item = "UB-1".
Proof.
  destruct (SetExternalID_then_GetItem env0 1%N "jira" "UB-1" warm_world
              (snd (service.SetExternalID env0 1%N "jira" "UB-1" warm_world)))
    as (old & w2 & _ & Hget & Hext & _).
  - exact keyed_warm_world.
  - vm_compute. reflexivity.
  - eauto.
Defined.

(** ** Tags *)

Lemma existsb_eqb_elem_of (tag : string) (tags : list string) :
  existsb (String.eqb tag) tags = true ↔ tag ∈ tags.
Proof.
  rewrite existsb_exists, list_elem_of_In. split.
  - intros (t & Hin & Heq). apply String.eqb_eq in Heq as ->. exact Hin.
  - intros Hin. exists tag. split; [assumption|apply String.eqb_refl].
Qed.

(** Adding tags one by one, skipping those already there, keeps a list
    without duplicates one, and makes it hold the old and the new tags. *)
Lemma tags_added_set (tags acc : list string) :
  NoDup acc →
  NoDup (tags_added tags acc)
  ∧ ∀ t, t ∈ tags_added tags acc ↔ t ∈ acc ∨ t ∈ tags.
Proof.
  unfold tags_added. revert acc.
  induction tags as [|tag tags IH]; intros acc Hnd; cbn [foldl].
  - split; [assumption|]. intros t. rewrite elem_of_nil. tauto.
  - destruct (existsb (String.eqb tag) acc) eqn:Hex.
    + apply existsb_eqb_elem_of in Hex.
      destruct (IH acc Hnd) as [Hnd' Hin]. split; [assumption|].
      intros t. rewrite Hin, elem_of_cons. split; [tauto|].
      intros [H|[->|H]]; tauto.
    + assert (Hnot : tag ∉ acc).
      { intros H%existsb_eqb_elem_of. congruence. }
      destruct (IH (acc ++ [tag])%list) as [Hnd' Hin].
      { apply NoDup_app. split; [assumption|]. split.
        - intros x Hx Hx'. apply list_elem_of_singleton in Hx' as ->.
          contradiction.
        - apply NoDup_singleton. }
      split; [assumption|].
      intros t. rewrite Hin, elem_of_app, list_elem_of_singleton, elem_of_cons.
      tauto.
Qed.

(** The tags of an item [CreateItem] returns are the tags of the request
    as a set: each requested tag once, however often the request names it,
    and no other tag. *)
Theorem CreateItem_tags_are_a_set (env : Env) (req : CreateItemRequest.t)
    (w w1 : World) (item : BacklogItem) :
  CreateItem env req w = (Ok item, w1) →
  NoDup (Tags item)
  ∧ ∀ t, t ∈ Tags item ↔ t ∈ CreateItemRequest.Tags req.
Proof.
  intros H. apply CreateItem_Ok in H as (_ & _ & _ & _ & _ & -> & _).
  unfold built_item. rewrite Tags_add_tags. cbn [Tags].
  destruct (tags_added_set (CreateItemRequest.Tags req) [])
    as [Hnd Hin]; [constructor|].
  split; [assumption|]. intros t. rewrite Hin, elem_of_nil. tauto.
Qed.

(** A story asked for with the tag [auth] named twice gets it once. *)
Lemma CreateItem_tags_are_a_set_witness :
  ∃ item w1,
    CreateItem env0
      (CreateItemRequest.mk ItemTypeStory "Login" "" None 0%Z
         ["auth"; "ui"; "auth"] "") empty_world = (Ok item, w1)
    ∧ NoDup (Tags item).
Proof.
  eexists. eexists. split.
  - vm_compute. reflexivity.
  - eapply (CreateItem_tags_are_a_set env0
              (CreateItemRequest.mk ItemTypeStory "Login" "" None 0%Z
                 ["auth"; "ui"; "auth"] "") empty_world).
    vm_compute. reflexivity.
Defined.

(** [UpdateItem] with tags replaces the tags of the item, it does not add
    to them: the item it returns has the requested tags, each once, and
    none of the tags the item had that the request does not name. *)
Theorem UpdateItem_replaces_tags (env : Env) (id : UUID)
    (req : UpdateItemRequest.t) (tags : list string) (w w1 : World)
    (item : BacklogItem) :
  UpdateItemRequest.Tags req = Some tags →
  UpdateItem env id req w = (Ok item, w1) →
  NoDup (Tags item) ∧ ∀ t, t ∈ Tags item ↔ t ∈ tags.
Proof.
  intros Htags H.
  apply UpdateItem_fields in H as (old & d & _ & Hreq & _).
  destruct Hreq as (_ & _ & _ & _ & _ & _ & _ & _ & _ & _ & _ & Ht).
  rewrite Htags in Ht. rewrite Ht.
  destruct (tags_added_set tags []) as [Hnd Hin]; [constructor|].
  split; [assumption|]. intros t. rewrite Hin, elem_of_nil. tauto.
Qed.

Lemma remove_first_absent (tag : string) (tags : list string) :
  tag ∉ tags → remove_first tag tags = None.
Proof.
  induction tags as [|t tags IH]; [reflexivity|].
  intros Hnot. apply not_elem_of_cons in Hnot as [Hne Hnot].
  cbn [remove_first]. destruct (String.eqb_spec t tag) as [->|_];
    [contradiction|].
  now rewrite IH.
Qed.

Lemma remove_first_present (tag : string) (tags : list string) :
  NoDup tags → tag ∈ tags →
  ∃ rest, remove_first tag tags = Some rest
          ∧ (tag ∉ rest)
          ∧ ∀ t, t ≠ tag → (t ∈ rest ↔ t ∈ tags).
Proof.
  induction tags as [|t tags IH]; intros Hnd Hin.
  - now apply elem_of_nil in Hin.
  - apply NoDup_cons in Hnd as [Hnot Hnd]. cbn [remove_first].
    destruct (String.eqb_spec t tag) as [->|Hne].
    + exists tags. split; [reflexivity|]. split; [assumption|].
      intros t Ht. rewrite elem_of_cons. tauto.
    + apply elem_of_cons in Hin as [->|Hin]; [contradiction|].
      destruct (IH Hnd Hin) as (rest & -> & Hrest & Hsame).
      exists (t :: rest). split; [reflexivity|]. split.
      * rewrite not_elem_of_cons. split; [congruence|assumption].
      * intros t' Ht'. rewrite !elem_of_cons, (Hsame t' Ht'). tauto.
Qed.

Lemma remove_first_snoc (tag : string) (tags : list string) :
  tag ∉ tags → remove_first tag (tags ++ [tag]) = Some tags.
Proof.
  induction tags as [|t tags IH]; intros Hnot; cbn [remove_first app].
  - now rewrite String.eqb_refl.
  - apply not_elem_of_cons in Hnot as [Hne Hnot].
    destruct (String.eqb_spec t tag) as [->|_]; [contradiction|].
    now rewrite IH.
Qed.

(** On an item whose tags are all different: [AddTag] leaves the item with
    the tag and its tags all different; [RemoveTag] leaves it without the
    tag and with every other tag; removing a tag that has just been added
    gives back the tags as they were; and removing a tag the item does not
    have changes nothing, the update time included. *)
Theorem AddTag_RemoveTag (now now' : Time) (tag : string) (i : BacklogItem) :
  NoDup (Tags i) →
  (tag ∈ Tags (AddTag now tag i) ∧ NoDup (Tags (AddTag now tag i)))
  ∧ ((tag ∉ Tags (RemoveTag now tag i))
     ∧ ∀ t, t ≠ tag → (t ∈ Tags (RemoveTag now tag i) ↔ t ∈ Tags i))
  ∧ (tag ∉ Tags i →
     Tags (RemoveTag now' tag (AddTag now tag i)) = Tags i
     ∧ RemoveTag now tag i = i).
Proof.
  intros Hnd. split; [|split].
  - unfold AddTag. destruct (existsb (String.eqb tag) (Tags i)) eqn:Hex.
    + split; [now apply existsb_eqb_elem_of|assumption].
    + cbn [Tags set_UpdatedAt set_Tags]. split.
      * apply elem_of_app. right. now apply list_elem_of_singleton.
      * apply NoDup_app. split; [assumption|]. split; [|apply NoDup_singleton].
        intros x Hx Hx'. apply list_elem_of_singleton in Hx' as ->.
        apply existsb_eqb_elem_of in Hx. congruence.
  - unfold RemoveTag. destruct (decide (tag ∈ Tags i)) as [Hin|Hnot].
    + destruct (remove_first_present tag (Tags i) Hnd Hin)
        as (rest & -> & Hrest & Hsame).
      cbn [Tags set_UpdatedAt set_Tags]. now split.
    + rewrite (remove_first_absent _ _ Hnot). split; [assumption|tauto].
  - intros Hnot. split.
    + unfold AddTag.
      destruct (existsb (String.eqb tag) (Tags i)) eqn:Hex.
      { apply existsb_eqb_elem_of in Hex. contradiction. }
      unfold RemoveTag. cbn [Tags set_UpdatedAt set_Tags].
      now rewrite (remove_first_snoc _ _ Hnot).
    + unfold RemoveTag. now rewrite (remove_first_absent _ _ Hnot).
Qed.

(** The sample epic, which has no tag, is tagged and untagged. *)
Lemma AddTag_RemoveTag_witness :
  Tags (RemoveTag 2000%Z "auth" (AddTag 1000%Z "auth" stored_epic))
  = Tags stored_epic.
Proof.
  destruct (AddTag_RemoveTag 1000%Z 2000%Z "auth" stored_epic)
    as (_ & _ & Hround).
  - constructor.
  - apply Hround. vm_compute. intros H. inversion H.
Defined.

(** ** Conversions at the edges *)

(** The gRPC layer's conversions take exactly the strings the domain's
    validators take, and return them as they are. *)
Theorem convert_accepts_valid (s t : string) :
  (grpc.convertToItemType s = Some t ↔ s = t ∧ isValidItemType s = true)
  ∧ (grpc.convertToItemStatus s = Some t
     ↔ s = t ∧ isValidItemStatus s = true).
Proof.
  unfold grpc.convertToItemType, grpc.convertToItemStatus,
    isValidItemType, isValidItemStatus,
    ItemTypeEpic, ItemTypeFeature, ItemTypeStory, ItemStatusNew,
    ItemStatusReady, ItemStatusInProgress, ItemStatusDone, ItemStatusBlocked.
  split;
    repeat match goal with
           | |- context [String.eqb s ?c] =>
               destruct (String.eqb_spec s c) as [->|?];
               [cbn; split; [intros [= <-]|intros [<- _]]; auto|]
           end;
    cbn; (split; [discriminate|]); intros [_ H]; discriminate H.
Qed.

Lemma substring_all (s : string) :
  String.substring 0 (String.length s) s = s.
Proof. induction s as [|c s IH]; cbn; [reflexivity|now rewrite IH]. Qed.

(** Taking the namespace prefix off a key that was given it returns the
    key. *)
Theorem unprefixKey_prefixKey (key : string) :
  redis.unprefixKey (redis.prefixKey key) = Some key.
Proof.
  unfold redis.unprefixKey, redis.prefixKey, redis.keyPrefix.
  unfold String.append. cbn. fold String.append.
  rewrite Nat.sub_0_r, substring_all. reflexivity.
Qed.

(** ** The errors of [CreateItem], in the order of its checks *)

(** [CreateItem] checks the title, then the type, then, for a request with
    a parent, that the item is no epic, that the parent is stored, and that
    the parent's type fits; the first check that fails gives the error, and
    the world is as before.  An epic asked for with a parent is refused
    whether the parent exists or not. *)
Theorem CreateItem_first_error (env : Env) (req : CreateItemRequest.t)
    (w : World) :
  let ty := CreateItemRequest.Type_ req in
  (CreateItemRequest.Title req = "" →
   CreateItem env req w = (Err ErrTitleEmpty, w))
  ∧ (CreateItemRequest.Title req ≠ "" → isValidItemType ty = false →
     CreateItem env req w = (Err ErrInvalidItemType, w))
  ∧ ∀ parentID,
      CreateItemRequest.Title req ≠ "" → isValidItemType ty = true →
      CreateItemRequest.ParentID req = Some parentID →
      (ty = ItemTypeEpic → CreateItem env req w = (Err ErrEpicParent, w))
      ∧ (ty ≠ ItemTypeEpic →
         db.backlog_items (store w) !! parentID = None →
         CreateItem env req w = (Err ErrNotFound, w))
      ∧ (ty ≠ ItemTypeEpic →
         ∀ parent,
           db.backlog_items (store w) !! parentID = Some parent →
           isValidParentChild (Type_ parent) ty = false →
           CreateItem env req w = (Err ErrInvalidRelationship, w)).
Proof.
  remember (CreateItem env req w) as res eqn:Hres.
  unfold CreateItem in Hres.
  destruct req as [ty title desc parent sp tags asg];
    cbn [CreateItemRequest.Type_ CreateItemRequest.Title
         CreateItemRequest.Description CreateItemRequest.ParentID
         CreateItemRequest.StoryPoints CreateItemRequest.Tags] in *.
  cbv zeta. rewrite bind_run in Hres. unfold lift at 1 in Hres.
  unfold NewBacklogItem in Hres. revert Hres.
  destruct (String.eqb_spec title "") as [Ht|Ht].
  { intros ->. split; [reflexivity|]. split; [contradiction|].
    intros p H. contradiction. }
  destruct (isValidItemType ty) eqn:Hty; cbn [negb].
  2:{ intros ->. split; [contradiction|]. split; [reflexivity|].
      intros p _ H. discriminate H. }
  intros Hres. split; [contradiction|]. split; [discriminate|].
  intros p _ _ ->. rewrite !bind_run in Hres.
  unfold lift at 1, UpdateParent in Hres. cbn [Type_] in Hres.
  rewrite bool_decide_eq_true_2 in Hres by discriminate. cbn [andb] in Hres.
  revert Hres.
  destruct (String.eqb_spec ty ItemTypeEpic) as [Hepic|Hepic].
  { intros ->. split; [reflexivity|]. split; intros; contradiction. }
  unfold repo_GetByID, db.GetByID. intros Hres.
  rewrite bind_run in Hres. cbv beta in Hres.
  split; [contradiction|]. split.
  - intros _ Hp. rewrite Hp in Hres. exact Hres.
  - intros _ parent Hp Hrel. rewrite Hp, Hrel in Hres. exact Hres.
Qed.

(** An epic asked for under an id that names no item: "epic cannot have a
    parent", not "not found". *)
Lemma CreateItem_first_error_witness :
  CreateItem env0
    (CreateItemRequest.mk ItemTypeEpic "Billing" "" (Some 99%N) 0%Z [] "")
    warm_world
  = (Err ErrEpicParent, warm_world).
Proof.
  pose proof (CreateItem_first_error env0
                (CreateItemRequest.mk ItemTypeEpic "Billing" "" (Some 99%N)
                   0%Z [] "") warm_world) as H.
  cbv zeta in H. destruct H as (_ & _ & H).
  destruct (H 99%N) as (Hepic & _ & _).
  - discriminate.
  - reflexivity.
  - reflexivity.
  - apply Hepic. reflexivity.
Defined.

(** ** Sample runs *)

(** An epic is created in the empty world: no event is found for it. *)
Lemma mutation_adds_no_item_events_witness :
  db.GetEventsByItemID 20%N
    (store (snd (run_mutation env0 (MCreateItem epic_request) empty_world)))
  = db.GetEventsByItemID 20%N (store empty_world).
Proof.
  apply (mutation_adds_no_item_events env0 (MCreateItem epic_request)
           empty_world _ 20%N).
  vm_compute. reflexivity.
Defined.

Lemma created_item_has_no_events_witness :
  db.ReplayEvents 2000%Z 20%N
    (store (snd (CreateItem env0 epic_request empty_world)))
  = Err ErrNoEvents.
Proof.
  destruct (created_item_has_no_events env0 epic_request empty_world
              (snd (CreateItem env0 epic_request empty_world))
              (built_item env0 epic_request) 2000%Z) as [H _].
  - vm_compute. reflexivity.
  - reflexivity.
  - exact H.
Defined.

(** No row for story 5; a row of type ITEMS_REORDERED; a lone update. *)
Lemma ReplayEvents_errors_witness :
  db.ReplayEvents 1000%Z 5%N sample_log = Err ErrNoEvents
  ∧ db.ReplayEvents 1000%Z 9%N
      (db.mkDatabase ∅
         [log_row 36%N event.EventTypeItemsReordered 9%N snapshot0 50%Z])
    = Err ErrUnknownEventType
  ∧ db.ReplayEvents 1000%Z 9%N
      (db.mkDatabase ∅
         [log_row 34%N event.EventTypeItemUpdated 9%N snapshot1 200%Z])
    = Err ErrNoCreatedEvent.
Proof.
  split; [|split].
  - pose proof (ReplayEvents_errors 1000%Z 5%N sample_log) as H.
    cbv zeta in H. destruct H as (H & _ & _). apply H. reflexivity.
  - pose proof (ReplayEvents_errors 1000%Z 9%N
                  (db.mkDatabase ∅
                     [log_row 36%N event.EventTypeItemsReordered 9%N
                        snapshot0 50%Z])) as H.
    cbv zeta in H. destruct H as (_ & H & _). apply H.
    exists (log_row 36%N event.EventTypeItemsReordered 9%N snapshot0 50%Z).
    split.
    + vm_compute. left.
    + vm_compute. intros Hin.
      repeat (apply elem_of_cons in Hin as [Hin|Hin]; [discriminate Hin|]).
      now apply elem_of_nil in Hin.
  - pose proof (ReplayEvents_errors 1000%Z 9%N
                  (db.mkDatabase ∅
                     [log_row 34%N event.EventTypeItemUpdated 9%N
                        snapshot1 200%Z])) as H.
    cbv zeta in H. destruct H as (_ & _ & H). apply H.
    + discriminate.
    + intros r Hr. apply list_elem_of_singleton in Hr as ->. split.
      * right. left.
      * discriminate.
Defined.

(** Story 9 with its two updates and a link set after them; and the same
    with a last update stored without a map of external ids. *)
Lemma ReplayEvents_last_update_witness :
  db.ReplayEvents 1000%Z 9%N linked_log
  = Ok (model.SetExternalID 1000%Z "jira" "UB-9" snapshot2)
  ∧ db.ReplayEvents 1000%Z 9%N bare_log = Err PanicNilMap.
Proof.
  split.
  - destruct (ReplayEvents_last_update 1000%Z 9%N linked_log linked_events
                snapshot0 false) as [H _].
    + vm_compute. reflexivity.
    + reflexivity.
    + apply (H [ (event.ItemCreatedEvent
                    (event.mkEvent 33%N event.EventTypeItemCreated 100%Z 1%Z)
                    9%N (Some snapshot0), false);
                 (event.ItemUpdatedEvent
                    (event.mkEvent 34%N event.EventTypeItemUpdated 200%Z 1%Z)
                    9%N (Some snapshot1), false) ]
               (event.mkEvent 31%N event.EventTypeItemUpdated 300%Z 1%Z) 9%N
               snapshot2 false
               [ (event.ExternalIDSetEvent
                    (event.mkEvent 35%N event.EventTypeExternalIDSet 400%Z 1%Z)
                    9%N "jira" "UB-9", false) ]).
      * reflexivity.
      * reflexivity.
      * repeat constructor.
      * repeat constructor.
  - destruct (ReplayEvents_last_update 1000%Z 9%N bare_log bare_events
                snapshot0 false) as [H _].
    + vm_compute. reflexivity.
    + reflexivity.
    + apply (H [ (event.ItemCreatedEvent
                    (event.mkEvent 33%N event.EventTypeItemCreated 100%Z 1%Z)
                    9%N (Some snapshot0), false);
                 (event.ItemUpdatedEvent
                    (event.mkEvent 34%N event.EventTypeItemUpdated 200%Z 1%Z)
                    9%N (Some snapshot1), false) ]
               (event.mkEvent 31%N event.EventTypeItemUpdated 300%Z 1%Z) 9%N
               snapshot2 true
               [ (event.ExternalIDSetEvent
                    (event.mkEvent 35%N event.EventTypeExternalIDSet 400%Z 1%Z)
                    9%N "jira" "UB-9", false) ]).
      * reflexivity.
      * reflexivity.
      * repeat constructor.
      * repeat constructor.
Defined.

(** The lone story gets a new title. *)
Lemma UpdateItem_partial_update_witness :
  db.backlog_items
    (store (snd (UpdateItem env0 5%N (retitle "Sign-up form") warm_world)))
  !! 5%N
  = Some (set_UpdatedAt 1000%Z (set_Title "Sign-up form" stored_story)).
Proof.
  destruct (UpdateItem_partial_update env0 5%N (retitle "Sign-up form")
              warm_world
              (snd (UpdateItem env0 5%N (retitle "Sign-up form") warm_world))
              (set_UpdatedAt 1000%Z (set_Title "Sign-up form" stored_story)))
    as (old & _ & _ & Htbl).
  - exact keyed_warm_world.
  - vm_compute. reflexivity.
  - rewrite Htbl, lookup_insert_eq. reflexivity.
Defined.

Lemma UpdateItem_then_GetItem_witness :
  ∃ w2,
    GetItem 5%N (snd (UpdateItem env0 5%N (retitle "Sign-up form") warm_world))
    = (Ok (set_UpdatedAt 1000%Z (set_Title "Sign-up form" stored_story)), w2).
Proof.
  apply (UpdateItem_then_GetItem env0 5%N (retitle "Sign-up form") warm_world
           (snd (UpdateItem env0 5%N (retitle "Sign-up form") warm_world))
           (set_UpdatedAt 1000%Z (set_Title "Sign-up form" stored_story))).
  - exact keyed_warm_world.
  - vm_compute. reflexivity.
Defined.

(** The sample feature cannot be taken out of its epic. *)
Lemma UpdateItem_cannot_clear_parent_witness :
  ∃ e, UpdateItem env0 7%N clear_parent warm_world = (Err e, warm_world).
Proof.
  apply (UpdateItem_cannot_clear_parent env0 7%N clear_parent warm_world).
  - exact keyed_warm_world.
  - reflexivity.
  - reflexivity.
Defined.

(** The lone story is given three tags, one of them twice. *)
Lemma UpdateItem_replaces_tags_witness :
  ∃ item w1,
    UpdateItem env0 5%N (retag ["api"; "ui"; "api"]) warm_world = (Ok item, w1)
    ∧ NoDup (Tags item).
Proof.
  eexists. eexists. split.
  - vm_compute. reflexivity.
  - eapply (UpdateItem_replaces_tags env0 5%N (retag ["api"; "ui"; "api"])
              ["api"; "ui"; "api"] warm_world).
    + reflexivity.
    + vm_compute. reflexivity.
Defined.

(** An epic and a feature under it, created in the empty world: the parent
    of the feature is stored and is an epic. *)
Lemma reachable_hierarchy_witness :
  ∃ parent,
    db.backlog_items (store two_items) !! 20%N = Some parent
    ∧ ((Type_ parent = ItemTypeEpic
        ∧ Type_ (built_item env1 (feature_request 20%N)) = ItemTypeFeature)
       ∨ (Type_ parent = ItemTypeFeature
          ∧ Type_ (built_item env1 (feature_request 20%N)) = ItemTypeStory)).
Proof.
  destruct (reachable_hierarchy two_items) as [_ H].
  - apply (reachable_step env1 (MCreateItem (feature_request 20%N))
             (snd (run_mutation env0 (MCreateItem epic_request) empty_world))).
    + apply (reachable_step env0 (MCreateItem epic_request) empty_world).
      * apply reachable_empty. reflexivity.
      * discriminate.
      * vm_compute. reflexivity.
    + discriminate.
    + vm_compute. reflexivity.
  - apply (H 23%N).
    + vm_compute. reflexivity.
    + reflexivity.
Defined.

(** The lone story is asked to take minus three story points. *)
Lemma UpdateItem_negative_story_points_witness :
  fails_within (λ e, is_ValidationError e = true)
    (UpdateItem env0 5%N
       (UpdateItemRequest.mk None None None None (Some (-3)%Z) None None None))
    warm_world.
Proof.
  apply (UpdateItem_negative_story_points env0 5%N _ warm_world (-3)%Z).
  - exists stored_story. reflexivity.
  - reflexivity.
  - lia.
Defined.

(** ** The WHERE clause of [List] *)

Lemma number_args_run (values : list string) (placeholders : list nat)
    (st : WhereState) :
  number_args values placeholders st
  = ((placeholders ++ seq (argCount st) (length values))%list,
     mkWhere (conditions st) (args st ++ (ArgText <$> values))%list
             (argCount st + length values)).
Proof.
  revert placeholders st.
  induction values as [|v values IH]; intros placeholders st;
    cbn [number_args length seq fmap list_fmap].
  - rewrite !app_nil_r, Nat.add_0_r. now destruct st.
  - rewrite IH. cbn [conditions args argCount].
    rewrite <- !app_assoc. cbn [app]. do 2 f_equal. lia.
Qed.

Lemma numbered_snoc (st : WhereState) (c : Condition) (new : list QueryArg) :
  numbered st →
  placeholders_of c = seq (argCount st) (length new) →
  numbered (mkWhere (conditions st ++ [c])%list (args st ++ new)%list
                    (argCount st + length new)).
Proof.
  intros [Hc Hn] Hp. unfold numbered. cbn [conditions args argCount].
  rewrite fmap_app, concat_app, Hc, length_app, seq_app. split.
  - cbn. rewrite app_nil_r, Hp, Hn. reflexivity.
  - lia.
Qed.

Lemma numbered_filter_in (column : string) (values : list string)
    (st : WhereState) :
  numbered st → numbered (filter_in column values st).
Proof.
  intros H. unfold filter_in. destruct (0 <? length values)%nat; [|assumption].
  rewrite number_args_run. cbn [conditions args argCount app].
  pose proof (numbered_snoc st (CondIn column
                (seq (argCount st) (length values))) (ArgText <$> values) H)
    as Hs.
  rewrite length_fmap in Hs. now apply Hs.
Qed.

Lemma numbered_filter_eq (column : string) (v : QueryArg) (st : WhereState) :
  numbered st → numbered (filter_eq column v st).
Proof.
  intros H. unfold filter_eq.
  pose proof (numbered_snoc st (CondEq column (argCount st)) [v] H eq_refl)
    as Hs.
  cbn [length] in Hs. now rewrite Nat.add_1_r in Hs.
Qed.

Lemma numbered_filter_tags (tags : list string) (st : WhereState) :
  numbered st → numbered (filter_tags tags st).
Proof.
  unfold filter_tags. revert st.
  induction tags as [|tag tags IH]; intros st H; [assumption|].
  cbn [foldl]. apply IH.
  pose proof (numbered_snoc st (CondTag (argCount st)) [ArgText tag] H eq_refl)
    as Hs.
  cbn [length] in Hs. now rewrite Nat.add_1_r in Hs.
Qed.

Lemma numbered_filter_search (searchQuery : string) (st : WhereState) :
  numbered st → numbered (filter_search searchQuery st).
Proof.
  intros H. unfold filter_search. cbv zeta.
  apply (numbered_snoc st (CondSearch (argCount st) (argCount st + 1))
           [_; _] H).
  cbn. now rewrite Nat.add_1_r.
Qed.

(** The clause [buildFilterWhereClause] returns is made of conditions
    joined with AND whose placeholders, read from left to right, are $1,
    $2, ... up to the number of arguments it returns: every argument has
    its placeholder, in the order of the arguments, whatever the filter.
    Without any condition the clause is empty and there is no argument. *)
Theorem buildFilterWhereClause_placeholders (filter : BacklogFilter.t) :
  ∃ conds,
    fst (buildFilterWhereClause filter)
    = strings_Join (render <$> conds) " AND "
    ∧ concat (placeholders_of <$> conds)
      = seq 1 (length (snd (buildFilterWhereClause filter)))
    ∧ (conds = [] → snd (buildFilterWhereClause filter) = []).
Proof.
  assert (H : numbered (where_state filter)).
  { unfold where_state. cbv zeta.
    repeat match goal with
           | |- numbered (if ?b then _ else _) => destruct b
           | |- numbered (match ?o with _ => _ end) => destruct o
           | |- numbered (filter_search _ _) => apply numbered_filter_search
           | |- numbered (filter_tags _ _) => apply numbered_filter_tags
           | |- numbered (filter_eq _ _ _) => apply numbered_filter_eq
           | |- numbered (filter_in _ _ _) => apply numbered_filter_in
           end;
      split; reflexivity. }
  exists (conditions (where_state filter)).
  unfold buildFilterWhereClause. cbv zeta.
  destruct H as [Hc Hn].
  destruct (conditions (where_state filter)) as [|c conds] eqn:Hconds;
    cbn [length Nat.ltb Nat.leb fst snd].
  - split; [reflexivity|]. split; [exact Hc|]. intros _.
    cbn in Hc. destruct (args (where_state filter)); [reflexivity|].
    discriminate Hc.
  - split; [reflexivity|]. split; [exact Hc|]. discriminate.
Qed.
